(** * Block validation and chain extension core (lib/schema/block.js)

    A shallow embedding of [Block] from bitcoinjs-server: header hashing,
    proof of work, the Merkle engine, the AuxPoW coinbase check, difficulty
    retargeting, median-time-past and candidate block preparation.

    Conventions.
    - A JavaScript number that holds an integer is a [Z]; the 32-bit
      coercions of the bitwise operators and the rounding of [*] and [+] to
      an IEEE-754 double are written out ([ToInt32], [round53]).
    - A [Buffer] is a list of bytes, each a [Z] in [0, 256).
    - A call that may throw returns an [outcome]; a loop whose bound is not
      structural carries fuel, and running out of it is the third outcome.
    - Continuation-passing calls ([getNextWork], [prepareNextBlock]) thread
      an explicit state through every invocation of the callback. *)

From Stdlib Require Import String Ascii DecimalString DecimalFacts DecimalPos.
From Stdlib Require Import ZArith List Bool Lia.
From Stdlib Require Import Sorting.Sorted Sorting.Permutation.
Import ListNotations.

Open Scope Z_scope.

(* ================================================================== *)
(** * 1. JavaScript values and exceptions *)
(* ================================================================== *)

Definition Buffer := list Z.

(** The exceptions the code throws: [VerificationError] (lib/error), the
    built-in [TypeError] raised by a property access on [undefined], a plain
    [Error], and an error handed back by the block store. *)
Inductive Exn : Type :=
| VerificationError (msg : string)
| TypeError (msg : string)
| PlainError (msg : string)
| StoreError (code : Z).

Inductive outcome (A : Type) : Type :=
| Done (a : A)
| Throw (e : Exn)
| OutOfFuel.
Arguments Done {A} a.
Arguments Throw {A} e.
Arguments OutOfFuel {A}.

Definition bind {A B} (m : outcome A) (k : A -> outcome B) : outcome B :=
  match m with
  | Done a => k a
  | Throw e => Throw e
  | OutOfFuel => OutOfFuel
  end.

Declare Scope js_scope.
Delimit Scope js_scope with js.
Notation "x <- m ;; k" := (bind m (fun x => k))
  (at level 61, m at next level, right associativity) : js_scope.
Notation "m ;;; k" := (bind m (fun _ => k))
  (at level 61, right associativity) : js_scope.
Open Scope js_scope.

Definition isVerificationError {A} (r : outcome A) : bool :=
  match r with
  | Throw (VerificationError _) => true
  | _ => false
  end.

(** [String(z)] for an integer (below 10^21 in magnitude). *)
Definition js_toString (z : Z) : string := NilZero.string_of_int (Z.to_int z).

(** ['a' + x + 'b' + ...] *)
Definition js_concat (parts : list string) : string :=
  String.concat EmptyString parts.

(** ** 32-bit integer coercions of the bitwise operators *)

Definition ToUint32 (z : Z) : Z := z mod 2 ^ 32.

Definition ToInt32 (z : Z) : Z :=
  let m := z mod 2 ^ 32 in
  if m <? 2 ^ 31 then m else m - 2 ^ 32.

(** [a & b] *)
Definition js_and (a b : Z) : Z := Z.land (ToInt32 a) (ToInt32 b).
(** [a >> n] *)
Definition js_shr (a n : Z) : Z := Z.shiftr (ToInt32 a) (ToUint32 n mod 32).
(** [a << n] *)
Definition js_shl (a n : Z) : Z := ToInt32 (Z.shiftl (ToInt32 a) (ToUint32 n mod 32)).

(** ** Double-precision arithmetic on integer values

    [x * y] and [x + y] return the exact result rounded to the nearest
    double, ties to even.  On an integer of magnitude below 2^53 the
    rounding is the identity; above, the 53 leading bits are kept.  (The
    model covers magnitudes below 2^1024, where no overflow occurs.) *)

Definition round53_pos (z : Z) : Z :=
  if z <? 2 ^ 53 then z
  else
    let e := Z.log2 z - 52 in
    let q := Z.shiftr z e in
    let r := z mod 2 ^ e in
    let half := 2 ^ (e - 1) in
    let q' := if (half <? r) || ((r =? half) && Z.odd q) then q + 1 else q in
    q' * 2 ^ e.

Definition round53 (z : Z) : Z :=
  if z <? 0 then - round53_pos (- z) else round53_pos z.

Definition js_mul (a b : Z) : Z := round53 (a * b).
Definition js_add (a b : Z) : Z := round53 (a + b).

(** [a % b] on integer values: the remainder has the sign of the dividend
    and is exact; [None] stands for [NaN] (zero divisor). *)
Definition js_rem (a b : Z) : option Z :=
  if b =? 0 then None else Some (Z.rem a b).

(** ** Buffers (Node's Buffer with the buffertools extensions) *)

(** [buf.compare(other)] of buffertools: -1, 0 or 1.  On buffers of one
    length it is the byte-wise lexicographic order, and 0 only on equal
    buffers.  Buffers of different lengths never compare equal; the model
    orders them by the first differing byte, then by length, and nothing
    proved below rests on the sign in that case. *)
Fixpoint Buffer_compare (a b : Buffer) : Z :=
  match a, b with
  | [], [] => 0
  | [], _ :: _ => -1
  | _ :: _, [] => 1
  | x :: a', y :: b' =>
      if x <? y then -1 else if y <? x then 1 else Buffer_compare a' b'
  end.

(** The unsigned integer a buffer holds in big-endian order. *)
Definition be_value (b : Buffer) : Z :=
  fold_left (fun acc x => acc * 256 + x) b 0.

Definition is_byte (x : Z) : Prop := 0 <= x < 256.

(** Modelled from the spec: [word32le(x)] of lib/binary, the [LE32] of the
    header layout: the four low bytes of [x], least significant first. *)
Definition word32le (x : Z) : Buffer :=
  [ x mod 256; (x / 2 ^ 8) mod 256; (x / 2 ^ 16) mod 256; (x / 2 ^ 24) mod 256 ].

Fixpoint prefix_at (needle hay : Buffer) : bool :=
  match needle, hay with
  | [], _ => true
  | _ :: _, [] => false
  | x :: n', y :: h' => (x =? y) && prefix_at n' h'
  end.

(** First index [>= pos] at which [needle] occurs in [hay], scanning from
    index [pos]; -1 when there is none. *)
Fixpoint indexOf_from (hay needle : Buffer) (pos : Z) : Z :=
  if prefix_at needle hay then pos
  else
    match hay with
    | [] => -1
    | _ :: hay' => indexOf_from hay' needle (pos + 1)
    end.

(** [buf.indexOf(needle, start)] *)
Definition indexOf (hay needle : Buffer) (start : Z) : Z :=
  indexOf_from (skipn (Z.to_nat start) hay) needle (Z.max 0 start).

(** [buf.readUInt32LE(offset)]: throws when the four bytes are not all
    inside the buffer. *)
Definition readUInt32LE (buf : Buffer) (offset : Z) : outcome Z :=
  if (offset <? 0) || (Z.of_nat (length buf) <? offset + 4) then
    Throw (PlainError "Trying to read beyond buffer length")
  else
    match skipn (Z.to_nat offset) buf with
    | b0 :: b1 :: b2 :: b3 :: _ =>
        Done (b0 + b1 * 2 ^ 8 + b2 * 2 ^ 16 + b3 * 2 ^ 24)
    | _ => Throw (PlainError "Trying to read beyond buffer length")
    end.

(** [buf.toString('hex')] *)
Definition hex_char (n : Z) : ascii :=
  nth (Z.to_nat n) (list_ascii_of_string "0123456789abcdef") "0"%char.

Fixpoint toHex (b : Buffer) : string :=
  match b with
  | [] => EmptyString
  | x :: rest => String (hex_char (x / 16)) (String (hex_char (x mod 16)) (toHex rest))
  end.

(** Modelled from the spec: [Util.NULL_HASH], the zero-hash (32 zero
    bytes); lib/util defines it and block.js only reads it. *)
Definition NULL_HASH : Buffer := repeat 0 32.

(* ================================================================== *)
(** * 2. SHA-256 (FIPS 180-4), for the concrete scenarios *)
(* ================================================================== *)

Module SHA256.

Definition w32 (x : Z) : Z := x mod 2 ^ 32.
Definition rotr (n x : Z) : Z := Z.lor (Z.shiftr x n) (w32 (Z.shiftl x (32 - n))).
Definition Ch (x y z : Z) : Z := Z.lxor (Z.land x y) (Z.land (Z.lnot x) z).
Definition Maj (x y z : Z) : Z :=
  Z.lxor (Z.lxor (Z.land x y) (Z.land x z)) (Z.land y z).
Definition bsig0 (x : Z) : Z := Z.lxor (Z.lxor (rotr 2 x) (rotr 13 x)) (rotr 22 x).
Definition bsig1 (x : Z) : Z := Z.lxor (Z.lxor (rotr 6 x) (rotr 11 x)) (rotr 25 x).
Definition ssig0 (x : Z) : Z := Z.lxor (Z.lxor (rotr 7 x) (rotr 18 x)) (Z.shiftr x 3).
Definition ssig1 (x : Z) : Z := Z.lxor (Z.lxor (rotr 17 x) (rotr 19 x)) (Z.shiftr x 10).

(** The round constants are the first 32 bits of the fractional parts of
    the cube roots of the first 64 primes, and the initial state those of
    the square roots of the first 8. *)
Definition is_prime (n : nat) : bool :=
  forallb (fun d => negb (Z.of_nat n mod Z.of_nat d =? 0)) (seq 2 (n - 2)).

Definition primes : list Z :=
  map Z.of_nat (filter is_prime (seq 2 310)).

Fixpoint cube_root_bits (bit : nat) (n r : Z) : Z :=
  match bit with
  | O => r
  | S bit' =>
      let c := r + 2 ^ Z.of_nat bit' in
      cube_root_bits bit' n (if c * c * c <=? n then c else r)
  end.

Definition cube_root (n : Z) : Z := cube_root_bits 40 n 0.

Definition K : list Z :=
  Eval vm_compute in map (fun p => w32 (cube_root (p * 2 ^ 96))) primes.

Definition H0 : list Z :=
  Eval vm_compute in map (fun p => w32 (Z.sqrt (p * 2 ^ 64))) (firstn 8 primes).

(** Big-endian bytes of [x], [n] of them. *)
Fixpoint be_bytes (n : nat) (x : Z) : Buffer :=
  match n with
  | O => []
  | S n' => (x / 256 ^ Z.of_nat n') mod 256 :: be_bytes n' x
  end.

Definition pad (msg : Buffer) : Buffer :=
  let len := Z.of_nat (length msg) in
  let zeros := Z.to_nat ((55 - len) mod 64) in
  msg ++ [0x80] ++ repeat 0 zeros ++ be_bytes 8 (8 * len).

(** Groups of four bytes as big-endian words. *)
Fixpoint words (b : Buffer) : list Z :=
  match b with
  | b0 :: b1 :: b2 :: b3 :: rest =>
      (b0 * 2 ^ 24 + b1 * 2 ^ 16 + b2 * 2 ^ 8 + b3) :: words rest
  | _ => []
  end.

Fixpoint schedule (n : nat) (w : list Z) : list Z :=
  match n with
  | O => w
  | S n' =>
      let t := length w in
      let x := w32 (ssig1 (nth (t - 2) w 0) + nth (t - 7) w 0
                    + ssig0 (nth (t - 15) w 0) + nth (t - 16) w 0) in
      schedule n' (w ++ [x])
  end.

Definition round (st : list Z) (kw : Z * Z) : list Z :=
  match st with
  | [a; b; c; d; e; f; g; h] =>
      let t1 := h + bsig1 e + Ch e f g + fst kw + snd kw in
      let t2 := bsig0 a + Maj a b c in
      [ w32 (t1 + t2); a; b; c; w32 (d + t1); e; f; g ]
  | _ => st
  end.

Definition compress (h : list Z) (block : list Z) : list Z :=
  let w := schedule 48 block in
  let st := fold_left round (combine K w) h in
  map (fun p => w32 (fst p + snd p)) (combine h st).

Fixpoint blocks (n : nat) (ws : list Z) (h : list Z) : list Z :=
  match n with
  | O => h
  | S n' => blocks n' (skipn 16 ws) (compress h (firstn 16 ws))
  end.

Definition sha256 (msg : Buffer) : Buffer :=
  let ws := words (pad msg) in
  flat_map (be_bytes 4) (blocks (length ws / 16) ws H0).

End SHA256.

(** Modelled from the spec: [Util.twoSha256], which lib/util defines and
    block.js only calls; the spec gives [H2(x) = SHA256(SHA256(x))]. *)
Definition sha256d (x : Buffer) : Buffer := SHA256.sha256 (SHA256.sha256 x).

(** Bytes of a hexadecimal string (two digits per byte), for test data. *)
Definition hex_digit (c : ascii) : Z :=
  let n := Z.of_nat (nat_of_ascii c) in
  if (48 <=? n) && (n <=? 57) then n - 48
  else if (97 <=? n) && (n <=? 102) then n - 87
  else if (65 <=? n) && (n <=? 70) then n - 55
  else 0.

Fixpoint from_hex (s : string) : Buffer :=
  match s with
  | String a (String b rest) => (16 * hex_digit a + hex_digit b) :: from_hex rest
  | _ => []
  end.


(* ================================================================== *)
(** * 3. Data model *)
(* ================================================================== *)

(** The transaction contract consumed by the block code
    (lib/schema/transaction): [getHash()], [isCoinBase()] and the scripts
    [ins[k].s] of the inputs. *)
Record Transaction : Type := {
  tx_hash : Buffer;
  tx_isCoinBase : bool;
  tx_ins : list Buffer
}.

(** An element of a [txs] array: a [Transaction] object or a bare hash
    ([tx instanceof Transaction ? tx.getHash() : tx]). *)
Inductive TxItem : Type :=
| TxObj (t : Transaction)
| TxHash (h : Buffer).

(** [cfg.network] *)
Record Network : Type := {
  altChain : bool;
  auxPOWFlag : Z;
  auxPOWChain : Z;
  fullRetargetStart : Z
}.

(** The fields every [Block] has.  [hash] is [null] or a buffer; the
    constructor puts a buffer in [prev_hash] and [merkle_root]. *)
Record Header : Type := {
  hash : option Buffer;
  prev_hash : Buffer;
  merkle_root : Buffer;
  timestamp : Z;
  bits : Z;
  nonce : Z;
  version : Z;
  height : Z
}.

(** [this.aux]; [parent] is itself a [Block], of which only the header
    fields are read. *)
Record AuxPow : Type := {
  coinbase : Transaction;
  coinbase_branch : list Buffer;
  coinbase_branch_mask : Z;
  parent : Header;
  parent_hash : Buffer;
  blockchain_branch : list Buffer;
  blockchain_branch_mask : Z
}.

Record Block : Type := {
  header :> Header;
  cfg : Network;
  aux : option AuxPow
}.

(** ** The block store and Node-style callbacks *)

(** The arguments [(err, value)] a callback is invoked with. *)
Inductive cbargs (A : Type) : Type :=
| CbOk (v : A)
| CbErr (e : Exn).
Arguments CbOk {A} v.
Arguments CbErr {A} e.

(** The chain lookup contract: each lookup invokes its callback once. *)
Record BlockChain : Type := {
  getMinDiff : Z;
  getTargetTimespan : Z;
  getTargetSpacing : Z;
  isTestnet : bool;
  getBlockByHeight : Z -> cbargs Block;
  getBlocksByHeights : list Z -> cbargs (list (option Block))
}.

(** A number that may be [NaN]. *)
Inductive jsnum : Type :=
| Num (z : Z)
| NaN.

(** [x > y] *)
Definition js_gt (x : jsnum) (y : Z) : bool :=
  match x with
  | Num z => y <? z
  | NaN => false
  end.

(** [a % b !== 0] *)
Definition rem_nonzero (a b : Z) : bool :=
  match js_rem a b with
  | Some r => negb (r =? 0)
  | None => true
  end.

(** The fields of [newBlock] the function assigns; [new Block()] starts
    them at zero and at the zero-hash. *)
Record Draft : Type := {
  d_bits : Z;
  d_version : Z;
  d_timestamp : jsnum;
  d_prev_hash : Buffer;
  d_height : Z;
  d_merkle_root : option Buffer
}.

Definition newDraft : Draft :=
  {| d_bits := 0; d_version := 0; d_timestamp := Num 0;
     d_prev_hash := NULL_HASH; d_height := 0; d_merkle_root := Some NULL_HASH |}.

(** [{block: newBlock, txs: txs}] *)
Definition Prepared : Type := (Draft * list Transaction)%type.

(** What the Step sequence of [prepareNextBlock] holds while [getNextWork]
    runs: the draft, whether [applyNextWorkStep], [miscStep] and [callback]
    are still queued, and the invocations of [callback] so far. *)
Record PrepState : Type := {
  ps_newBlock : Draft;
  ps_queued : bool;
  ps_out : list (cbargs Prepared)
}.

(** [BlockRules] *)
Definition maxTimeOffset : Z := 2 * 60 * 60.
Definition largestHash : Z := 2 ^ 256.

(* ================================================================== *)
(** * 4. The block code, over the helpers of lib/util *)
(* ================================================================== *)

Section BlockCode.

(** [Util.twoSha256]. *)
Variable twoSha256 : Buffer -> Buffer.
(** [Util.decodeDiffBits(bits, true)]: the target as a big integer. *)
Variable decodeDiffBits : Z -> Z.
(** [Util.decodeDiffBits(bits)]: the target as a buffer. *)
Variable decodeDiffBitsBuf : Z -> Buffer.
(** [Util.encodeDiffBits(target)]. *)
Variable encodeDiffBits : Z -> Z.

(** ** Header and hash *)

Definition getHeader (h : Header) : Buffer :=
  word32le (version h) ++ prev_hash h ++ merkle_root h
  ++ word32le (timestamp h) ++ word32le (bits h) ++ word32le (nonce h).

Definition calcHash (h : Header) : Buffer := twoSha256 (getHeader h).

(** [!this.hash || !this.hash.length] *)
Definition hashMissing (h : Header) : bool :=
  match hash h with
  | None => true
  | Some b => (length b =? 0)%nat
  end.

Definition checkHash (h : Header) : bool :=
  if hashMissing h then false
  else match hash h with
       | Some b => Buffer_compare (calcHash h) b =? 0
       | None => false
       end.

(** [getHash()] returns the stored hash when there is one and computes it
    otherwise; [latchHash] is the assignment it makes to [this.hash]. *)
Definition getHash (h : Header) : Buffer :=
  if hashMissing h then calcHash h
  else match hash h with
       | Some b => b
       | None => calcHash h
       end.

Definition latchHash (h : Header) : Header :=
  {| hash := Some (getHash h); prev_hash := prev_hash h;
     merkle_root := merkle_root h; timestamp := timestamp h; bits := bits h;
     nonce := nonce h; version := version h; height := height h |}.

Definition getAuxChainID (h : Header) : Z := js_shr (version h) 16.

Definition isAuxPOW (b : Block) : bool :=
  altChain (cfg b) && negb (js_and (version b) (auxPOWFlag (cfg b)) =? 0).

(** ** Proof of work *)

Definition checkProofOfWork (b : Block) : outcome bool :=
  let target := decodeDiffBitsBuf (bits b) in
  thisHash <-
    (if isAuxPOW b then
       if negb (getAuxChainID b =? auxPOWChain (cfg b)) then
         Throw (VerificationError
                  (js_concat ["Auxiliary Chain ID ("; js_toString (getAuxChainID b);
                              ") is not our chain (";
                              js_toString (auxPOWChain (cfg b)); ")"]%string))
       else
         match aux b with
         | None => Throw (TypeError "Cannot read property 'parent' of undefined")
         | Some a =>
             (* a parent hash that differs from [aux.parent_hash] is only
                logged *)
             Done (getHash (parent a))
         end
     else Done (getHash b)) ;;
  let thisHash := rev thisHash in
  if 0 <? Buffer_compare thisHash target then
    Throw (VerificationError "Difficulty target not met")
  else Done true.

(** [largestHash.div(target.add(1))]; the division of big integers
    truncates. *)
Definition getWork (b : Block) : Z :=
  let target := decodeDiffBits (bits b) in
  Z.quot largestHash (target + 1).

(** [nowMs] is [new Date().getTime()].  The comparison
    [timestamp > nowMs / 1000 + maxTimeOffset] is taken in thousandths. *)
Definition checkTimestamp (b : Block) (nowMs : Z) : outcome bool :=
  if nowMs + maxTimeOffset * 1000 <? timestamp b * 1000 then
    Throw (VerificationError "Timestamp too far into the future")
  else Done true.

(** ** Transactions *)

Definition isCoinBase (x : TxItem) : outcome bool :=
  match x with
  | TxObj t => Done (tx_isCoinBase t)
  | TxHash _ => Throw (TypeError "isCoinBase is not a function")
  end.

(** [for (var i = 1; i < txs.length; i++)], over the elements from index
    [i] on. *)
Fixpoint checkNoCoinbase (rest : list TxItem) (i : nat) : outcome bool :=
  match rest with
  | [] => Done true
  | x :: rest' =>
      c <- isCoinBase x ;;
      if c then
        Throw (VerificationError
                 (js_concat ["Tx index "; js_toString (Z.of_nat i);
                             " must not be coinbase"]%string))
      else checkNoCoinbase rest' (S i)
  end.

Definition checkTransactions (txs : option (list TxItem)) : outcome bool :=
  match txs with
  | None | Some [] => Throw (VerificationError "No transactions")
  | Some (x :: rest) =>
      c <- isCoinBase x ;;
      if negb c then Throw (VerificationError "First tx must be coinbase")
      else checkNoCoinbase rest 1
  end.

(** ** Merkle tree *)

Definition leafHash (x : TxItem) : Buffer :=
  match x with
  | TxObj t => tx_hash t
  | TxHash h => h
  end.

(** [tree[k]]: [undefined] outside the array, and [undefined.concat]
    throws. *)
Definition tree_get (tree : list Buffer) (k : nat) : outcome Buffer :=
  match nth_error tree k with
  | Some a => Done a
  | None => Throw (TypeError "Cannot call method 'concat' of undefined")
  end.

(** [for (var i = 0; i < size; i += 2)]: one unit of fuel per iteration. *)
Fixpoint level_loop (fuel : nat) (size j i : nat) (tree : list Buffer)
  : outcome (list Buffer) :=
  if (i <? size)%nat then
    match fuel with
    | O => OutOfFuel
    | S fuel' =>
        let i2 := Nat.min (i + 1) (size - 1) in
        a <- tree_get tree (j + i) ;;
        b <- tree_get tree (j + i2) ;;
        level_loop fuel' size j (i + 2) (tree ++ [twoSha256 (a ++ b)])
    end
  else Done tree.

(** [for (var size = txs.length; size > 1; size = Math.floor((size + 1) / 2))] *)
Fixpoint tree_loop (fuel : nat) (size j : nat) (tree : list Buffer)
  : outcome (list Buffer) :=
  if (1 <? size)%nat then
    match fuel with
    | O => OutOfFuel
    | S fuel' =>
        tree' <- level_loop size size j 0 tree ;;
        tree_loop fuel' ((size + 1) / 2)%nat (j + size)%nat tree'
    end
  else Done tree.

(** [txs] is [None] when the argument is left out ([undefined]). *)
Definition getMerkleTree (txs : option (list TxItem)) : outcome (list Buffer) :=
  match txs with
  | None => Throw (TypeError "Cannot read property 'length' of undefined")
  | Some l =>
      if (length l =? 0)%nat then Done [NULL_HASH]
      else
        let tree := map leafHash l in
        tree_loop (length l) (length l) 0 tree
  end.

(** [tree[tree.length - 1]]; [None] is [undefined]. *)
Definition calcMerkleRoot (txs : option (list TxItem)) : outcome (option Buffer) :=
  tree <- getMerkleTree txs ;;
  Done (nth_error tree (length tree - 1)).

(** [calcMerkleRoot] is called here without its argument. *)
Definition checkMerkleRoot (b : Block) (txs : option (list TxItem)) : outcome bool :=
  if (length (merkle_root b) =? 0)%nat then
    Throw (VerificationError "No merkle root")
  else
    root <- calcMerkleRoot None ;;
    match root with
    | None => Throw (TypeError "Cannot call method 'compare' of undefined")
    | Some r =>
        if Buffer_compare r (merkle_root b) =? 0 then
          Throw (VerificationError "Merkle root incorrect")
        else Done true
    end.

(** [branch.forEach]: the closure updates [workingHash] and [mask]. *)
Definition branch_step (st : Buffer * Z) (otherside : Buffer) : Buffer * Z :=
  let (workingHash, mask) := st in
  ( if negb (js_and mask 1 =? 0) then twoSha256 (otherside ++ workingHash)
    else twoSha256 (workingHash ++ otherside),
    js_shr mask 1 ).

Definition calcMerkleBranch (inputHash : Buffer) (branch : list Buffer) (mask : Z)
  : Buffer :=
  fst (fold_left branch_step branch (inputHash, mask)).

(** ** AuxPoW linkage *)

Definition noAux {A} : outcome A :=
  Throw (TypeError "Cannot read property of undefined (this.aux)").

Definition checkMerkleLink (b : Block) : outcome unit :=
  match aux b with
  | None => noAux
  | Some a =>
      let txnHash := tx_hash (coinbase a) in
      let linkCheck :=
        calcMerkleBranch txnHash (coinbase_branch a) (coinbase_branch_mask a) in
      if negb (Buffer_compare linkCheck (merkle_root (parent a)) =? 0) then
        Throw (VerificationError
                 "AuxPOW Merkle Link verification failed; cannot confirm that the given coinbase transaction is in the parent block")
      else Done tt
  end.

Definition mergedMiningHeader : Buffer := [0xFA; 0xBE; 0x6d; 0x6d].

(** Lines 267-285: where the expected hash sits in the script. *)
Definition auxHashIndex (b : Block) (a : AuxPow) (script : Buffer) : outcome Z :=
  if (0 <? length (blockchain_branch a))%nat then
    let linkCheck :=
      rev (calcMerkleBranch (getHash b) (blockchain_branch a)
             (blockchain_branch_mask a)) in
    let hash_index := indexOf script linkCheck 0 in
    if hash_index <? 0 then
      Throw (VerificationError
               (js_concat ["AuxPOW blockchain hash ("; toHex linkCheck;
                           ") not found in coinbase script ("; toHex script; ")"]%string))
    else Done hash_index
  else
    let block_hash := rev (calcHash b) in
    let hash_index := indexOf script block_hash 0 in
    if hash_index <? 0 then
      Throw (VerificationError
               (js_concat ["AuxPOW block hash ("; toHex block_hash;
                           ") not found in coinbase script ("; toHex script; ")"]%string))
    else Done hash_index.

(** Lines 287-299: the position of the hash relative to the tag. *)
Definition auxHeaderCheck (script : Buffer) (head_index hash_index : Z) : outcome unit :=
  if 0 <=? head_index then
    if 0 <=? indexOf script mergedMiningHeader (head_index + 1) then
      Throw (VerificationError "AuxPOW coinbase script header not found")
    else if negb (head_index + Z.of_nat (length mergedMiningHeader) =? hash_index) then
      Throw (VerificationError
               "AuxPOW block hash does not follow the merged mining header in coinbase script")
    else Done tt
  else if 20 <? hash_index then
    Throw (VerificationError
             "AuxPow block hash must start in the first 20 bytes of the coinbase script")
  else Done tt.

(** [rand = rand * 1103515245 + 12345] on JavaScript numbers. *)
Definition rand_step (rand : Z) : Z := js_add (js_mul rand 1103515245) 12345.

(** Lines 301-314: size, nonce and the branch mask. *)
Definition auxScriptData (b : Block) (a : AuxPow) (script : Buffer) (hash_index : Z)
  : outcome unit :=
  size <- readUInt32LE script (hash_index + 32) ;;
  nonce <- readUInt32LE script (hash_index + 32 + 4) ;;
  if negb (size =? js_shl 1 (Z.of_nat (length (blockchain_branch a)))) then
    Throw (VerificationError "AuxPOW merkle branch size does not match coinbase")
  else
    let rand := nonce in
    let rand := rand_step rand in
    let rand := js_add rand (auxPOWChain (cfg b)) in
    let rand := rand_step rand in
    match js_rem rand size with
    | Some r =>
        if negb (blockchain_branch_mask a =? r) then
          Throw (VerificationError
                   "AuxPOW blockchain bitmask does not match coinbase script")
        else Done tt
    | None =>
        Throw (VerificationError
                 "AuxPOW blockchain bitmask does not match coinbase script")
    end.

Definition checkAuxCoinbase (b : Block) : outcome unit :=
  match aux b with
  | None => noAux
  | Some a =>
      match tx_ins (coinbase a) with
      | [] => Throw (TypeError "Cannot read property 's' of undefined")
      | script :: _ =>
          let head_index := indexOf script mergedMiningHeader 0 in
          hash_index <- auxHashIndex b a script ;;
          auxHeaderCheck script head_index hash_index ;;;
          auxScriptData b a script hash_index
      end
  end.

(** ** checkBlock *)

Definition checkBlock (b : Block) (nowMs : Z) (txs : option (list TxItem))
  : outcome bool :=
  if negb (checkHash b) then Throw (VerificationError "Block hash invalid")
  else
    checkProofOfWork b ;;;
    checkTimestamp b nowMs ;;;
    (if isAuxPOW b then (checkMerkleLink b ;;; checkAuxCoinbase b) else Done tt) ;;;
    match txs with
    | Some l =>
        checkTransactions (Some l) ;;;
        (ok <- checkMerkleRoot b (Some l) ;;
         if negb ok then Throw (VerificationError "Merkle hash invalid")
         else Done true)
    | None => Done true
    end.

(** ** getNextWork

    The function reports through [callback]; every invocation transforms
    the state [St] of the caller, and [nextTimestamp] reads
    [nextBlock.timestamp] in the state current at the time of the read.
    The callback is taken to return normally, so the [catch] clauses only
    see the error of a lookup.  The quotients
    [targetTimespan / targetSpacing] and [targetTimespan / 4] are taken
    exact (the theorems assume the divisibility). *)

Section GetNextWork.

Variable St : Type.
Variable blockChain : BlockChain.
Variable nextTimestamp : St -> jsnum.
Variable callback : cbargs Z -> St -> St.

(** One unit of fuel per lookup; when the store never leads to a block that
    ends the walk, the callback is never invoked. *)
Fixpoint lookForLastNonMinDiff (fuel : nat) (interval powLimit : Z)
  (block : Block) (s : St) : St :=
  if (0 <? height block) && rem_nonzero (height block) interval
     && (bits block =? powLimit) then
    match fuel with
    | O => s
    | S fuel' =>
        match getBlockByHeight blockChain (height block - 1) with
        | CbErr err => callback (CbErr err) s
        | CbOk lastBlock =>
            lookForLastNonMinDiff fuel' interval powLimit lastBlock s
        end
    end
  else callback (CbOk (bits block)) s.

Definition retargetHeight (self : Block) (interval : Z) : Z :=
  let targetHeight := height self - interval + 1 in
  if (0 <? fullRetargetStart (cfg self))
     && (fullRetargetStart (cfg self) <=? height self)
  then targetHeight - 1 else targetHeight.

Definition getNextWork (self : Block) (fuel : nat) (s : St) : St :=
  let powLimit := getMinDiff blockChain in
  let powLimitTarget := decodeDiffBits powLimit in
  let targetTimespan := getTargetTimespan blockChain in
  let targetSpacing := getTargetSpacing blockChain in
  let interval := targetTimespan / targetSpacing in
  (* no [return] follows this call *)
  let s := if height self =? 0 then callback (CbOk (bits self)) s else s in
  if rem_nonzero (height self + 1) interval then
    if isTestnet blockChain then
      (* [blockChain.getTopBlock()] is called here and its result not used *)
      if js_gt (nextTimestamp s) (timestamp self + targetSpacing * 2) then
        callback (CbOk powLimit) s
      else if negb (bits self =? powLimit) then
        callback (CbOk (bits self)) s
      else
        lookForLastNonMinDiff fuel interval powLimit self s
    else
      callback (CbOk (bits self)) s
  else
    match getBlockByHeight blockChain (retargetHeight self interval) with
    | CbErr err => callback (CbErr err) s
    | CbOk lastBlock =>
        let actualTimespan := timestamp self - timestamp lastBlock in
        let actualTimespan :=
          if actualTimespan <? targetTimespan / 4 then targetTimespan / 4
          else actualTimespan in
        let actualTimespan :=
          if targetTimespan * 4 <? actualTimespan then targetTimespan * 4
          else actualTimespan in
        let oldTarget := decodeDiffBits (bits self) in
        let newTarget := Z.quot (oldTarget * actualTimespan) targetTimespan in
        let newTarget :=
          if powLimitTarget <? newTarget then powLimitTarget else newTarget in
        callback (CbOk (encodeDiffBits newTarget)) s
    end.

End GetNextWork.

(** A caller that only records the invocations of the callback, and whose
    [nextBlock] is not touched by them. *)
Definition getNextWork_calls (blockChain : BlockChain) (self : Block)
  (nextBlockTimestamp : jsnum) (fuel : nat) : list (cbargs Z) :=
  getNextWork (list (cbargs Z)) blockChain (fun _ => nextBlockTimestamp)
    (fun r log => log ++ [r]) self fuel [].

(** ** getMedianTimePast *)

Definition medianTimeSpan : nat := 11.

(** [for (var i = 0, m = medianTimeSpan; i < m && (self.height - i) >= 0; i++)],
    with [m - i] iterations left. *)
Fixpoint getBlocks_heights (left : nat) (i : Z) (h : Z) : list Z :=
  match left with
  | O => []
  | S left' =>
      if 0 <=? h - i then (h - i) :: getBlocks_heights left' (i + 1) h
      else []
  end.

(** [blocks.map(...)]: throws at the first missing block; Step hands a
    thrown error to the callback. *)
Fixpoint block_timestamps (blocks : list (option Block)) : cbargs (list Z) :=
  match blocks with
  | [] => CbOk []
  | None :: _ =>
      CbErr (PlainError "Prior block missing, cannot calculate median time")
  | Some block :: rest =>
      match block_timestamps rest with
      | CbOk ts => CbOk (timestamp block :: ts)
      | CbErr e => CbErr e
      end
  end.

(** The order [Array.prototype.sort] uses when called without a comparison
    function: the elements are compared as strings. *)
Definition sort_leb (x y : Z) : bool := String.leb (js_toString x) (js_toString y).

Fixpoint sort_insert (x : Z) (l : list Z) : list Z :=
  match l with
  | [] => [x]
  | y :: l' => if sort_leb x y then x :: y :: l' else y :: sort_insert x l'
  end.

(** [timestamps.sort()] *)
Definition js_sort (l : list Z) : list Z := fold_right sort_insert [] l.

(** The arguments [callback] receives; the value is [None] when
    [timestamps[...]] is [undefined]. *)
Definition getMedianTimePast (blockChain : BlockChain) (self : Block)
  : cbargs (option Z) :=
  let heights := getBlocks_heights medianTimeSpan 0 (height self) in
  match getBlocksByHeights blockChain heights with
  | CbErr err => CbErr err
  | CbOk blocks =>
      match block_timestamps blocks with
      | CbOk timestamps =>
          let timestamps := js_sort timestamps in
          CbOk (nth_error timestamps (length timestamps / 2))
      | CbErr e => CbErr e
      end
  end.

(** ** prepareNextBlock *)

Section PrepareNextBlock.

Variable Beneficiary : Type.
(** [createCoinbaseTx(beneficiary)] on a block of the given height
    (lib/schema/transaction and lib/script build the transaction). *)
Variable createCoinbaseTx : Beneficiary -> Z -> outcome Transaction.

(** [applyNextWorkStep], [miscStep] and [callback], entered through Step's
    [next].  With no step queued [next] drops a call without an error (a
    call with one rethrows it to the caller of [next]). *)
Definition afterNextWork (self : Block) (beneficiary : Beneficiary) (time : jsnum)
  (r : cbargs Z) (s : PrepState) : PrepState :=
  if negb (ps_queued s) then s
  else
    let finish nb out :=
      {| ps_newBlock := nb; ps_queued := false; ps_out := ps_out s ++ out |} in
    match r with
    | CbErr err => finish (ps_newBlock s) [CbErr err]
    | CbOk nextWork =>
        let nb := ps_newBlock s in
        let nb :=
          {| d_bits := nextWork; d_version := 1; d_timestamp := time;
             d_prev_hash := getHash self; d_height := height self + 1;
             d_merkle_root := d_merkle_root nb |} in
        match createCoinbaseTx beneficiary (d_height nb) with
        | Done tx =>
            match calcMerkleRoot (Some [TxObj tx]) with
            | Done root =>
                let nb :=
                  {| d_bits := d_bits nb; d_version := d_version nb;
                     d_timestamp := d_timestamp nb;
                     d_prev_hash := d_prev_hash nb; d_height := d_height nb;
                     d_merkle_root := root |} in
                finish nb [CbOk (nb, [tx])]
            | Throw e => finish nb [CbErr e]
            | OutOfFuel => finish nb []
            end
        | Throw e => finish nb [CbErr e]
        | OutOfFuel => finish nb []
        end
    end.

(** [Math.max(medianTimePast + 1, Math.floor(new Date().getTime() / 1000))] *)
Definition defaultTime (medianTimePast : option Z) (nowMs : Z) : jsnum :=
  match medianTimePast with
  | Some m => Num (Z.max (m + 1) (nowMs / 1000))
  | None => NaN
  end.

(** [time] is [None] when the argument is [undefined] or [null]; [!time]
    also holds of 0.  The result lists the invocations of [callback]. *)
Definition prepareNextBlock (blockChain : BlockChain) (self : Block)
  (beneficiary : Beneficiary) (time : option Z) (nowMs : Z) (fuel : nat)
  : list (cbargs Prepared) :=
  match getMedianTimePast blockChain self with
  | CbErr err => [CbErr err]
  | CbOk medianTimePast =>
      let time :=
        match time with
        | Some t => if t =? 0 then defaultTime medianTimePast nowMs else Num t
        | None => defaultTime medianTimePast nowMs
        end in
      ps_out
        (getNextWork PrepState blockChain
           (fun s => d_timestamp (ps_newBlock s))
           (afterNextWork self beneficiary time)
           self fuel
           {| ps_newBlock := newDraft; ps_queued := true; ps_out := [] |})
  end.

End PrepareNextBlock.

End BlockCode.


(* ================================================================== *)
(** * 4b. The block code: subsidy, chain work, child verification *)
(* ================================================================== *)

(** ** Big integers as buffers (the bignum module)

    [bignum.fromBuffer(buf)] reads a big-endian unsigned number;
    [n.toBuffer()] writes the shortest big-endian form, one zero byte for
    0, and throws for a negative number. *)

Definition bignum_fromBuffer (buf : Buffer) : Z := be_value buf.

Definition bignum_size (n : Z) : nat :=
  if n <=? 0 then 1%nat else Z.to_nat (Z.log2 n / 8 + 1).

Definition bignum_toBuffer (n : Z) : outcome Buffer :=
  if n <? 0 then
    Throw (PlainError "converting negative numbers to Buffers not supported yet")
  else Done (SHA256.be_bytes (bignum_size n) n).

(** A block together with its [chainWork] field. *)
Record ChainBlock : Type := {
  cb_block :> Block;
  chainWork : Buffer
}.

(** The argument of [setChainWork]: a buffer; a big integer (the object
    with a [toBuffer] method the code passes); [undefined] or [null];
    or any other value, one without a [toBuffer] method (a number, a
    string, a plain object). *)
Inductive WorkArg : Type :=
| WorkBuffer (b : Buffer)
| WorkBig (n : Z)
| WorkNullish
| WorkOther.

Definition withHeight (b : Block) (h : Z) : Block :=
  {| header := {| hash := hash b; prev_hash := prev_hash b;
                  merkle_root := merkle_root b; timestamp := timestamp b;
                  bits := bits b; nonce := nonce b; version := version b;
                  height := h |};
     cfg := cfg b; aux := aux b |}.

Section BlockCodeMore.

(** [Util.decodeDiffBits(bits, true)] and [Util.encodeDiffBits], as above. *)
Variable decodeDiffBits : Z -> Z.
Variable encodeDiffBits : Z -> Z.
(** [Util.COIN]. *)
Variable COIN : Z.

(** ** Subsidy *)

(** [Block.getBlockValue(height)]; the division of big integers truncates
    (heights are not negative). *)
Definition getBlockValue (height : Z) : Z :=
  let subsidy := 50 * COIN in
  Z.quot subsidy (2 ^ (height / 210000)).

(** [Block.prototype.getBlockValue()] *)
Definition blockValue (b : Block) : Z := getBlockValue (height b).

(** ** Chain work *)

Definition getChainWork (b : ChainBlock) : Z := bignum_fromBuffer (chainWork b).

Definition setChainWork (b : ChainBlock) (work : WorkArg) : outcome ChainBlock :=
  match work with
  | WorkBuffer buf => Done {| cb_block := cb_block b; chainWork := buf |}
  | WorkBig n =>
      buf <- bignum_toBuffer n ;;
      Done {| cb_block := cb_block b; chainWork := buf |}
  | WorkNullish =>
      (* [chainWork.toBuffer] is read before its type is tested *)
      Throw (TypeError "Cannot read property 'toBuffer' of undefined")
  | WorkOther => Throw (PlainError "Block.setChainWork(): Invalid datatype")
  end.

(** [attachTo(parent)]: the height is assigned first, then the chain
    work. *)
Definition attachTo (b parent : ChainBlock) : outcome ChainBlock :=
  let b := {| cb_block := withHeight b (height parent + 1);
              chainWork := chainWork b |} in
  setChainWork b (WorkBig (getChainWork parent + getWork decodeDiffBits b)).

Definition moreWorkThan (b otherBlock : ChainBlock) : bool :=
  getChainWork otherBlock <? getChainWork b.

(** ** verifyChild *)

(** What the Step sequence of [verifyChild] holds while [getNextWork]
    runs: whether [verifyExpectedDifficulty] and the steps after it are
    still queued, and the invocations of [callback] so far. *)
Record VerifyState : Type := {
  vs_queued : bool;
  vs_out : list (cbargs unit)
}.

(** [verifyExpectedDifficulty], [getMinimumTimestamp], [verifyTimestamp]
    and [callback], entered through Step's [next].  The store is taken to
    answer the median lookup before [getNextWork] goes on; for a parent
    other than the genesis block [getNextWork] answers once and the order
    of events does not depend on that.  [x <= undefined] is false. *)
Definition afterExpectedDifficulty (blockChain : BlockChain) (self child : Block)
  (r : cbargs Z) (s : VerifyState) : VerifyState :=
  if negb (vs_queued s) then s
  else
    let finish out := {| vs_queued := false; vs_out := vs_out s ++ [out] |} in
    match r with
    | CbErr err => finish (CbErr err)
    | CbOk nextWork =>
        if negb (bits child =? nextWork) then
          finish (CbErr (VerificationError
                           (js_concat ["Incorrect proof of work '";
                                       js_toString (bits child);
                                       "', should be '";
                                       js_toString nextWork; "'."]%string)))
        else
          match getMedianTimePast blockChain self with
          | CbErr err => finish (CbErr err)
          | CbOk medianTimePast =>
              let early :=
                match medianTimePast with
                | Some m => timestamp child <=? m
                | None => false
                end in
              if early then
                finish (CbErr (VerificationError "Block's timestamp is too early"))
              else finish (CbOk tt)
          end
    end.

(** The result lists the invocations of [callback]. *)
Definition verifyChild (blockChain : BlockChain) (self child : Block) (fuel : nat)
  : list (cbargs unit) :=
  vs_out
    (getNextWork decodeDiffBits encodeDiffBits VerifyState blockChain
       (fun _ => Num (timestamp child))
       (afterExpectedDifficulty blockChain self child)
       self fuel
       {| vs_queued := true; vs_out := [] |}).

End BlockCodeMore.
(* ================================================================== *)
(** * 5. Reference definitions, in the words of the specification *)
(* ================================================================== *)

Section Reference.

Variable H2 : Buffer -> Buffer.

(** The next level of a Merkle tree: elements [(2i, 2i+1)] are paired, and
    a last element without a right sibling is paired with itself. *)
Fixpoint pair_up (l : list Buffer) : list Buffer :=
  match l with
  | [] => []
  | [a] => [H2 (a ++ a)]
  | a :: b :: rest => H2 (a ++ b) :: pair_up rest
  end.

(** Level 0 is the leaves; a level of more than one element is followed by
    its [pair_up].  [depth] bounds the number of levels. *)
Fixpoint merkle_levels (depth : nat) (l : list Buffer) : list (list Buffer) :=
  if (length l <=? 1)%nat then [l]
  else
    match depth with
    | O => [l]
    | S depth' => l :: merkle_levels depth' (pair_up l)
    end.

(** The flattened tree: all levels, leaves first; a single zero-hash for
    the empty leaf set. *)
Definition merkle_tree (leaves : list Buffer) : list Buffer :=
  match leaves with
  | [] => [NULL_HASH]
  | _ => concat (merkle_levels (length leaves) leaves)
  end.

Definition merkle_root_of (leaves : list Buffer) : Buffer :=
  last (merkle_tree leaves) NULL_HASH.

(** Branch verification: fold over the siblings, the low bit of the
    remaining mask choosing the side, the mask shifted right each step. *)
Fixpoint verify_branch (acc : Buffer) (branch : list Buffer) (mask : Z) : Buffer :=
  match branch with
  | [] => acc
  | sibling :: rest =>
      let acc' := if Z.testbit mask 0 then H2 (sibling ++ acc)
                  else H2 (acc ++ sibling) in
      verify_branch acc' rest (Z.shiftr mask 1)
  end.

End Reference.

(** The generator of the AuxPoW mask check with every step taken modulo
    2^32. *)
Definition rand32_step (rand : Z) : Z := (rand * 1103515245 + 12345) mod 2 ^ 32.

Definition rand32 (nonce chain_id : Z) : Z :=
  let rand := nonce mod 2 ^ 32 in
  let rand := rand32_step rand in
  let rand := (rand + chain_id) mod 2 ^ 32 in
  rand32_step rand.

(** The generator over the unbounded integers. *)
Definition rand_exact (nonce chain_id : Z) : Z :=
  ((nonce * 1103515245 + 12345) + chain_id) * 1103515245 + 12345.

(** The number a list of digits holds in base [B], most significant digit
    first; [be_value] is the case [B = 256]. *)
Definition base_value (B : Z) (l : list Z) : Z :=
  fold_left (fun acc x => acc * B + x) l 0.

Definition is_digit (B x : Z) : Prop := 0 <= x < B.

(** -1, 0 or 1 for a comparison. *)
Definition sign_of (c : comparison) : Z :=
  match c with
  | Lt => -1
  | Eq => 0
  | Gt => 1
  end.


(** Ascending numeric order. *)
Fixpoint num_insert (x : Z) (l : list Z) : list Z :=
  match l with
  | [] => [x]
  | y :: l' => if x <=? y then x :: y :: l' else y :: num_insert x l'
  end.

Definition num_sort (l : list Z) : list Z := fold_right num_insert [] l.

(** The median the specification asks for. *)
Definition median_numeric (timestamps : list Z) : option Z :=
  let sorted := num_sort timestamps in
  nth_error sorted (length sorted / 2).

(** [x] clamped into [[lo, hi]]. *)
Definition clamp (lo hi x : Z) : Z := Z.min hi (Z.max lo x).

(** Modelled from the spec: the compact difficulty codec of lib/util, which
    block.js only calls.  The high byte of [bits] is an exponent [e],
    the low 24 bits a mantissa [m], and the target is [m * 256^(e-3)]; the
    encoder keeps the three leading bytes and renormalises a mantissa that
    reaches [0x800000]. *)
Definition decode_compact (bits : Z) : Z :=
  let e := bits / 2 ^ 24 in
  let m := bits mod 2 ^ 24 in
  if 3 <=? e then m * 256 ^ (e - 3) else m / 256 ^ (3 - e).

(** Modelled from the spec: the target as the 32-byte big-endian buffer a
    reversed hash is compared with. *)
Definition decode_compact_buf (bits : Z) : Buffer :=
  SHA256.be_bytes 32 (decode_compact bits).

Definition byte_length (t : Z) : Z :=
  if t <=? 0 then 0 else Z.log2 t / 8 + 1.

(** Modelled from the spec: the encoder of the compact codec. *)
Definition encode_compact (t : Z) : Z :=
  let size := byte_length t in
  let m := if size <=? 3 then t * 256 ^ (3 - size) else t / 256 ^ (size - 3) in
  if 0x800000 <=? m then m / 256 + (size + 1) * 2 ^ 24
  else m + size * 2 ^ 24.


(** The hash [checkProofOfWork] compares with the target: the one [getHash]
    returns, of the AuxPoW parent when AuxPoW is in effect and of the block
    itself otherwise. *)
Definition selectedHash (H2 : Buffer -> Buffer) (b : Block) : option Buffer :=
  if isAuxPOW b then option_map (fun a => getHash H2 (parent a)) (aux b)
  else Some (getHash H2 b).

(** The hash computed afresh from the header fields. *)
Definition freshHash (H2 : Buffer -> Buffer) (b : Block) : option Buffer :=
  if isAuxPOW b then option_map (fun a => calcHash H2 (parent a)) (aux b)
  else Some (calcHash H2 b).

(** The proof-of-work rule over the freshly computed hash: a
    [VerificationError] exactly when the reversed hash exceeds the target,
    success otherwise. *)
Definition pow_rule_on_fresh_hash (H2 : Buffer -> Buffer) (dbuf : Z -> Buffer)
  (b : Block) : Prop :=
  forall h,
    freshHash H2 b = Some h ->
    (isVerificationError (checkProofOfWork H2 dbuf b) = true
     <-> be_value (dbuf (bits b)) < be_value (rev h))
    /\ (be_value (rev h) <= be_value (dbuf (bits b)) ->
        checkProofOfWork H2 dbuf b = Done true).

(** ** The invocation [getNextWork] makes after the genesis test, in direct
    style: [None] when the walk over the store does not end. *)

Section NextWorkResult.

Variable decode : Z -> Z.
Variable encode : Z -> Z.
Variable blockChain : BlockChain.

Fixpoint lookFor_result (fuel : nat) (interval powLimit : Z) (block : Block)
  : option (cbargs Z) :=
  if (0 <? height block) && rem_nonzero (height block) interval
     && (bits block =? powLimit) then
    match fuel with
    | O => None
    | S fuel' =>
        match getBlockByHeight blockChain (height block - 1) with
        | CbErr err => Some (CbErr err)
        | CbOk lastBlock => lookFor_result fuel' interval powLimit lastBlock
        end
    end
  else Some (CbOk (bits block)).

(** The retarget of the specification: the timespan clamped into
    [[targetTimespan / 4, targetTimespan * 4]], the target scaled by it and
    capped by the decoded proof-of-work limit. *)
Definition retarget_bits (self anchor : Block) : Z :=
  let targetTimespan := getTargetTimespan blockChain in
  let actual :=
    clamp (targetTimespan / 4) (targetTimespan * 4)
      (timestamp self - timestamp anchor) in
  let new_target :=
    Z.min (Z.quot (decode (bits self) * actual) targetTimespan)
      (decode (getMinDiff blockChain)) in
  encode new_target.

(** The same computation as the code makes it, test by test. *)
Definition retarget_steps (self lastBlock : Block) : Z :=
  let targetTimespan := getTargetTimespan blockChain in
  let powLimitTarget := decode (getMinDiff blockChain) in
  let actualTimespan := timestamp self - timestamp lastBlock in
  let actualTimespan :=
    if actualTimespan <? targetTimespan / 4 then targetTimespan / 4
    else actualTimespan in
  let actualTimespan :=
    if targetTimespan * 4 <? actualTimespan then targetTimespan * 4
    else actualTimespan in
  let oldTarget := decode (bits self) in
  let newTarget := Z.quot (oldTarget * actualTimespan) targetTimespan in
  let newTarget :=
    if powLimitTarget <? newTarget then powLimitTarget else newTarget in
  encode newTarget.

(** The height of the anchor block. *)
Definition anchor_height (self : Block) : Z :=
  let interval := getTargetTimespan blockChain / getTargetSpacing blockChain in
  height self - interval + 1
  - (if (0 <? fullRetargetStart (cfg self))
        && (fullRetargetStart (cfg self) <=? height self)
     then 1 else 0).

Definition nextWork_result (self : Block) (fuel : nat) (nextTimestamp : jsnum)
  : option (cbargs Z) :=
  let powLimit := getMinDiff blockChain in
  let targetSpacing := getTargetSpacing blockChain in
  let interval := getTargetTimespan blockChain / targetSpacing in
  if rem_nonzero (height self + 1) interval then
    if isTestnet blockChain then
      if js_gt nextTimestamp (timestamp self + targetSpacing * 2) then
        Some (CbOk powLimit)
      else if negb (bits self =? powLimit) then Some (CbOk (bits self))
      else lookFor_result fuel interval powLimit self
    else Some (CbOk (bits self))
  else
    match getBlockByHeight blockChain (anchor_height self) with
    | CbErr err => Some (CbErr err)
    | CbOk anchor => Some (CbOk (retarget_steps self anchor))
    end.

End NextWorkResult.

(** The callback invoked with a result, or not at all. *)
Definition invoke {St : Type} (callback : cbargs Z -> St -> St)
  (o : option (cbargs Z)) (s : St) : St :=
  match o with
  | Some r => callback r s
  | None => s
  end.

Definition opt_list {A} (o : option A) : list A :=
  match o with
  | Some a => [a]
  | None => []
  end.

(** The [bits] a callback invocation of [prepareNextBlock] carries. *)
Definition delivered_bits (r : cbargs Prepared) : cbargs Z :=
  match r with
  | CbOk p => CbOk (d_bits (fst p))
  | CbErr e => CbErr e
  end.

(** ** Merkle branches *)

Section MerkleBranch.

Variable H2 : Buffer -> Buffer.

(** The index of the element paired with element [i] in a level of [n]
    elements: the next one for an even [i] (the element itself when it is
    the last), the previous one for an odd [i]. *)
Definition sibling_index (n i : nat) : nat :=
  if Nat.even i then Nat.min (i + 1) (n - 1) else (i - 1)%nat.

(** The siblings of leaf [i] on the way to the root, lowest level first. *)
Fixpoint merkle_branch (depth : nat) (l : list Buffer) (i : nat) : list Buffer :=
  if (length l <=? 1)%nat then []
  else
    match depth with
    | O => []
    | S depth' =>
        nth (sibling_index (length l) i) l []
        :: merkle_branch depth' (pair_up H2 l) (i / 2)
    end.

End MerkleBranch.

(** An outcome other than running out of fuel. *)
Definition settled {A} (r : outcome A) : Prop := r <> OutOfFuel.

(** The hash [checkAuxCoinbase] looks for in the parent coinbase script:
    the reversed root of the chain Merkle branch over the hash of the
    block, or the reversed hash of the block when the branch is empty. *)
Definition auxExpectedHash (H2 : Buffer -> Buffer) (b : Block) (a : AuxPow) : Buffer :=
  if (0 <? length (blockchain_branch a))%nat then
    rev (calcMerkleBranch H2 (getHash H2 b) (blockchain_branch a)
           (blockchain_branch_mask a))
  else rev (calcHash H2 b).

(** ** The walk of the test network rule *)



(** ** Child verification and candidate blocks, in direct style *)

(** What the steps of [verifyChild] after [getNextWork] make of its
    answer. *)
Definition verify_outcome (blockChain : BlockChain) (self child : Block)
  (r : cbargs Z) : cbargs unit :=
  match r with
  | CbErr err => CbErr err
  | CbOk nextWork =>
      if negb (bits child =? nextWork) then
        CbErr (VerificationError
                 (js_concat ["Incorrect proof of work '";
                             js_toString (bits child);
                             "', should be '";
                             js_toString nextWork; "'."]%string))
      else
        match getMedianTimePast blockChain self with
        | CbErr err => CbErr err
        | CbOk (Some m) =>
            if timestamp child <=? m then
              CbErr (VerificationError "Block's timestamp is too early")
            else CbOk tt
        | CbOk None => CbOk tt
        end
  end.

(** The time [prepareNextBlock] gives the draft. *)
Definition chosenTime (time : option Z) (medianTimePast : option Z) (nowMs : Z)
  : jsnum :=
  match time with
  | Some t => if t =? 0 then defaultTime medianTimePast nowMs else Num t
  | None => defaultTime medianTimePast nowMs
  end.

(** What the steps of [prepareNextBlock] after [getNextWork] make of its
    answer. *)
Definition prepare_outcome (H2 : Buffer -> Buffer) {Beneficiary : Type}
  (createCoinbaseTx : Beneficiary -> Z -> outcome Transaction)
  (self : Block) (beneficiary : Beneficiary) (time : jsnum) (r : cbargs Z)
  : list (cbargs Prepared) :=
  match r with
  | CbErr err => [CbErr err]
  | CbOk nextWork =>
      match createCoinbaseTx beneficiary (height self + 1) with
      | Done tx =>
          [CbOk ({| d_bits := nextWork; d_version := 1; d_timestamp := time;
                    d_prev_hash := getHash H2 self; d_height := height self + 1;
                    d_merkle_root := Some (tx_hash tx) |}, [tx])]
      | Throw e => [CbErr e]
      | OutOfFuel => []
      end
  end.

(** The state in which [prepareNextBlock] and [verifyChild] call
    [getNextWork]. *)
Definition prepStart : PrepState :=
  {| ps_newBlock := newDraft; ps_queued := true; ps_out := [] |}.

Definition verifyStart : VerifyState := {| vs_queued := true; vs_out := [] |}.

(** ** Subsidy *)

(** The subsidies of the blocks at heights [0] to [n - 1], added up. *)
Fixpoint total_subsidy (COIN : Z) (n : nat) : Z :=
  match n with
  | O => 0
  | S n' => total_subsidy COIN n' + getBlockValue COIN (Z.of_nat n')
  end.
(* ================================================================== *)
(** * 6. Scenarios *)
(* ================================================================== *)

Definition mainnet : Network :=
  {| altChain := false; auxPOWFlag := 0; auxPOWChain := 0; fullRetargetStart := 0 |}.

(** The header of the Bitcoin genesis block. *)
Definition genesis_merkle_root : Buffer :=
  from_hex "3ba3edfd7a7b12b27ac72c3e67768f617fc81bc3888a51323a9fb8aa4b1e5e4a".

Definition genesis_hash : Buffer :=
  from_hex "6fe28c0ab6f1b372c1a6a246ae63f74f931e8365e15a089c68d6190000000000".

Definition genesis_header : Header :=
  {| hash := Some genesis_hash; prev_hash := NULL_HASH;
     merkle_root := genesis_merkle_root; timestamp := 1231006505;
     bits := 0x1d00ffff; nonce := 2083236893; version := 1; height := 0 |}.

Definition genesis : Block :=
  {| header := genesis_header; cfg := mainnet; aux := None |}.

Definition genesis_coinbase : Transaction :=
  {| tx_hash := genesis_merkle_root; tx_isCoinBase := true; tx_ins := [[]] |}.


Definition genesis_txs : list TxItem := [TxObj genesis_coinbase].

(** The genesis block with its Merkle root emptied. *)
Definition rootless : Block :=
  {| header := {| hash := Some genesis_hash; prev_hash := NULL_HASH;
                  merkle_root := []; timestamp := 1231006505;
                  bits := 0x1d00ffff; nonce := 2083236893; version := 1;
                  height := 0 |};
     cfg := mainnet; aux := None |}.

(** The genesis header with nonce 0, carrying an all-zero stored hash. *)
Definition unmined_header : Header :=
  {| hash := Some NULL_HASH; prev_hash := NULL_HASH;
     merkle_root := genesis_merkle_root; timestamp := 1231006505;
     bits := 0x1d00ffff; nonce := 0; version := 1; height := 0 |}.

Definition unmined : Block :=
  {| header := unmined_header; cfg := mainnet; aux := None |}.

(** A merge-mined chain with id 1 and AuxPoW flag bit [0x100]. *)
Definition altnet : Network :=
  {| altChain := true; auxPOWFlag := 0x100; auxPOWChain := 1;
     fullRetargetStart := 0 |}.

Definition aux_of (parent_header : Header) (script : Buffer)
  (branch : list Buffer) (mask : Z) : AuxPow :=
  {| coinbase := {| tx_hash := merkle_root parent_header;
                    tx_isCoinBase := true; tx_ins := [script] |};
     coinbase_branch := []; coinbase_branch_mask := 0;
     parent := parent_header;
     parent_hash := genesis_hash;
     blockchain_branch := branch; blockchain_branch_mask := mask |}.

(** An AuxPoW block whose version names chain 2 on the chain with id 1; its
    parent is the genesis header, which meets the target. *)
Definition foreign_chain_block : Block :=
  {| header := {| hash := None; prev_hash := NULL_HASH;
                  merkle_root := NULL_HASH; timestamp := 1231006505;
                  bits := 0x1d00ffff; nonce := 0; version := 0x00020101;
                  height := 1 |};
     cfg := altnet;
     aux := Some (aux_of genesis_header [] [] 0) |}.

(** A block given by its height, timestamp and bits. *)
Definition plain_block (net : Network) (h ts bts : Z) : Block :=
  {| header := {| hash := None; prev_hash := NULL_HASH; merkle_root := NULL_HASH;
                  timestamp := ts; bits := bts; nonce := 0; version := 1;
                  height := h |};
     cfg := net; aux := None |}.

Definition not_found {A} : cbargs A := CbErr (StoreError 404).

(** The canonical main network parameters over a store that holds the
    given blocks by height. *)
Definition chain_of (testnet : bool) (blocks : list Block) : BlockChain :=
  let lookup h :=
    if h <? 0 then None else nth_error blocks (Z.to_nat h) in
  {| getMinDiff := 0x1d00ffff;
     getTargetTimespan := 1209600;
     getTargetSpacing := 600;
     isTestnet := testnet;
     getBlockByHeight := fun h =>
       match lookup h with
       | Some b => CbOk b
       | None => not_found
       end;
     getBlocksByHeights := fun hs => CbOk (map lookup hs) |}.

(** S4: the block at height 2015, eight weeks after the genesis block. *)
Definition s4_block : Block :=
  plain_block mainnet 2015 (1231006505 + 4 * 1209600) 0x1d00ffff.

Definition s4_chain : BlockChain := chain_of false [genesis].

(** The first retarget of the main chain that changed the difficulty:
    blocks 30240 and 32255. *)
Definition block_30240 : Block := plain_block mainnet 30240 1261130161 0x1d00ffff.
Definition block_32255 : Block := plain_block mainnet 32255 1262152739 0x1d00ffff.

Definition chain_30240 : BlockChain :=
  {| getMinDiff := 0x1d00ffff;
     getTargetTimespan := 1209600;
     getTargetSpacing := 600;
     isTestnet := false;
     getBlockByHeight := fun h =>
       if h =? 30240 then CbOk block_30240 else not_found;
     getBlocksByHeights := fun _ => not_found |}.

(** S6: a test network genesis block below minimum difficulty. *)
Definition testnet_genesis : Block := plain_block mainnet 0 1296688602 0x1c00ffff.
Definition testnet_chain : BlockChain := chain_of true [testnet_genesis].

(** S5: eleven blocks, heights 0 to 10, with the timestamps of the
    scenario. *)
Definition s5_timestamps : list Z := [7; 2; 5; 1; 9; 3; 8; 4; 6; 10; 11].

Definition s5_blocks : list Block :=
  map (fun p => plain_block mainnet (Z.of_nat (fst p)) (snd p) 0x1d00ffff)
    (combine (seq 0 11) s5_timestamps).

Definition s5_chain : BlockChain := chain_of false s5_blocks.

Definition s5_block : Block := plain_block mainnet 10 11 0x1d00ffff.

(** A test network block at height 5, above minimum difficulty. *)
Definition testnet_block_5 : Block := plain_block mainnet 5 1296690000 0x1c00ffff.

Definition testnet_chain_5 : BlockChain :=
  chain_of true
    (map (fun h => plain_block mainnet (Z.of_nat h) (1296688602 + 600 * Z.of_nat h)
                     0x1c00ffff)
       (seq 0 5)
     ++ [testnet_block_5]).

(** A coinbase builder for the scenarios: the beneficiary is the hash of
    the transaction. *)
Definition coinbase_for (beneficiary : Buffer) (h : Z) : outcome Transaction :=
  Done {| tx_hash := beneficiary; tx_isCoinBase := true; tx_ins := [[]] |}.

(** A merge-mined block of chain 1 whose hash is one of two leaves under
    the root embedded in the parent coinbase script; the script gives size
    2 and nonce 2. *)
Definition aux_header : Header :=
  {| hash := None; prev_hash := genesis_hash; merkle_root := NULL_HASH;
     timestamp := 1320000000; bits := 0x1d00ffff; nonce := 0;
     version := 0x00010101; height := 1 |}.

Definition aux_sibling : Buffer := genesis_merkle_root.

Definition aux_script (mask : Z) : Buffer :=
  mergedMiningHeader
  ++ rev (calcMerkleBranch sha256d (calcHash sha256d aux_header) [aux_sibling] mask)
  ++ word32le 2 ++ word32le 2.

Definition aux_block (mask : Z) : Block :=
  {| header := aux_header; cfg := altnet;
     aux := Some (aux_of genesis_header (aux_script mask) [aux_sibling] mask) |}.



(* ================================================================== *)
(** * 7. Properties *)
(* ================================================================== *)

(** ** The modelled hash on known vectors *)

Example sha256_abc :
  SHA256.sha256 [97; 98; 99]
  = from_hex "ba7816bf8f01cfea414140de5dae2223b00361a396177a9cb410ff61f20015ad".
Proof. vm_compute. reflexivity. Qed.

Example genesis_calcHash : calcHash sha256d genesis = genesis_hash.
Proof. vm_compute. reflexivity. Qed.

Example genesis_checkBlock_header_only :
  checkBlock sha256d decode_compact_buf genesis 1231006505000 None = Done true.
Proof. vm_compute. reflexivity. Qed.

Example encode_decode_pow_limit :
  encode_compact (decode_compact 0x1d00ffff) = 0x1d00ffff.
Proof. vm_compute. reflexivity. Qed.

(** ** Merkle engine *)

Ltac norm_app := repeat first [ rewrite <- app_assoc | progress cbn [app] ].

Section MerkleProofs.

Variable H2 : Buffer -> Buffer.

(** Induction over a list two elements at a time, as the inner loop walks
    a level. *)
Lemma list_pair_ind (P : list Buffer -> Prop) :
  P [] ->
  (forall a, P [a]) ->
  (forall a b l, P l -> P (a :: b :: l)) ->
  forall l, P l.
Proof.
  intros Hnil Hone Hstep.
  assert (both : forall l, P l /\ forall a, P (a :: l)).
  { induction l as [| x l [IH1 IH2]].
    - split; [exact Hnil | exact Hone].
    - split; [apply IH2 | intro a; apply Hstep, IH1]. }
  intro l. apply both.
Qed.

Lemma pair_up_length (l : list Buffer) :
  length (pair_up H2 l) = ((length l + 1) / 2)%nat.
Proof.
  induction l as [| a | a b l IH] using list_pair_ind.
  - reflexivity.
  - reflexivity.
  - cbn [pair_up length]. rewrite IH.
    replace (S (S (length l)) + 1)%nat with (length l + 1 + 1 * 2)%nat by lia.
    rewrite Nat.div_add by lia. lia.
Qed.

Lemma tree_get_app (pre rest : list Buffer) (a : Buffer) (k : nat) :
  k = length pre ->
  tree_get (pre ++ a :: rest) k = Done a.
Proof.
  intros ->. unfold tree_get.
  rewrite nth_error_app2 by lia. rewrite Nat.sub_diag. reflexivity.
Qed.

(** The inner loop appends the [pair_up] of what is left of the level. *)
Lemma level_loop_spec (pre : list Buffer) :
  forall rest seen acc fuel,
    (length rest <= fuel)%nat ->
    level_loop H2 fuel (length seen + length rest) (length pre) (length seen)
      (pre ++ seen ++ rest ++ acc)
    = Done (pre ++ seen ++ rest ++ acc ++ pair_up H2 rest).
Proof.
  induction rest as [| a | a b rest IH] using list_pair_ind;
    intros seen acc fuel Hfuel.
  - destruct fuel; cbn [level_loop length pair_up];
      rewrite Nat.add_0_r, Nat.ltb_irrefl, app_nil_r; reflexivity.
  - destruct fuel as [| fuel]; [cbn in Hfuel; lia |].
    cbn [level_loop length pair_up].
    replace (length seen <? length seen + 1)%nat with true
      by (symmetry; apply Nat.ltb_lt; lia).
    replace (Nat.min (length seen + 1) (length seen + 1 - 1)) with (length seen)
      by lia.
    rewrite app_assoc.
    rewrite (tree_get_app (pre ++ seen) acc a) by (rewrite length_app; lia).
    cbn [bind].
    destruct fuel; cbn [level_loop];
      replace (length seen + 2 <? length seen + 1)%nat with false
        by (symmetry; apply Nat.ltb_ge; lia);
      norm_app; reflexivity.
  - destruct fuel as [| fuel]; [cbn in Hfuel; lia |].
    cbn [level_loop length pair_up].
    replace (length seen <? length seen + S (S (length rest)))%nat with true
      by (symmetry; apply Nat.ltb_lt; lia).
    replace (Nat.min (length seen + 1) (length seen + S (S (length rest)) - 1))
      with (length seen + 1)%nat by lia.
    rewrite (app_assoc pre seen).
    rewrite (tree_get_app (pre ++ seen) (b :: rest ++ acc) a)
      by (rewrite length_app; lia).
    replace ((pre ++ seen) ++ (a :: b :: rest) ++ acc)
      with ((pre ++ seen ++ [a]) ++ b :: rest ++ acc)
      by (norm_app; reflexivity).
    rewrite (tree_get_app (pre ++ seen ++ [a]) (rest ++ acc) b)
      by (rewrite !length_app; cbn; lia).
    cbn [bind].
    specialize (IH (seen ++ [a; b]) (acc ++ [H2 (a ++ b)]) fuel).
    rewrite length_app in IH. cbn [length] in IH.
    replace (length seen + 2 + length rest)%nat
      with (length seen + S (S (length rest)))%nat in IH by lia.
    replace (length seen + 2)%nat with (length seen + 2)%nat in IH by lia.
    replace (((pre ++ seen ++ [a]) ++ b :: rest ++ acc) ++ [H2 (a ++ b)])
      with (pre ++ (seen ++ [a; b]) ++ rest ++ acc ++ [H2 (a ++ b)])
      by (norm_app; reflexivity).
    rewrite IH by (cbn in Hfuel; lia).
    norm_app. reflexivity.
Qed.

(** One pass of the inner loop over a whole level. *)
Lemma level_loop_level (pre lvl : list Buffer) :
  level_loop H2 (length lvl) (length lvl) (length pre) 0 (pre ++ lvl)
  = Done (pre ++ lvl ++ pair_up H2 lvl).
Proof.
  pose proof (level_loop_spec pre lvl [] [] (length lvl) (le_n _)) as E.
  cbn [length app] in E. rewrite app_nil_r in E. exact E.
Qed.

(** The outer loop appends level after level. *)
Lemma tree_loop_spec :
  forall fuel pre lvl,
    (length lvl <= fuel)%nat ->
    tree_loop H2 fuel (length lvl) (length pre) (pre ++ lvl)
    = Done (pre ++ concat (merkle_levels H2 fuel lvl)).
Proof.
  induction fuel as [| fuel IH]; intros pre lvl Hfuel.
  - assert (length lvl = 0)%nat as E by lia.
    cbn [tree_loop merkle_levels]. rewrite E. cbn. rewrite app_nil_r. reflexivity.
  - cbn [tree_loop merkle_levels].
    destruct (1 <? length lvl)%nat eqn:Hsize.
    + apply Nat.ltb_lt in Hsize.
      replace (length lvl <=? 1)%nat with false
        by (symmetry; apply Nat.leb_gt; lia).
      rewrite level_loop_level. cbn [bind concat].
      rewrite <- (pair_up_length lvl).
      replace (length pre + length lvl)%nat with (length (pre ++ lvl))
        by apply length_app.
      rewrite app_assoc.
      rewrite IH.
      * rewrite <- app_assoc. reflexivity.
      * rewrite pair_up_length.
        assert ((length lvl + 1) / 2 < length lvl)%nat
          by (apply Nat.Div0.div_lt_upper_bound; lia).
        lia.
    + apply Nat.ltb_ge in Hsize.
      replace (length lvl <=? 1)%nat with true
        by (symmetry; apply Nat.leb_le; lia).
      cbn. rewrite app_nil_r. reflexivity.
Qed.

Lemma getMerkleTree_spec (txs : list TxItem) :
  getMerkleTree H2 (Some txs) = Done (merkle_tree H2 (map leafHash txs)).
Proof.
  unfold getMerkleTree, merkle_tree.
  destruct txs as [| x txs]; [reflexivity |].
  cbn [length Nat.eqb map].
  pose proof (tree_loop_spec (length (map leafHash (x :: txs))) []
                (map leafHash (x :: txs)) (le_n _)) as E.
  rewrite length_map in E. cbn [length app map] in E.
  rewrite length_map. exact E.
Qed.

Lemma merkle_levels_head (depth : nat) (l : list Buffer) :
  exists rest, concat (merkle_levels H2 depth l) = l ++ rest.
Proof.
  destruct depth; cbn [merkle_levels];
    destruct (length l <=? 1)%nat; cbn [concat]; eauto.
Qed.

Lemma merkle_tree_leaves_first (leaves : list Buffer) :
  leaves <> [] ->
  firstn (length leaves) (merkle_tree H2 leaves) = leaves.
Proof.
  intro Hne. unfold merkle_tree.
  destruct leaves as [| a leaves]; [congruence |].
  destruct (merkle_levels_head (length (a :: leaves)) (a :: leaves)) as [rest E].
  rewrite E. rewrite firstn_app, Nat.sub_diag, firstn_all. cbn [firstn].
  apply app_nil_r.
Qed.

Lemma nth_error_last (l : list Buffer) (d : Buffer) :
  l <> [] -> nth_error l (length l - 1) = Some (last l d).
Proof.
  induction l as [| a l IH]; [congruence |].
  intros _. destruct l as [| b l]; [reflexivity |].
  cbn [length last]. cbn [length] in IH.
  replace (S (S (length l)) - 1)%nat with (S (S (length l) - 1)) by lia.
  cbn [nth_error]. apply IH. discriminate.
Qed.

Lemma merkle_tree_nonempty (leaves : list Buffer) : merkle_tree H2 leaves <> [].
Proof.
  unfold merkle_tree. destruct leaves as [| a leaves]; [discriminate |].
  destruct (merkle_levels_head (length (a :: leaves)) (a :: leaves)) as [rest E].
  rewrite E. discriminate.
Qed.

Lemma calcMerkleRoot_spec (txs : list TxItem) :
  calcMerkleRoot H2 (Some txs) = Done (Some (merkle_root_of H2 (map leafHash txs))).
Proof.
  unfold calcMerkleRoot. rewrite getMerkleTree_spec. cbn [bind].
  rewrite (nth_error_last _ NULL_HASH) by apply merkle_tree_nonempty.
  reflexivity.
Qed.

(** The levels end with a single hash, the root: the bound on their number
    is never reached. *)
Lemma merkle_levels_root :
  forall depth l,
    (length l <= depth)%nat -> l <> [] ->
    length (last (merkle_levels H2 depth l) []) = 1%nat.
Proof.
  induction depth as [| depth IH]; intros l Hlen Hne.
  - destruct l; [congruence | cbn in Hlen; lia].
  - cbn [merkle_levels].
    destruct (length l <=? 1)%nat eqn:E.
    + apply Nat.leb_le in E. destruct l; [congruence |]. cbn in *. lia.
    + apply Nat.leb_gt in E.
      assert (Hp : (length (pair_up H2 l) <= depth)%nat).
      { rewrite pair_up_length.
        assert ((length l + 1) / 2 < length l)%nat
          by (apply Nat.Div0.div_lt_upper_bound; lia).
        lia. }
      assert (Hpne : pair_up H2 l <> []).
      { intro Hnil. apply (f_equal (@length Buffer)) in Hnil.
        rewrite pair_up_length in Hnil. cbn [length] in Hnil.
        assert (1 <= (length l + 1) / 2)%nat
          by (apply Nat.div_le_lower_bound; lia).
        lia. }
      specialize (IH (pair_up H2 l) Hp Hpne).
      destruct (merkle_levels H2 depth (pair_up H2 l)) as [| lvl lvls] eqn:El.
      * destruct depth; cbn [merkle_levels] in El;
          destruct (length (pair_up H2 l) <=? 1)%nat; discriminate.
      * exact IH.
Qed.

(** The element of the next level at index [i] is built from the elements
    at [2i] and [min (2i+1) (size-1)]. *)
Lemma pair_up_nth (l : list Buffer) :
  forall i,
    (2 * i < length l)%nat ->
    nth_error (pair_up H2 l) i
    = Some (H2 (nth (2 * i) l [] ++ nth (Nat.min (2 * i + 1) (length l - 1)) l [])).
Proof.
  induction l as [| a | a b l IH] using list_pair_ind; intros i Hi.
  - cbn in Hi. lia.
  - cbn in Hi. assert (i = 0)%nat as -> by lia. reflexivity.
  - destruct i as [| i].
    + reflexivity.
    + cbn [pair_up nth_error]. rewrite IH by (cbn in Hi; lia).
      replace (2 * S i)%nat with (S (S (2 * i))) by lia.
      cbn [length nth].
      replace (Nat.min (S (S (2 * i)) + 1) (S (S (length l)) - 1))
        with (S (S (Nat.min (2 * i + 1) (length l - 1)))) by (cbn in Hi; lia).
      reflexivity.
Qed.

End MerkleProofs.

(** C7. For every leaf sequence the tree builder returns the levels of the
    Merkle tree flattened, leaves first: level 0 is the leaves in order,
    every further level is the [pair_up] of the one before it (elements
    [2i] and [2i+1] hashed together, a last unpaired element with itself),
    the empty sequence gives the single zero-hash, and the root is the last
    element; so three leaves give [H2 (H2 (a ++ b) ++ H2 (c ++ c))] and one
    leaf gives itself. *)
Theorem C7_merkle_tree_builder :
  forall (H2 : Buffer -> Buffer) (txs : list TxItem),
    let L := map leafHash txs in
    getMerkleTree H2 (Some txs) = Done (merkle_tree H2 L)
    /\ firstn (length L) (merkle_tree H2 L) = L
    /\ getMerkleTree H2 (Some []) = Done [NULL_HASH]
    /\ calcMerkleRoot H2 (Some txs) = Done (Some (last (merkle_tree H2 L) NULL_HASH))
    /\ (forall a b c,
          calcMerkleRoot H2 (Some [TxHash a; TxHash b; TxHash c])
          = Done (Some (H2 (H2 (a ++ b) ++ H2 (c ++ c)))))
    /\ (forall h, calcMerkleRoot H2 (Some [TxHash h]) = Done (Some h)).
Proof.
  intros H2 txs L. repeat apply conj.
  - apply getMerkleTree_spec.
  - destruct L as [| a L'] eqn:E; [reflexivity |].
    apply merkle_tree_leaves_first. discriminate.
  - reflexivity.
  - apply (calcMerkleRoot_spec H2 txs).
  - intros a b c. rewrite calcMerkleRoot_spec. reflexivity.
  - intro h. rewrite calcMerkleRoot_spec. reflexivity.
Qed.

(** ** Merkle branch *)

Lemma ToInt32_range (z : Z) : - 2 ^ 31 <= ToInt32 z < 2 ^ 31.
Proof.
  unfold ToInt32.
  pose proof (Z.mod_pos_bound z (2 ^ 32) ltac:(lia)) as B.
  destruct (z mod 2 ^ 32 <? 2 ^ 31) eqn:E;
    [apply Z.ltb_lt in E | apply Z.ltb_ge in E]; lia.
Qed.

Lemma ToInt32_id (z : Z) : - 2 ^ 31 <= z < 2 ^ 31 -> ToInt32 z = z.
Proof.
  intro R. unfold ToInt32.
  destruct (Z.neg_nonneg_cases z) as [Hneg | Hpos].
  - replace (z mod 2 ^ 32) with (z + 2 ^ 32).
    + replace (z + 2 ^ 32 <? 2 ^ 31) with false
        by (symmetry; apply Z.ltb_ge; lia).
      lia.
    + apply Z.mod_unique with (q := -1); lia.
  - rewrite Z.mod_small by lia.
    replace (z <? 2 ^ 31) with true by (symmetry; apply Z.ltb_lt; lia).
    reflexivity.
Qed.

Lemma js_and_low_bit (mask : Z) :
  negb (js_and mask 1 =? 0) = Z.testbit (ToInt32 mask) 0.
Proof.
  unfold js_and. change (ToInt32 1) with (Z.ones 1).
  rewrite Z.land_ones by lia. rewrite Z.bit0_odd.
  change (2 ^ 1) with 2. rewrite Zmod_odd.
  destruct (Z.odd (ToInt32 mask)); reflexivity.
Qed.

Lemma js_shr_one (mask : Z) : js_shr mask 1 = Z.shiftr (ToInt32 mask) 1.
Proof. reflexivity. Qed.

Lemma ToInt32_js_shr_one (mask : Z) :
  ToInt32 (js_shr mask 1) = Z.shiftr (ToInt32 mask) 1.
Proof.
  rewrite js_shr_one. apply ToInt32_id.
  pose proof (ToInt32_range mask) as R.
  rewrite Z.shiftr_div_pow2 by lia. change (2 ^ 1) with 2.
  split.
  - apply Z.div_le_lower_bound; lia.
  - apply Z.div_lt_upper_bound; lia.
Qed.

Lemma calcMerkleBranch_cons (H2 : Buffer -> Buffer) (acc s : Buffer)
  (rest : list Buffer) (mask : Z) :
  calcMerkleBranch H2 acc (s :: rest) mask
  = calcMerkleBranch H2
      (if Z.testbit (ToInt32 mask) 0 then H2 (s ++ acc) else H2 (acc ++ s))
      rest (js_shr mask 1).
Proof.
  unfold calcMerkleBranch. cbn [fold_left branch_step].
  rewrite js_and_low_bit. reflexivity.
Qed.

Lemma calcMerkleBranch_fold (H2 : Buffer -> Buffer) (branch : list Buffer) :
  forall acc mask,
    calcMerkleBranch H2 acc branch mask
    = verify_branch H2 acc branch (ToInt32 mask).
Proof.
  induction branch as [| s rest IH]; intros acc mask.
  - reflexivity.
  - rewrite calcMerkleBranch_cons. cbn [verify_branch].
    rewrite IH, ToInt32_js_shr_one. reflexivity.
Qed.

Lemma ToInt32_low_bits (z i : Z) :
  0 <= i < 32 -> Z.testbit (ToInt32 z) i = Z.testbit z i.
Proof.
  intro Hi. unfold ToInt32.
  destruct (z mod 2 ^ 32 <? 2 ^ 31).
  - apply Z.mod_pow2_bits_low. lia.
  - rewrite <- (Z.mod_pow2_bits_low (z mod 2 ^ 32 - 2 ^ 32) 32 i) by lia.
    replace (z mod 2 ^ 32 - 2 ^ 32) with (z mod 2 ^ 32 + (-1) * 2 ^ 32) by lia.
    rewrite Z_mod_plus_full, Z.mod_mod by lia.
    apply Z.mod_pow2_bits_low. lia.
Qed.

(** The fold reads one bit of the mask per sibling, lowest first. *)
Lemma verify_branch_low_bits (H2 : Buffer -> Buffer) (branch : list Buffer) :
  forall acc m1 m2,
    (forall i, 0 <= i < Z.of_nat (length branch) ->
               Z.testbit m1 i = Z.testbit m2 i) ->
    verify_branch H2 acc branch m1 = verify_branch H2 acc branch m2.
Proof.
  induction branch as [| s rest IH]; intros acc m1 m2 Hbits.
  - reflexivity.
  - cbn [verify_branch]. cbn [length] in Hbits.
    rewrite (Hbits 0) by lia.
    apply IH. intros i Hi.
    rewrite !Z.shiftr_spec by lia. apply Hbits. lia.
Qed.

(** C8. The branch verifier is the fold of the specification over the
    mask taken as a signed 32-bit integer: starting from the leaf, each
    sibling in order is hashed on the right of the accumulator when the
    low bit of the remaining mask is 0 and on the left when it is 1, and
    the mask moves right one bit per step, the sign bit being copied in
    from the left.  For a branch of at most 32 siblings, and for a mask in
    the signed 32-bit range, this is the fold over the mask itself. *)
Theorem C8_merkle_branch_fold :
  forall (H2 : Buffer -> Buffer) (leaf : Buffer) (branch : list Buffer) (mask : Z),
    calcMerkleBranch H2 leaf branch mask
    = verify_branch H2 leaf branch (ToInt32 mask)
    /\ ((length branch <= 32)%nat \/ - 2 ^ 31 <= mask < 2 ^ 31 ->
        calcMerkleBranch H2 leaf branch mask = verify_branch H2 leaf branch mask)
    /\ calcMerkleBranch H2 leaf [] mask = leaf
    /\ (forall s rest,
          calcMerkleBranch H2 leaf (s :: rest) mask
          = calcMerkleBranch H2
              (if Z.testbit mask 0 then H2 (s ++ leaf) else H2 (leaf ++ s))
              rest (js_shr mask 1))
    /\ ToInt32 (js_shr mask 1) = Z.shiftr (ToInt32 mask) 1.
Proof.
  intros H2 leaf branch mask. repeat apply conj.
  - apply calcMerkleBranch_fold.
  - intro R. rewrite calcMerkleBranch_fold.
    destruct R as [Hlen | Hrange].
    + apply verify_branch_low_bits. intros i Hi.
      apply ToInt32_low_bits. lia.
    + rewrite ToInt32_id by exact Hrange. reflexivity.
  - reflexivity.
  - intros s rest. rewrite calcMerkleBranch_cons.
    rewrite ToInt32_low_bits by lia. reflexivity.
  - apply ToInt32_js_shr_one.
Qed.

(** The example in the comment of the source: a leaf proved by three
    siblings with mask 3, the first two on its left and the last on its
    right. *)
Lemma C8_merkle_branch_fold_witness :
  ((length [genesis_hash; NULL_HASH; genesis_merkle_root] <= 32)%nat
   \/ - 2 ^ 31 <= 3 < 2 ^ 31)
  /\ calcMerkleBranch sha256d NULL_HASH
       [genesis_hash; NULL_HASH; genesis_merkle_root] 3
     = sha256d
         (sha256d (NULL_HASH ++ sha256d (genesis_hash ++ NULL_HASH))
          ++ genesis_merkle_root).
Proof.
  assert (H : (length [genesis_hash; NULL_HASH; genesis_merkle_root] <= 32)%nat
              \/ - 2 ^ 31 <= 3 < 2 ^ 31) by (right; lia).
  split; [exact H |].
  rewrite (proj1 (proj2 (C8_merkle_branch_fold sha256d NULL_HASH
                           [genesis_hash; NULL_HASH; genesis_merkle_root] 3)) H).
  reflexivity.
Defined.

(** The fold over the mask itself, without the 32-bit reading, is not what
    the code computes: with mask 2^31 and 33 siblings the code has copied
    the sign bit into the mask by the last step and hashes the last
    sibling on the left, where the low bit of the remaining mask is 0. *)
Lemma C8_unbounded_mask_counterexample :
  calcMerkleBranch sha256d NULL_HASH (repeat genesis_hash 33) (2 ^ 31)
  <> verify_branch sha256d NULL_HASH (repeat genesis_hash 33) (2 ^ 31).
Proof.
  unfold not. vm_compute. intro E. discriminate E.
Qed.

(** ** Merkle root check *)

Lemma checkMerkleRoot_outcome (H2 : Buffer -> Buffer) (b : Block)
  (txs : option (list TxItem)) :
  checkMerkleRoot H2 b txs
  = if (length (merkle_root b) =? 0)%nat
    then Throw (VerificationError "No merkle root")
    else Throw (TypeError "Cannot read property 'length' of undefined").
Proof.
  unfold checkMerkleRoot. destruct (length (merkle_root b) =? 0)%nat; reflexivity.
Qed.

Lemma checkMerkleRoot_never_true (H2 : Buffer -> Buffer) (b : Block)
  (txs : option (list TxItem)) :
  checkMerkleRoot H2 b txs <> Done true.
Proof.
  rewrite checkMerkleRoot_outcome.
  destruct (length (merkle_root b) =? 0)%nat; discriminate.
Qed.

(** C1, evaluated.  The genesis block with its coinbase transaction has the
    Merkle root of its transaction list, and passes every header check; the
    Merkle root check still ends in a [TypeError], because [calcMerkleRoot]
    is called without the transaction list.  A block without a Merkle root
    is refused with 'No merkle root'. *)
Theorem C1_check_merkle_root_on_genesis :
  calcMerkleRoot sha256d (Some genesis_txs) = Done (Some (merkle_root genesis))
  /\ checkTransactions (Some genesis_txs) = Done true
  /\ checkMerkleRoot sha256d genesis (Some genesis_txs)
     = Throw (TypeError "Cannot read property 'length' of undefined")
  /\ checkBlock sha256d decode_compact_buf genesis 1231006505000 (Some genesis_txs)
     = Throw (TypeError "Cannot read property 'length' of undefined")
  /\ checkBlock sha256d decode_compact_buf genesis 1231006505000 None = Done true
  /\ checkMerkleRoot sha256d rootless (Some genesis_txs)
     = Throw (VerificationError "No merkle root").
Proof.
  repeat apply conj; vm_compute; reflexivity.
Qed.

(** ** Proof of work *)

(** Lists of digits of one length compare as the numbers they hold. *)
Section Positional.

Variable B : Z.
Hypothesis B_pos : 0 < B.

Lemma base_value_fold (a : list Z) :
  forall acc,
    fold_left (fun acc x => acc * B + x) a acc
    = acc * B ^ Z.of_nat (length a) + base_value B a.
Proof.
  unfold base_value.
  induction a as [| x a IH]; intro acc.
  - cbn. lia.
  - cbn [fold_left length]. rewrite IH, (IH (0 * B + x)).
    rewrite Nat2Z.inj_succ, Z.pow_succ_r by lia. ring.
Qed.

Lemma base_value_cons (x : Z) (a : list Z) :
  base_value B (x :: a) = x * B ^ Z.of_nat (length a) + base_value B a.
Proof.
  unfold base_value at 1. cbn [fold_left]. rewrite base_value_fold. ring.
Qed.

Lemma base_value_bound (a : list Z) :
  Forall (is_digit B) a -> 0 <= base_value B a < B ^ Z.of_nat (length a).
Proof.
  induction 1 as [| x a Hx _ IH].
  - cbn. lia.
  - rewrite base_value_cons. cbn [length].
    rewrite Nat2Z.inj_succ, Z.pow_succ_r by lia.
    unfold is_digit in Hx. nia.
Qed.

Lemma Buffer_compare_base (a : list Z) :
  forall b,
    length a = length b ->
    Forall (is_digit B) a -> Forall (is_digit B) b ->
    Buffer_compare a b = sign_of (base_value B a ?= base_value B b).
Proof.
  induction a as [| x a IH]; intros [| y b] Hlen Ha Hb;
    try (cbn in Hlen; discriminate).
  - reflexivity.
  - inversion Ha as [| ? ? Hx Ha']; subst.
    inversion Hb as [| ? ? Hy Hb']; subst.
    injection Hlen as Hlen.
    rewrite !base_value_cons. cbn [Buffer_compare]. rewrite <- Hlen.
    pose proof (base_value_bound a Ha') as Ba.
    pose proof (base_value_bound b Hb') as Bb. rewrite <- Hlen in Bb.
    set (P := B ^ Z.of_nat (length a)) in *.
    destruct (x <? y) eqn:Exy; [apply Z.ltb_lt in Exy | apply Z.ltb_ge in Exy].
    + replace (x * P + base_value B a ?= y * P + base_value B b) with Lt;
        [reflexivity | symmetry; apply Z.compare_lt_iff; nia].
    + destruct (y <? x) eqn:Eyx; [apply Z.ltb_lt in Eyx | apply Z.ltb_ge in Eyx].
      * replace (x * P + base_value B a ?= y * P + base_value B b) with Gt;
          [reflexivity | symmetry; apply Z.compare_gt_iff; nia].
      * assert (x = y) as -> by lia. rewrite (IH b Hlen Ha' Hb').
        rewrite Z.add_compare_mono_l. reflexivity.
Qed.

End Positional.

(** On buffers of one length the byte-wise comparison is the comparison of
    the big-endian numbers. *)
Lemma Buffer_compare_numeric (a b : Buffer) :
  length a = length b ->
  Forall is_byte a -> Forall is_byte b ->
  (0 <? Buffer_compare a b) = (be_value b <? be_value a).
Proof.
  intros Hlen Ha Hb.
  rewrite (Buffer_compare_base 256 ltac:(lia) a b Hlen Ha Hb).
  change (base_value 256 a) with (be_value a).
  change (base_value 256 b) with (be_value b).
  rewrite (Z.ltb_compare (be_value b)), (Z.compare_antisym (be_value a)).
  destruct (be_value a ?= be_value b); reflexivity.
Qed.

(** [getHash] prefers the stored hash. *)
Lemma getHash_stored (H2 : Buffer -> Buffer) (h : Header) (s : Buffer) :
  hash h = Some s -> s <> [] -> getHash H2 h = s.
Proof.
  intros E Hne. unfold getHash, hashMissing. rewrite E.
  destruct s; [congruence | reflexivity].
Qed.

Lemma getHash_computed (H2 : Buffer -> Buffer) (h : Header) :
  hashMissing h = true -> getHash H2 h = calcHash H2 h.
Proof. intro E. unfold getHash. rewrite E. reflexivity. Qed.

(** The cache is written once: after [getHash] has stored its result,
    [getHash] returns the same bytes. *)
Lemma getHash_latched (H2 : Buffer -> Buffer) (h : Header) :
  getHash H2 h <> [] -> getHash H2 (latchHash H2 h) = getHash H2 h.
Proof.
  intro Hne. apply getHash_stored; [reflexivity | exact Hne].
Qed.

(** C2, as the code has it.  The hash compared with the target is the one
    [getHash] returns (the stored hash when the block carries one, the
    computed one only otherwise), of the AuxPoW parent when AuxPoW is in
    effect and of the block itself otherwise.  An AuxPoW block whose chain
    id is not the configured one is refused first.  After that, the hash
    and the target being buffers of one length, a [VerificationError] is
    raised exactly when the reversed hash is the greater number, and the
    check succeeds otherwise. *)
Theorem C2_proof_of_work_on_stored_hash :
  forall (H2 : Buffer -> Buffer) (dbuf : Z -> Buffer) (b : Block) (h : Buffer),
    selectedHash H2 b = Some h ->
    length h = length (dbuf (bits b)) ->
    Forall is_byte h ->
    Forall is_byte (dbuf (bits b)) ->
    checkProofOfWork H2 dbuf b
    = if isAuxPOW b && negb (getAuxChainID b =? auxPOWChain (cfg b))
      then Throw (VerificationError
                    (js_concat ["Auxiliary Chain ID ("; js_toString (getAuxChainID b);
                                ") is not our chain (";
                                js_toString (auxPOWChain (cfg b)); ")"]%string))
      else if be_value (dbuf (bits b)) <? be_value (rev h)
           then Throw (VerificationError "Difficulty target not met")
           else Done true.
Proof.
  intros H2 dbuf b h Hsel Hlen Hh Ht.
  assert (Hcmp : (0 <? Buffer_compare (rev h) (dbuf (bits b)))
                 = (be_value (dbuf (bits b)) <? be_value (rev h))).
  { apply Buffer_compare_numeric.
    - rewrite length_rev. exact Hlen.
    - apply Forall_rev. exact Hh.
    - exact Ht. }
  unfold checkProofOfWork, selectedHash in *.
  destruct (isAuxPOW b); cbn [andb].
  - destruct (getAuxChainID b =? auxPOWChain (cfg b)); cbn [negb]; [| reflexivity].
    destruct (aux b) as [a |]; [| discriminate].
    cbn [option_map] in Hsel. injection Hsel as <-.
    cbn [bind]. rewrite Hcmp. reflexivity.
  - injection Hsel as <-. cbn [bind]. rewrite Hcmp. reflexivity.
Qed.

(** The genesis block, whose stored hash is its computed hash, meets its
    target. *)
Lemma C2_proof_of_work_on_stored_hash_witness :
  selectedHash sha256d genesis = Some genesis_hash
  /\ length genesis_hash = length (decode_compact_buf (bits genesis))
  /\ Forall is_byte genesis_hash
  /\ Forall is_byte (decode_compact_buf (bits genesis))
  /\ checkProofOfWork sha256d decode_compact_buf genesis = Done true.
Proof.
  assert (Hsel : selectedHash sha256d genesis = Some genesis_hash)
    by (vm_compute; reflexivity).
  assert (Hlen : length genesis_hash = length (decode_compact_buf (bits genesis)))
    by (vm_compute; reflexivity).
  assert (Hh : Forall is_byte genesis_hash)
    by (vm_compute; repeat constructor; discriminate).
  assert (Ht : Forall is_byte (decode_compact_buf (bits genesis)))
    by (vm_compute; repeat constructor; discriminate).
  repeat apply conj; try assumption.
  rewrite (C2_proof_of_work_on_stored_hash sha256d decode_compact_buf genesis
             genesis_hash Hsel Hlen Hh Ht).
  vm_compute. reflexivity.
Defined.

(** C2 as stated fails twice.  A block that carries a stored all-zero hash
    passes although the hash computed from its header is above the target;
    and an AuxPoW block of a foreign chain is refused although the hash of
    its parent header is below the target. *)
Lemma C2_fresh_hash_counterexample :
  ~ pow_rule_on_fresh_hash sha256d decode_compact_buf unmined
  /\ ~ pow_rule_on_fresh_hash sha256d decode_compact_buf foreign_chain_block.
Proof.
  split; intro H.
  - destruct (H (calcHash sha256d unmined) eq_refl) as [[_ Hgt] _].
    assert (E : isVerificationError
                  (checkProofOfWork sha256d decode_compact_buf unmined) = false)
      by (vm_compute; reflexivity).
    rewrite Hgt in E; [discriminate |].
    vm_compute. reflexivity.
  - destruct (H (calcHash sha256d genesis_header) eq_refl) as [_ Hle].
    assert (E : checkProofOfWork sha256d decode_compact_buf foreign_chain_block
                = Throw (VerificationError
                           "Auxiliary Chain ID (2) is not our chain (1)"))
      by (vm_compute; reflexivity).
    rewrite Hle in E; [discriminate |].
    vm_compute. discriminate.
Qed.

(** ** getNextWork *)

Section NextWorkProofs.

Variable decode : Z -> Z.
Variable encode : Z -> Z.
Variable blockChain : BlockChain.

Section Callback.

Variable St : Type.
Variable nextTimestamp : St -> jsnum.
Variable callback : cbargs Z -> St -> St.

Lemma lookForLastNonMinDiff_result (fuel : nat) (interval powLimit : Z) :
  forall block s,
    lookForLastNonMinDiff St blockChain callback fuel interval powLimit block s
    = invoke callback (lookFor_result blockChain fuel interval powLimit block) s.
Proof.
  induction fuel as [| fuel IH]; intros block s;
    cbn [lookForLastNonMinDiff lookFor_result];
    destruct ((0 <? height block) && rem_nonzero (height block) interval
              && (bits block =? powLimit)); try reflexivity.
  destruct (getBlockByHeight blockChain (height block - 1)) as [lastBlock | err];
    [apply IH | reflexivity].
Qed.

Lemma retargetHeight_anchor (self : Block) :
  retargetHeight self (getTargetTimespan blockChain / getTargetSpacing blockChain)
  = anchor_height blockChain self.
Proof.
  unfold retargetHeight, anchor_height.
  destruct ((0 <? fullRetargetStart (cfg self))
            && (fullRetargetStart (cfg self) <=? height self)); lia.
Qed.

(** [getNextWork] invokes the callback for the genesis block, and then
    invokes it with the result of the rule that applies. *)
Lemma getNextWork_result (self : Block) (fuel : nat) (s : St) :
  getNextWork decode encode St blockChain nextTimestamp callback self fuel s
  = let s1 := if height self =? 0 then callback (CbOk (bits self)) s else s in
    invoke callback
      (nextWork_result decode encode blockChain self fuel (nextTimestamp s1)) s1.
Proof.
  unfold getNextWork, nextWork_result. cbv zeta.
  set (s1 := if height self =? 0 then callback (CbOk (bits self)) s else s).
  destruct (rem_nonzero (height self + 1)
              (getTargetTimespan blockChain / getTargetSpacing blockChain)).
  - destruct (isTestnet blockChain); [| reflexivity].
    destruct (js_gt (nextTimestamp s1)
                (timestamp self + getTargetSpacing blockChain * 2));
      [reflexivity |].
    destruct (negb (bits self =? getMinDiff blockChain)); [reflexivity |].
    apply lookForLastNonMinDiff_result.
  - rewrite retargetHeight_anchor.
    destruct (getBlockByHeight blockChain (anchor_height blockChain self))
      as [anchor | err]; reflexivity.
Qed.

End Callback.

Lemma getNextWork_calls_result (self : Block) (nextTs : jsnum) (fuel : nat) :
  getNextWork_calls decode encode blockChain self nextTs fuel
  = (if height self =? 0 then [CbOk (bits self)] else [])
    ++ opt_list (nextWork_result decode encode blockChain self fuel nextTs).
Proof.
  unfold getNextWork_calls.
  rewrite getNextWork_result. cbv zeta.
  destruct (height self =? 0);
    destruct (nextWork_result decode encode blockChain self fuel nextTs);
    reflexivity.
Qed.

(** The two successive tests on the timespan are the clamp, and the test
    against the limit is the minimum. *)
Lemma retarget_steps_clamp (self anchor : Block) :
  0 < getTargetTimespan blockChain ->
  retarget_steps decode encode blockChain self anchor
  = retarget_bits decode encode blockChain self anchor.
Proof.
  intro Hpos. unfold retarget_steps, retarget_bits. cbv zeta.
  set (tts := getTargetTimespan blockChain) in *.
  set (d := timestamp self - timestamp anchor).
  assert (Hq : 0 <= tts / 4 <= tts * 4).
  { split; [apply Z.div_pos; lia |].
    apply Z.le_trans with tts; [apply Z.div_le_upper_bound; lia | lia]. }
  assert (Hc : (if tts * 4 <?
                   (if d <? tts / 4 then tts / 4 else d)
                then tts * 4
                else if d <? tts / 4 then tts / 4 else d)
               = clamp (tts / 4) (tts * 4) d).
  { unfold clamp.
    destruct (d <? tts / 4) eqn:E1;
      [apply Z.ltb_lt in E1 | apply Z.ltb_ge in E1].
    - replace (tts * 4 <? tts / 4) with false
        by (symmetry; apply Z.ltb_ge; lia). lia.
    - destruct (tts * 4 <? d) eqn:E2;
        [apply Z.ltb_lt in E2 | apply Z.ltb_ge in E2]; lia. }
  rewrite Hc. f_equal.
  set (n := Z.quot _ tts).
  destruct (decode (getMinDiff blockChain) <? n) eqn:E;
    [apply Z.ltb_lt in E | apply Z.ltb_ge in E]; lia.
Qed.

Lemma rem_nonzero_boundary (a b : Z) :
  b <> 0 -> a mod b = 0 -> rem_nonzero a b = false.
Proof.
  intros Hb Hmod. unfold rem_nonzero, js_rem.
  replace (b =? 0) with false by (symmetry; apply Z.eqb_neq; exact Hb).
  apply Z.mod_divide in Hmod; [| exact Hb].
  apply Z.rem_divide in Hmod; [| exact Hb].
  rewrite Hmod. reflexivity.
Qed.

Lemma exact_interval_nonzero (tts spacing : Z) :
  0 < tts -> spacing <> 0 -> (spacing | tts) -> tts / spacing <> 0.
Proof.
  intros Htts Hs [k Hk]. subst tts. rewrite Z.div_mul by exact Hs. nia.
Qed.

(** At a retarget boundary the rule is the retarget against the anchor. *)
Lemma nextWork_result_boundary (self anchor : Block) (fuel : nat) (nextTs : jsnum) :
  0 < getTargetTimespan blockChain ->
  getTargetSpacing blockChain <> 0 ->
  (getTargetSpacing blockChain | getTargetTimespan blockChain) ->
  (height self + 1)
    mod (getTargetTimespan blockChain / getTargetSpacing blockChain) = 0 ->
  getBlockByHeight blockChain (anchor_height blockChain self) = CbOk anchor ->
  nextWork_result decode encode blockChain self fuel nextTs
  = Some (CbOk (retarget_bits decode encode blockChain self anchor)).
Proof.
  intros Htts Hs Hdiv Hmod Hget. unfold nextWork_result. cbv zeta.
  rewrite rem_nonzero_boundary;
    [| apply exact_interval_nonzero; assumption | exact Hmod].
  rewrite Hget, retarget_steps_clamp by exact Htts. reflexivity.
Qed.

End NextWorkProofs.

(** C5. At a retarget boundary, with the anchor block found,
    [getNextWork] reports the retarget of the specification: the anchor is
    at [height - interval + 1], one lower from [fullRetargetStart] on; the
    timespan between the block and the anchor is clamped into
    [[targetTimespan / 4, targetTimespan * 4]]; the decoded target is
    scaled by it, capped by the decoded limit and encoded.  This is the
    last invocation of the callback, and the only one unless the block is
    the genesis block.  With the codec of the specification, bits
    [0x1d00ffff] and an anchor eight weeks earlier give [0x1d00ffff]. *)
Theorem C5_retarget_at_boundary :
  (forall (decode encode : Z -> Z) (blockChain : BlockChain)
          (self anchor : Block) (nextTs : jsnum) (fuel : nat),
      let targetTimespan := getTargetTimespan blockChain in
      let interval := targetTimespan / getTargetSpacing blockChain in
      0 < targetTimespan ->
      getTargetSpacing blockChain <> 0 ->
      (getTargetSpacing blockChain | targetTimespan) ->
      (4 | targetTimespan) ->
      (height self + 1) mod interval = 0 ->
      getBlockByHeight blockChain
        (height self - interval + 1
         - (if (0 <? fullRetargetStart (cfg self))
               && (fullRetargetStart (cfg self) <=? height self)
            then 1 else 0))
      = CbOk anchor ->
      let actual :=
        clamp (targetTimespan / 4) (targetTimespan * 4)
          (timestamp self - timestamp anchor) in
      let new_target :=
        Z.min (Z.quot (decode (bits self) * actual) targetTimespan)
          (decode (getMinDiff blockChain)) in
      exists earlier,
        getNextWork_calls decode encode blockChain self nextTs fuel
        = earlier ++ [CbOk (encode new_target)]
        /\ (height self <> 0 -> earlier = []))
  /\ getNextWork_calls decode_compact encode_compact s4_chain s4_block (Num 0) 0
     = [CbOk 0x1d00ffff].
Proof.
  split.
  - intros decode encode blockChain self anchor nextTs fuel
      targetTimespan interval Htts Hs Hdiv _ Hmod Hget actual new_target.
    rewrite getNextWork_calls_result.
    rewrite (nextWork_result_boundary decode encode blockChain self anchor)
      by assumption.
    exists (if height self =? 0 then [CbOk (bits self)] else []).
    split; [reflexivity |].
    intro Hne. apply Z.eqb_neq in Hne. rewrite Hne. reflexivity.
  - vm_compute. reflexivity.
Qed.

(** The first change of difficulty on the main chain: block 32255 against
    block 30240 gives bits [0x1d00d86a]. *)
Lemma C5_retarget_at_boundary_witness :
  0 < getTargetTimespan chain_30240
  /\ getTargetSpacing chain_30240 <> 0
  /\ (getTargetSpacing chain_30240 | getTargetTimespan chain_30240)
  /\ (4 | getTargetTimespan chain_30240)
  /\ (height block_32255 + 1)
       mod (getTargetTimespan chain_30240 / getTargetSpacing chain_30240) = 0
  /\ getBlockByHeight chain_30240 30240 = CbOk block_30240
  /\ getNextWork_calls decode_compact encode_compact chain_30240 block_32255
       (Num 0) 0
     = [CbOk 0x1d00d86a].
Proof.
  assert (H1 : 0 < getTargetTimespan chain_30240) by reflexivity.
  assert (H2 : getTargetSpacing chain_30240 <> 0) by discriminate.
  assert (H3 : (getTargetSpacing chain_30240 | getTargetTimespan chain_30240))
    by (exists 2016; reflexivity).
  assert (H4 : (4 | getTargetTimespan chain_30240))
    by (exists 302400; reflexivity).
  assert (H5 : (height block_32255 + 1)
               mod (getTargetTimespan chain_30240 / getTargetSpacing chain_30240)
               = 0) by reflexivity.
  assert (H6 : getBlockByHeight chain_30240 30240 = CbOk block_30240)
    by reflexivity.
  repeat apply conj; try assumption.
  destruct (proj1 C5_retarget_at_boundary decode_compact encode_compact
              chain_30240 block_32255 block_30240 (Num 0) 0%nat
              H1 H2 H3 H4 H5 H6) as [earlier [E Hnil]].
  rewrite E, Hnil by discriminate.
  vm_compute. reflexivity.
Defined.

(** ** Genesis *)

(** For a genesis block the callback is invoked with [this.bits], and then
    once more by the rule that applies to the block. *)
Lemma getNextWork_genesis_twice (decode encode : Z -> Z) (blockChain : BlockChain)
  (self : Block) (nextTs : jsnum) (fuel : nat) :
  height self = 0 ->
  exists second,
    getNextWork_calls decode encode blockChain self nextTs fuel
    = [CbOk (bits self); second].
Proof.
  intro H0. rewrite getNextWork_calls_result, H0. cbn [Z.eqb app].
  unfold nextWork_result. cbv zeta. rewrite H0.
  destruct (rem_nonzero (0 + 1) _).
  - destruct (isTestnet blockChain); [| eexists; reflexivity].
    destruct (js_gt nextTs _); [eexists; reflexivity |].
    destruct (negb (bits self =? getMinDiff blockChain)); [eexists; reflexivity |].
    destruct fuel; cbn [lookFor_result]; rewrite H0; cbn [Z.ltb andb];
      eexists; reflexivity.
  - destruct (getBlockByHeight blockChain _); eexists; reflexivity.
Qed.

(** C6, evaluated.  For the genesis block of the main chain the callback is
    invoked twice with [this.bits]; for a test network genesis block
    followed more than twenty minutes later it is invoked with [this.bits]
    and then with the minimum difficulty. *)
Theorem C6_genesis_delivered_twice :
  getNextWork_calls decode_compact encode_compact s4_chain genesis (Num 0) 0
  = [CbOk 0x1d00ffff; CbOk 0x1d00ffff]
  /\ getNextWork_calls decode_compact encode_compact testnet_chain
       testnet_genesis (Num (timestamp testnet_genesis + 1201)) 0
     = [CbOk 0x1c00ffff; CbOk 0x1d00ffff].
Proof.
  split; vm_compute; reflexivity.
Qed.

(** ** Work *)

(** C9. For a target decoded as an unsigned number, [getWork] is
    [floor (2^256 / (target + 1))]: the greatest [w] with
    [w * (target + 1) <= 2^256]. *)
Theorem C9_get_work_floor :
  forall (decode : Z -> Z) (b : Block),
    0 <= decode (bits b) ->
    getWork decode b = 2 ^ 256 / (decode (bits b) + 1)
    /\ getWork decode b * (decode (bits b) + 1) <= 2 ^ 256
       < (getWork decode b + 1) * (decode (bits b) + 1).
Proof.
  intros decode b Hpos.
  assert (E : getWork decode b = 2 ^ 256 / (decode (bits b) + 1)).
  { unfold getWork, largestHash. apply Z.quot_div_nonneg; lia. }
  split; [exact E |].
  rewrite E.
  pose proof (Z.mul_div_le (2 ^ 256) (decode (bits b) + 1) ltac:(lia)).
  pose proof (Z.mul_succ_div_gt (2 ^ 256) (decode (bits b) + 1) ltac:(lia)).
  lia.
Qed.

(** The work of a block at minimum difficulty. *)
Lemma C9_get_work_floor_witness :
  0 <= decode_compact (bits genesis)
  /\ getWork decode_compact genesis = 4295032833.
Proof.
  assert (H : 0 <= decode_compact (bits genesis)) by (vm_compute; discriminate).
  split; [exact H |].
  rewrite (proj1 (C9_get_work_floor decode_compact genesis H)).
  vm_compute. reflexivity.
Defined.

(** ** Median time past *)

(** The heights fetched: the block's own and up to ten below it. *)
Lemma getBlocks_heights_spec (h : Z) :
  forall (left : nat) (i : Z),
    0 <= i -> i <= h + 1 ->
    getBlocks_heights left i h
    = map (fun k => h - i - Z.of_nat k)
        (seq 0 (Nat.min left (Z.to_nat (h + 1 - i)))).
Proof.
  induction left as [| left IH]; intros i Hi Hle.
  - reflexivity.
  - cbn [getBlocks_heights].
    destruct (0 <=? h - i) eqn:E; [apply Z.leb_le in E | apply Z.leb_gt in E].
    + rewrite IH by lia.
      replace (Z.to_nat (h + 1 - i)) with (S (Z.to_nat (h + 1 - (i + 1)))) by lia.
      cbn [Nat.min seq map]. f_equal; [lia |].
      rewrite <- seq_shift, map_map. apply map_ext. intro k. lia.
    + replace (Z.to_nat (h + 1 - i)) with 0%nat by lia.
      rewrite Nat.min_0_r. reflexivity.
Qed.

Lemma getBlocks_heights_count (h : Z) :
  0 <= h ->
  length (getBlocks_heights medianTimeSpan 0 h) = Nat.min 11 (Z.to_nat (h + 1)).
Proof.
  intro Hh. rewrite getBlocks_heights_spec by lia.
  rewrite length_map, length_seq. unfold medianTimeSpan.
  replace (h + 1 - 0) with (h + 1) by lia. reflexivity.
Qed.

Lemma block_timestamps_found (bs : list Block) :
  block_timestamps (map Some bs) = CbOk (map (fun b : Block => timestamp b) bs).
Proof.
  induction bs as [| b bs IH]; [reflexivity |].
  cbn [map block_timestamps]. rewrite IH. reflexivity.
Qed.

(** With every block found, the callback receives the element at index
    [floor (len / 2)] of the timestamps as [sort()] orders them. *)
Lemma getMedianTimePast_found (blockChain : BlockChain) (self : Block)
  (bs : list Block) :
  getBlocksByHeights blockChain (getBlocks_heights medianTimeSpan 0 (height self))
  = CbOk (map Some bs) ->
  getMedianTimePast blockChain self
  = CbOk (nth_error (js_sort (map (fun b : Block => timestamp b) bs))
            (length (js_sort (map (fun b : Block => timestamp b) bs)) / 2)).
Proof.
  intro E. unfold getMedianTimePast. rewrite E, block_timestamps_found.
  reflexivity.
Qed.

Lemma sort_insert_perm (x : Z) (l : list Z) : Permutation (x :: l) (sort_insert x l).
Proof.
  induction l as [| y l IH]; [apply Permutation_refl |].
  cbn [sort_insert]. destruct (sort_leb x y); [apply Permutation_refl |].
  eapply Permutation_trans; [apply perm_swap |].
  apply perm_skip. exact IH.
Qed.

(** [sort()] rearranges the timestamps. *)
Lemma js_sort_perm (l : list Z) : Permutation l (js_sort l).
Proof.
  induction l as [| x l IH]; [apply Permutation_refl |].
  cbn [js_sort fold_right].
  eapply Permutation_trans; [apply perm_skip, IH | apply sort_insert_perm].
Qed.

Lemma sort_leb_total (x y : Z) : sort_leb x y = false -> sort_leb y x = true.
Proof.
  unfold sort_leb. intro E.
  destruct (String.leb_total (js_toString x) (js_toString y)) as [H | H];
    congruence.
Qed.

Lemma sort_insert_sorted (x : Z) (l : list Z) :
  LocallySorted (fun a b => sort_leb a b = true) l ->
  LocallySorted (fun a b => sort_leb a b = true) (sort_insert x l).
Proof.
  induction 1 as [| y | y z l Hl IH Hyz]; cbn [sort_insert].
  - constructor.
  - destruct (sort_leb x y) eqn:E; repeat constructor;
      auto using sort_leb_total.
  - destruct (sort_leb x y) eqn:E.
    + repeat constructor; assumption.
    + cbn [sort_insert] in IH. destruct (sort_leb x z) eqn:E'.
      * repeat constructor; auto using sort_leb_total.
      * constructor; assumption.
Qed.

(** ... into the order of their decimal strings. *)
Lemma js_sort_sorted (l : list Z) :
  LocallySorted (fun a b => sort_leb a b = true) (js_sort l).
Proof.
  induction l as [| x l IH]; [constructor |].
  cbn [js_sort fold_right]. apply sort_insert_sorted, IH.
Qed.

(** ** When [sort()] is the numeric sort

    Timestamps with one number of decimal digits are ordered by their
    strings as by their values; all block timestamps from 2001 to 2286 have
    ten digits. *)



















(** C3, evaluated.  On the eleven timestamps of scenario S5 [sort()] puts
    10 and 11 between 1 and 2, and the element at index 5 is 4; the median
    in numeric order is 6. *)
Theorem C3_median_time_past_on_s5 :
  getBlocks_heights medianTimeSpan 0 (height s5_block)
  = [10; 9; 8; 7; 6; 5; 4; 3; 2; 1; 0]
  /\ js_sort s5_timestamps = [1; 10; 11; 2; 3; 4; 5; 6; 7; 8; 9]
  /\ getMedianTimePast s5_chain s5_block = CbOk (Some 4)
  /\ median_numeric s5_timestamps = Some 6.
Proof.
  repeat apply conj; vm_compute; reflexivity.
Qed.

(** ** AuxPoW mask *)

(** [readUInt32LE] reads back what [word32le] wrote. *)
Lemma word32le_value (x : Z) :
  x mod 256 + (x / 2 ^ 8) mod 256 * 2 ^ 8 + (x / 2 ^ 16) mod 256 * 2 ^ 16
  + (x / 2 ^ 24) mod 256 * 2 ^ 24
  = x mod 2 ^ 32.
Proof.
  change (2 ^ 32) with (256 * (256 * (256 * 256))).
  rewrite !Z.rem_mul_r by lia.
  rewrite !Z.div_div by lia.
  change (2 ^ 8) with 256. change (2 ^ 16) with (256 * 256).
  change (2 ^ 24) with (256 * 256 * 256). lia.
Qed.

Lemma readUInt32LE_word32le (pre rest : Buffer) (x : Z) :
  readUInt32LE (pre ++ word32le x ++ rest) (Z.of_nat (length pre))
  = Done (x mod 2 ^ 32).
Proof.
  unfold readUInt32LE.
  replace (Z.of_nat (length pre) <? 0) with false
    by (symmetry; apply Z.ltb_ge; lia).
  replace (Z.of_nat (length (pre ++ word32le x ++ rest))
           <? Z.of_nat (length pre) + 4) with false
    by (symmetry; apply Z.ltb_ge; rewrite !length_app; cbn [length word32le]; lia).
  cbn [orb]. rewrite Nat2Z.id, skipn_app, Nat.sub_diag, skipn_all.
  cbn [app skipn word32le]. rewrite word32le_value. reflexivity.
Qed.

(** Below 2^53 nothing is rounded. *)
Lemma round53_small (z : Z) : - 2 ^ 53 < z < 2 ^ 53 -> round53 z = z.
Proof.
  intro R. unfold round53, round53_pos.
  destruct (z <? 0) eqn:E; [apply Z.ltb_lt in E | apply Z.ltb_ge in E].
  - replace (- z <? 2 ^ 53) with true by (symmetry; apply Z.ltb_lt; lia). lia.
  - replace (z <? 2 ^ 53) with true by (symmetry; apply Z.ltb_lt; lia).
    reflexivity.
Qed.

Lemma round53_nonneg (z : Z) : 0 <= z -> round53 z = round53_pos z.
Proof.
  intro Hz. unfold round53.
  replace (z <? 0) with false by (symmetry; apply Z.ltb_ge; lia).
  reflexivity.
Qed.

(** Above 2^53 the result keeps 53 bits: with [e = log2 z - 52] it is a
    multiple of [2^e] and at least [2^(log2 z)]. *)
Lemma round53_pos_large (z : Z) :
  2 ^ 53 <= z ->
  exists q, round53_pos z = q * 2 ^ (Z.log2 z - 52) /\ 2 ^ 52 <= q.
Proof.
  intro Hz. unfold round53_pos.
  replace (z <? 2 ^ 53) with false by (symmetry; apply Z.ltb_ge; lia).
  assert (Hlog : 53 <= Z.log2 z) by (apply Z.log2_le_pow2; lia).
  set (e := Z.log2 z - 52).
  assert (Hq : 2 ^ 52 <= Z.shiftr z e).
  { rewrite Z.shiftr_div_pow2 by lia.
    apply Z.div_le_lower_bound; [apply Z.pow_pos_nonneg; lia |].
    rewrite <- Z.pow_add_r by lia.
    replace (e + 52) with (Z.log2 z) by lia.
    apply Z.log2_spec. lia. }
  destruct ((2 ^ (e - 1) <? z mod 2 ^ e)
            || ((z mod 2 ^ e =? 2 ^ (e - 1)) && Z.odd (Z.shiftr z e)));
    eexists; (split; [reflexivity | lia]).
Qed.

Lemma round53_pos_lower (z n : Z) :
  0 <= n -> 2 ^ n <= z -> 2 ^ n <= round53_pos z.
Proof.
  intros Hn Hz.
  assert (0 < 2 ^ n) by (apply Z.pow_pos_nonneg; lia).
  destruct (Z.lt_ge_cases z (2 ^ 53)) as [Hsmall | Hlarge].
  - unfold round53_pos.
    replace (z <? 2 ^ 53) with true by (symmetry; apply Z.ltb_lt; lia).
    exact Hz.
  - destruct (round53_pos_large z Hlarge) as [q [E Hq]]. rewrite E.
    assert (Hlog : n <= Z.log2 z) by (apply Z.log2_le_pow2; lia).
    assert (53 <= Z.log2 z) by (apply Z.log2_le_pow2; lia).
    apply Z.le_trans with (2 ^ 52 * 2 ^ (Z.log2 z - 52)).
    + rewrite <- Z.pow_add_r by lia.
      apply Z.pow_le_mono_r; lia.
    + apply Z.mul_le_mono_nonneg_r; [apply Z.pow_nonneg; lia | exact Hq].
Qed.

Lemma round53_pos_divides (z k : Z) :
  0 <= k -> 2 ^ (52 + k) <= z -> (2 ^ k | round53_pos z).
Proof.
  intros Hk Hz.
  destruct (Z.eq_dec k 0) as [-> | Hk0]; [exists (round53_pos z); lia |].
  assert (Hlarge : 2 ^ 53 <= z).
  { apply Z.le_trans with (2 ^ (52 + k)); [apply Z.pow_le_mono_r; lia | exact Hz]. }
  destruct (round53_pos_large z Hlarge) as [q [E _]]. rewrite E.
  assert (Hlog : 52 + k <= Z.log2 z).
  { apply Z.log2_le_pow2; [| exact Hz].
    assert (0 < 2 ^ 53) by (apply Z.pow_pos_nonneg; lia). lia. }
  exists (q * 2 ^ (Z.log2 z - 52 - k)).
  rewrite <- Z.mul_assoc, <- Z.pow_add_r by lia.
  f_equal. f_equal. lia.
Qed.

(** With a nonce of at least 1 the second product is above 2^60: the
    number the code takes the remainder of is a multiple of 256, whatever
    the nonce and the chain id. *)
Lemma rand_code_multiple_of_256 (nonce chain_id : Z) :
  1 <= nonce -> 0 <= chain_id ->
  (256 | rand_step (js_add (rand_step nonce) chain_id)).
Proof.
  intros Hn Hc. unfold rand_step, js_add, js_mul.
  assert (Ha : 2 ^ 30 <= round53 (nonce * 1103515245)).
  { rewrite round53_nonneg by lia. apply round53_pos_lower; lia. }
  set (a := round53 (nonce * 1103515245)) in *.
  assert (Hb : 2 ^ 30 <= round53 (a + 12345)).
  { rewrite round53_nonneg by lia. apply round53_pos_lower; lia. }
  set (b := round53 (a + 12345)) in *.
  assert (Hc' : 2 ^ 30 <= round53 (b + chain_id)).
  { rewrite round53_nonneg by lia. apply round53_pos_lower; lia. }
  set (c := round53 (b + chain_id)) in *.
  assert (Hd : 2 ^ 60 <= round53 (c * 1103515245)).
  { rewrite round53_nonneg by nia. apply round53_pos_lower; [lia | nia]. }
  set (d := round53 (c * 1103515245)) in *.
  rewrite round53_nonneg by lia.
  change 256 with (2 ^ 8). apply round53_pos_divides; lia.
Qed.

(** Taken modulo 2^32 at every step or only at the end, the generator is
    the same. *)
Lemma rand32_exact (nonce chain_id : Z) :
  rand32 nonce chain_id = rand_exact nonce chain_id mod 2 ^ 32.
Proof.
  unfold rand32, rand_exact, rand32_step.
  pose proof (Z.div_mod nonce (2 ^ 32) ltac:(lia)) as E0.
  set (q0 := nonce / 2 ^ 32) in *. set (n0 := nonce mod 2 ^ 32) in *.
  pose proof (Z.div_mod (n0 * 1103515245 + 12345) (2 ^ 32) ltac:(lia)) as E1.
  set (q1 := (n0 * 1103515245 + 12345) / 2 ^ 32) in *.
  set (r1 := (n0 * 1103515245 + 12345) mod 2 ^ 32) in *.
  pose proof (Z.div_mod (r1 + chain_id) (2 ^ 32) ltac:(lia)) as E2.
  set (q2 := (r1 + chain_id) / 2 ^ 32) in *.
  set (r2 := (r1 + chain_id) mod 2 ^ 32) in *.
  replace ((nonce * 1103515245 + 12345 + chain_id) * 1103515245 + 12345)
    with (r2 * 1103515245 + 12345
          + (q0 * 1103515245 * 1103515245 + q1 * 1103515245 + q2 * 1103515245)
            * 2 ^ 32) by lia.
  rewrite Z_mod_plus_full. reflexivity.
Qed.

(** Modulo 2^32 the generator is odd exactly when nonce and chain id have
    different parities. *)
Lemma rand32_parity (nonce chain_id : Z) :
  rand32 nonce chain_id mod 2 = (nonce + chain_id) mod 2.
Proof.
  rewrite rand32_exact.
  rewrite Z.mod_mod_divide by (exists (2 ^ 31); reflexivity).
  unfold rand_exact.
  replace ((nonce * 1103515245 + 12345 + chain_id) * 1103515245 + 12345)
    with (nonce + chain_id
          + (nonce * 608872947973705012 + chain_id * 551757622
             + 6811447855935) * 2) by lia.
  apply Z_mod_plus_full.
Qed.

(** C4, evaluated.  With nonce 2 and chain id 1 the generator taken modulo
    2^32 is odd, so a branch of length 1 would need mask 1.  The code
    computes in double precision: the second product is above 2^61, its
    low nine bits are lost, and the remainder by 2 is 0.  It refuses the
    block built with mask 1 and accepts the one built with mask 0. *)
Theorem C4_aux_mask_in_double_precision :
  rand32 2 1 = 2598869437
  /\ rand32 2 1 mod 2 = 1
  /\ rand_exact 2 1 = 2435505415894047165
  /\ rand_step (js_add (rand_step 2) 1) = 2435505415894047232
  /\ checkAuxCoinbase sha256d (aux_block 1)
     = Throw (VerificationError
                "AuxPOW blockchain bitmask does not match coinbase script")
  /\ checkAuxCoinbase sha256d (aux_block 0) = Done tt.
Proof.
  repeat apply conj; vm_compute; reflexivity.
Qed.

(** ** Candidate blocks *)

Section PrepareProofs.

Variable H2 : Buffer -> Buffer.
Variable decode : Z -> Z.
Variable encode : Z -> Z.
Variable Beneficiary : Type.
Variable createCoinbaseTx : Beneficiary -> Z -> outcome Transaction.
Variable self : Block.
Variable beneficiary : Beneficiary.

Let after := afterNextWork H2 Beneficiary createCoinbaseTx self beneficiary.

(** Once the steps have run, a further call of Step's [next] changes
    nothing. *)
Lemma afterNextWork_inert (time : jsnum) (r : cbargs Z) (s : PrepState) :
  ps_queued s = false -> after time r s = s.
Proof.
  intro E. unfold after, afterNextWork. rewrite E. reflexivity.
Qed.

Lemma afterNextWork_unqueues (time : jsnum) (r : cbargs Z) (s : PrepState) :
  ps_queued (after time r s) = false.
Proof.
  unfold after, afterNextWork.
  destruct (ps_queued s) eqn:E; cbn [negb]; [| exact E].
  destruct r as [nextWork | err]; [| reflexivity].
  destruct (createCoinbaseTx beneficiary _) as [tx | e |];
    [destruct (calcMerkleRoot H2 (Some [TxObj tx])) | |]; reflexivity.
Qed.

(** The time chosen shows in the timestamp of the draft only. *)
Lemma afterNextWork_bits (t1 t2 : jsnum) (r : cbargs Z) (s : PrepState) :
  map delivered_bits (ps_out (after t1 r s))
  = map delivered_bits (ps_out (after t2 r s)).
Proof.
  unfold after, afterNextWork.
  destruct (ps_queued s); cbn [negb]; [| reflexivity].
  destruct r as [nextWork | err]; [| reflexivity].
  cbn [d_height].
  destruct (createCoinbaseTx beneficiary (height self + 1)) as [tx | e |];
    [destruct (calcMerkleRoot H2 (Some [TxObj tx])) | |];
    cbn [ps_out]; rewrite !map_app; reflexivity.
Qed.

Lemma invoke_inert (time : jsnum) (o : option (cbargs Z)) (s : PrepState) :
  ps_queued s = false -> invoke (after time) o s = s.
Proof.
  intro E. destruct o; [apply afterNextWork_inert, E | reflexivity].
Qed.

(** C10. Whatever the [time] argument and the clock, [prepareNextBlock]
    invokes its callback the same number of times, with the same errors
    and with drafts of equal [bits]: [getNextWork] reads the timestamp of
    the draft before [miscStep] assigns it, or, for a genesis parent, after
    the steps have already run on its first answer. *)
Theorem C10_draft_bits_ignore_time (blockChain : BlockChain)
  (time1 time2 : option Z) (now1 now2 : Z) (fuel : nat) :
  map delivered_bits
    (prepareNextBlock H2 decode encode Beneficiary createCoinbaseTx blockChain
       self beneficiary time1 now1 fuel)
  = map delivered_bits
      (prepareNextBlock H2 decode encode Beneficiary createCoinbaseTx blockChain
         self beneficiary time2 now2 fuel).
Proof.
  unfold prepareNextBlock.
  destruct (getMedianTimePast blockChain self) as [medianTimePast | err];
    [| reflexivity].
  set (t1 := match time1 with
             | Some t => if t =? 0 then defaultTime medianTimePast now1 else Num t
             | None => defaultTime medianTimePast now1
             end).
  set (t2 := match time2 with
             | Some t => if t =? 0 then defaultTime medianTimePast now2 else Num t
             | None => defaultTime medianTimePast now2
             end).
  fold (after t1). fold (after t2).
  rewrite !getNextWork_result. cbv zeta.
  destruct (height self =? 0).
  - rewrite !invoke_inert by apply afterNextWork_unqueues.
    apply afterNextWork_bits.
  - cbn [ps_newBlock newDraft d_timestamp].
    destruct (nextWork_result decode encode blockChain self fuel (Num 0))
      as [r |]; cbn [invoke]; [apply afterNextWork_bits | reflexivity].
Qed.

End PrepareProofs.

(** On the test network the rule reads the timestamp of the next block: a
    child 1201 seconds later may be mined at minimum difficulty.  A draft
    prepared for that very time still carries the bits of its parent, and
    the time itself. *)
Example prepareNextBlock_testnet_draft :
  getNextWork_calls decode_compact encode_compact testnet_chain_5 testnet_block_5
    (Num (timestamp testnet_block_5 + 1201)) 0
  = [CbOk 0x1d00ffff]
  /\ map (fun r => match r with
                   | CbOk p => Some (d_bits (fst p), d_timestamp (fst p))
                   | CbErr _ => None
                   end)
       (prepareNextBlock sha256d decode_compact encode_compact Buffer coinbase_for
          testnet_chain_5 testnet_block_5 genesis_hash
          (Some (timestamp testnet_block_5 + 1201)) 1296690000000 0)
     = [Some (0x1c00ffff, Num (timestamp testnet_block_5 + 1201))].
Proof.
  split; vm_compute; reflexivity.
Qed.

(* ================================================================== *)
(** * Further properties of the Merkle engine *)
(* ================================================================== *)

Section MerkleMore.

Variable H2 : Buffer -> Buffer.

(** The bound on the number of levels is immaterial once it covers the
    leaves. *)
Lemma merkle_levels_depth :
  forall d1 d2 (l : list Buffer),
    (length l <= d1)%nat -> (length l <= d2)%nat ->
    merkle_levels H2 d1 l = merkle_levels H2 d2 l.
Proof.
  induction d1 as [| d1 IH]; intros d2 l L1 L2.
  - destruct l; [| simpl in L1; lia].
    destruct d2; reflexivity.
  - destruct d2 as [| d2].
    + destruct l; [| simpl in L2; lia]. reflexivity.
    + cbn [merkle_levels].
      destruct (length l <=? 1)%nat eqn:E; [reflexivity |].
      apply Nat.leb_gt in E. f_equal. apply IH.
      * rewrite pair_up_length.
        assert ((length l + 1) / 2 < length l)%nat
          by (apply Nat.Div0.div_lt_upper_bound; lia).
        lia.
      * rewrite pair_up_length.
        assert ((length l + 1) / 2 < length l)%nat
          by (apply Nat.Div0.div_lt_upper_bound; lia).
        lia.
Qed.

Lemma last_app_nonempty (l1 l2 : list Buffer) (d : Buffer) :
  l2 <> [] -> last (l1 ++ l2) d = last l2 d.
Proof.
  intro N. induction l1 as [| x l1 IH]; [reflexivity |].
  cbn [app]. destruct (l1 ++ l2) eqn:E.
  - destruct l1; [cbn in E; congruence | discriminate].
  - cbn [last]. exact IH.
Qed.

Lemma pair_up_nonempty (l : list Buffer) : l <> [] -> pair_up H2 l <> [].
Proof.
  destruct l as [| a [| b rest]]; cbn; congruence.
Qed.

Lemma merkle_root_of_single (a : Buffer) : merkle_root_of H2 [a] = a.
Proof. reflexivity. Qed.

(** The root of a level of at least two elements is the root of the next
    level. *)
Lemma merkle_root_of_pair_up (l : list Buffer) :
  (2 <= length l)%nat ->
  merkle_root_of H2 l = merkle_root_of H2 (pair_up H2 l).
Proof.
  intro L.
  assert (Hne : l <> []) by (destruct l; [simpl in L; lia | congruence]).
  pose proof (pair_up_nonempty l Hne) as Hp.
  unfold merkle_root_of, merkle_tree.
  destruct l as [| a l']; [congruence |].
  destruct (pair_up H2 (a :: l')) as [| p ps] eqn:Ep; [congruence |].
  rewrite <- Ep.
  assert (Hlen : (length (pair_up H2 (a :: l')) <= length l')%nat).
  { rewrite pair_up_length.
    assert ((length (a :: l') + 1) / 2 < length (a :: l'))%nat
      by (apply Nat.Div0.div_lt_upper_bound; lia).
    simpl in *. lia. }
  change (length (a :: l')) with (S (length l')).
  cbn [merkle_levels].
  replace (length (a :: l') <=? 1)%nat with false
    by (symmetry; apply Nat.leb_gt; lia).
  cbn [concat].
  rewrite (merkle_levels_depth (length l') (length (pair_up H2 (a :: l'))))
    by lia.
  rewrite Ep. rewrite <- Ep.
  assert (Hne2 : concat (merkle_levels H2 (length (pair_up H2 (a :: l')))
                           (pair_up H2 (a :: l'))) <> []).
  { pose proof (merkle_tree_nonempty H2 (pair_up H2 (a :: l'))) as N.
    unfold merkle_tree in N. rewrite Ep in N. rewrite Ep. exact N. }
  revert Hne2.
  generalize (concat (merkle_levels H2 (length (pair_up H2 (a :: l')))
                        (pair_up H2 (a :: l')))).
  intros t Ht.
  destruct t as [| t0 ts]; [congruence |].
  apply last_app_nonempty. congruence.
Qed.

(** Appending a copy of the last element to a level of odd length does not
    change the next level. *)
Lemma pair_up_duplicate_last (l : list Buffer) (d : Buffer) :
  Nat.odd (length l) = true ->
  pair_up H2 (l ++ [last l d]) = pair_up H2 l.
Proof.
  induction l as [| | a b l IH] using list_pair_ind; intro O.
  - discriminate.
  - reflexivity.
  - change (length (a :: b :: l)) with (S (S (length l))) in O.
    rewrite Nat.odd_succ_succ in O.
    destruct l as [| c l'].
    + discriminate.
    + change (last (a :: b :: c :: l') d) with (last (c :: l') d).
      cbn [app pair_up]. f_equal.
      apply IH. exact O.
Qed.

Lemma Z_odd_of_nat (i : nat) : Z.odd (Z.of_nat i) = Nat.odd i.
Proof.
  destruct (Nat.odd i) eqn:E.
  - apply Nat.odd_spec in E. destruct E as [k ->].
    replace (Z.of_nat (2 * k + 1)) with (1 + 2 * Z.of_nat k) by lia.
    rewrite Z.odd_add_mul_2. reflexivity.
  - rewrite <- Nat.negb_even in E. apply Bool.negb_false_iff in E.
    apply Nat.even_spec in E. destruct E as [k ->].
    replace (Z.of_nat (2 * k)) with (0 + 2 * Z.of_nat k) by lia.
    rewrite Z.odd_add_mul_2. reflexivity.
Qed.

Lemma verify_branch_merkle :
  forall depth (l : list Buffer) i,
    (i < length l)%nat -> (length l <= depth)%nat ->
    verify_branch H2 (nth i l []) (merkle_branch H2 depth l i) (Z.of_nat i)
    = merkle_root_of H2 l.
Proof.
  induction depth as [| depth IH]; intros l i Hi Hd.
  - lia.
  - cbn [merkle_branch].
    destruct (length l <=? 1)%nat eqn:E.
    + apply Nat.leb_le in E.
      destruct l as [| a [| b l']]; simpl in *; try lia.
      assert (i = 0%nat) by lia. subst i. reflexivity.
    + apply Nat.leb_gt in E.
      cbn [verify_branch].
      rewrite (merkle_root_of_pair_up l) by lia.
      assert (Hhalf : (i / 2 < length (pair_up H2 l))%nat).
      { rewrite pair_up_length.
        apply Nat.Div0.div_lt_upper_bound.
        pose proof (Nat.div_mod_eq (length l + 1) 2) as M.
        pose proof (Nat.mod_upper_bound (length l + 1) 2 ltac:(lia)).
        lia. }
      assert (Hdepth : (length (pair_up H2 l) <= depth)%nat).
      { rewrite pair_up_length.
        assert ((length l + 1) / 2 < length l)%nat
          by (apply Nat.Div0.div_lt_upper_bound; lia).
        lia. }
      rewrite <- (IH (pair_up H2 l) (i / 2)%nat Hhalf Hdepth).
      assert (Hshift : Z.shiftr (Z.of_nat i) 1 = Z.of_nat (i / 2)).
      { rewrite Z.shiftr_div_pow2 by lia. change (2 ^ 1) with 2.
        rewrite Nat2Z.inj_div. reflexivity. }
      rewrite Hshift. f_equal.
      pose proof (Nat.div_mod_eq i 2) as M.
      pose proof (Nat.mod_upper_bound i 2 ltac:(lia)) as U.
      assert (Hpair : (2 * (i / 2) < length l)%nat) by lia.
      pose proof (pair_up_nth H2 l (i / 2)%nat Hpair) as P.
      rewrite (nth_error_nth _ _ _ P).
      rewrite Z.bit0_odd.
      rewrite Z_odd_of_nat.
      unfold sibling_index.
      rewrite <- Nat.negb_even.
      destruct (Nat.even i) eqn:Ev; cbn [negb].
      * apply Nat.even_spec in Ev. destruct Ev as [k Hk].
        assert (i / 2 = k)%nat by lia.
        replace (2 * (i / 2))%nat with i by lia.
        reflexivity.
      * assert (Od : Nat.odd i = true) by (rewrite <- Nat.negb_even, Ev; reflexivity).
        apply Nat.odd_spec in Od. destruct Od as [k Hk].
        assert (i / 2 = k)%nat by lia.
        replace (2 * (i / 2))%nat with (i - 1)%nat by lia.
        replace (Nat.min (i - 1 + 1) (length l - 1)) with i by lia.
        reflexivity.
Qed.

Lemma Buffer_compare_refl (a : Buffer) : Buffer_compare a a = 0.
Proof.
  induction a as [| x a IH]; [reflexivity |].
  cbn [Buffer_compare]. rewrite Z.ltb_irrefl. exact IH.
Qed.

Lemma Buffer_compare_eq (a : Buffer) :
  forall b, Buffer_compare a b = 0 -> a = b.
Proof.
  induction a as [| x a IH]; intros [| y b] Hc; cbn [Buffer_compare] in Hc;
    try reflexivity; try discriminate.
  destruct (x <? y) eqn:E1; [discriminate |].
  destruct (y <? x) eqn:E2; [discriminate |].
  apply Z.ltb_ge in E1, E2.
  f_equal; [lia | apply IH; exact Hc].
Qed.

Lemma Buffer_compare_eqb (a b : Buffer) :
  (Buffer_compare a b =? 0) = true <-> a = b.
Proof.
  rewrite Z.eqb_eq. split.
  - apply Buffer_compare_eq.
  - intros ->. apply Buffer_compare_refl.
Qed.

End MerkleMore.

(** X1. A list of transactions of odd length, three or more, and the same
    list with its last transaction repeated have the same Merkle tree root:
    [calcMerkleRoot] does not tell them apart. *)
Theorem calcMerkleRoot_duplicate_last :
  forall (H2 : Buffer -> Buffer) (txs : list TxItem) (d : TxItem),
    (3 <= length txs)%nat ->
    Nat.odd (length txs) = true ->
    calcMerkleRoot H2 (Some (txs ++ [last txs d]))
    = calcMerkleRoot H2 (Some txs).
Proof.
  intros H2 txs d L O.
  rewrite !calcMerkleRoot_spec. do 2 f_equal.
  rewrite map_app. cbn [map].
  assert (Hl : leafHash (last txs d) = last (map leafHash txs) (leafHash d)).
  { clear L O. induction txs as [| x [| y r] IH]; try reflexivity.
    exact IH. }
  rewrite Hl.
  rewrite (merkle_root_of_pair_up H2 (map leafHash txs ++ _))
    by (rewrite length_app, length_map; simpl; lia).
  rewrite (merkle_root_of_pair_up H2 (map leafHash txs))
    by (rewrite length_map; lia).
  rewrite pair_up_duplicate_last by (rewrite length_map; exact O).
  reflexivity.
Qed.

Lemma calcMerkleRoot_duplicate_last_witness :
  (3 <= length [TxHash genesis_hash; TxHash NULL_HASH; TxHash genesis_merkle_root])%nat
  /\ Nat.odd (length [TxHash genesis_hash; TxHash NULL_HASH;
                      TxHash genesis_merkle_root]) = true
  /\ calcMerkleRoot sha256d
       (Some [TxHash genesis_hash; TxHash NULL_HASH; TxHash genesis_merkle_root;
              TxHash genesis_merkle_root])
     = calcMerkleRoot sha256d
         (Some [TxHash genesis_hash; TxHash NULL_HASH; TxHash genesis_merkle_root]).
Proof.
  split; [simpl; lia |]. split; [reflexivity |].
  exact (calcMerkleRoot_duplicate_last sha256d
           [TxHash genesis_hash; TxHash NULL_HASH; TxHash genesis_merkle_root]
           (TxHash NULL_HASH) ltac:(simpl; lia) eq_refl).
Defined.

(** X2. Merkle inclusion: folding the hash of transaction [i] with its
    siblings up the tree, under the mask [i], gives the root that
    [calcMerkleRoot] computes for the whole list. *)
Theorem calcMerkleBranch_proves_inclusion :
  forall (H2 : Buffer -> Buffer) (txs : list TxItem) (i : nat),
    (i < length txs)%nat ->
    Z.of_nat i < 2 ^ 31 ->
    let leaves := map leafHash txs in
    calcMerkleRoot H2 (Some txs)
    = Done (Some (calcMerkleBranch H2 (nth i leaves [])
                    (merkle_branch H2 (length leaves) leaves i) (Z.of_nat i))).
Proof.
  intros H2 txs i Hi Hr leaves.
  rewrite calcMerkleRoot_spec. do 2 f_equal.
  rewrite calcMerkleBranch_fold.
  rewrite ToInt32_id by lia.
  symmetry. apply verify_branch_merkle.
  - unfold leaves. rewrite length_map. exact Hi.
  - apply Nat.le_refl.
Qed.

Lemma calcMerkleBranch_proves_inclusion_witness :
  (2 < length [TxHash genesis_hash; TxHash NULL_HASH; TxHash genesis_merkle_root])%nat
  /\ Z.of_nat 2 < 2 ^ 31
  /\ (let leaves :=
        map leafHash
          [TxHash genesis_hash; TxHash NULL_HASH; TxHash genesis_merkle_root] in
      calcMerkleRoot sha256d
        (Some [TxHash genesis_hash; TxHash NULL_HASH; TxHash genesis_merkle_root])
      = Done (Some (calcMerkleBranch sha256d (nth 2 leaves [])
                      (merkle_branch sha256d (length leaves) leaves 2)
                      (Z.of_nat 2)))).
Proof.
  split; [simpl; lia |]. split; [simpl; lia |].
  exact (calcMerkleBranch_proves_inclusion sha256d
           [TxHash genesis_hash; TxHash NULL_HASH; TxHash genesis_merkle_root]
           2%nat ltac:(simpl; lia) ltac:(simpl; lia)).
Defined.

(** X3. [checkMerkleLink] accepts an AuxPoW block exactly when the fold of
    the parent coinbase hash along [coinbase_branch] equals the parent
    block's Merkle root; it raises the link error otherwise, and never
    anything else on a block that has its aux data. *)
Theorem checkMerkleLink_accepts_iff :
  forall (H2 : Buffer -> Buffer) (b : Block) (a : AuxPow),
    aux b = Some a ->
    (checkMerkleLink H2 b = Done tt
     <-> calcMerkleBranch H2 (tx_hash (coinbase a)) (coinbase_branch a)
           (coinbase_branch_mask a)
         = merkle_root (parent a))
    /\ (checkMerkleLink H2 b = Done tt
        \/ checkMerkleLink H2 b
           = Throw (VerificationError
                      "AuxPOW Merkle Link verification failed; cannot confirm that the given coinbase transaction is in the parent block")).
Proof.
  intros H2 b a Ha. unfold checkMerkleLink. rewrite Ha.
  destruct (Buffer_compare _ _ =? 0) eqn:E; cbn [negb].
  - apply Buffer_compare_eqb in E. split; [| left; reflexivity].
    split; [intros _; exact E | reflexivity].
  - split; [| right; reflexivity].
    split; [discriminate |].
    intro Heq. apply Buffer_compare_eqb in Heq. congruence.
Qed.

Lemma checkMerkleLink_accepts_iff_witness :
  aux (aux_block 0) = Some (aux_of genesis_header (aux_script 0) [aux_sibling] 0)
  /\ checkMerkleLink sha256d (aux_block 0) = Done tt.
Proof.
  split; [reflexivity |].
  apply (proj2 (proj1 (checkMerkleLink_accepts_iff sha256d (aux_block 0)
                         (aux_of genesis_header (aux_script 0) [aux_sibling] 0)
                         eq_refl))).
  vm_compute. reflexivity.
Defined.

(* ================================================================== *)
(** * Header, hash, work and the transaction checks *)
(* ================================================================== *)

Lemma app_inj_length {A} (a a' b b' : list A) :
  length a = length a' -> a ++ b = a' ++ b' -> a = a' /\ b = b'.
Proof.
  revert a'. induction a as [| x a IH]; intros [| y a'] L E;
    try discriminate L.
  - split; [reflexivity | exact E].
  - cbn [app] in E. injection E as -> E. injection L as L.
    destruct (IH a' L E) as [-> ->]. split; reflexivity.
Qed.

Lemma byte_of_low_word (x k : Z) :
  0 <= k <= 24 ->
  ((x mod 2 ^ 32) / 2 ^ k) mod 256 = (x / 2 ^ k) mod 256.
Proof.
  intro K.
  rewrite (Z.div_mod x (2 ^ 32)) at 2 by lia.
  replace (2 ^ 32) with (2 ^ (32 - k) * 2 ^ k) at 2
    by (rewrite <- Z.pow_add_r by lia; f_equal; lia).
  rewrite <- Z.mul_assoc, (Z.mul_comm (2 ^ k)), Z.mul_assoc.
  rewrite Z.div_add_l by lia.
  replace (2 ^ (32 - k)) with (2 ^ (24 - k) * 256)
    by (change 256 with (2 ^ 8); rewrite <- Z.pow_add_r by lia; f_equal; lia).
  rewrite Z.add_comm.
  replace (2 ^ (24 - k) * 256 * (x / 2 ^ 32))
    with (2 ^ (24 - k) * (x / 2 ^ 32) * 256) by ring.
  symmetry. apply Z_mod_plus_full.
Qed.

Lemma word32le_low_word (x : Z) : word32le (x mod 2 ^ 32) = word32le x.
Proof.
  unfold word32le.
  rewrite (byte_of_low_word x 8), (byte_of_low_word x 16),
    (byte_of_low_word x 24) by lia.
  rewrite (Z.mod_mod_divide x (2 ^ 32) 256)
    by (exists (2 ^ 24); reflexivity).
  reflexivity.
Qed.

Lemma word32le_inj (x y : Z) :
  word32le x = word32le y <-> x mod 2 ^ 32 = y mod 2 ^ 32.
Proof.
  split.
  - intro E.
    pose proof (readUInt32LE_word32le [] [] x) as Rx.
    pose proof (readUInt32LE_word32le [] [] y) as Ry.
    rewrite E in Rx. congruence.
  - intro E. rewrite <- (word32le_low_word x), <- (word32le_low_word y), E.
    reflexivity.
Qed.

Lemma word32le_length (x : Z) : length (word32le x) = 4%nat.
Proof. reflexivity. Qed.

(** X4. The 80-byte header: with 32-byte hashes [getHeader] has 80 bytes,
    and two blocks have the same header bytes exactly when they have the
    same previous hash and Merkle root and their version, timestamp, bits
    and nonce agree modulo 2^32. *)
Theorem getHeader_injective_on_words :
  forall h1 h2 : Header,
    length (prev_hash h1) = 32%nat -> length (merkle_root h1) = 32%nat ->
    length (prev_hash h2) = 32%nat -> length (merkle_root h2) = 32%nat ->
    length (getHeader h1) = 80%nat
    /\ (getHeader h1 = getHeader h2
        <-> version h1 mod 2 ^ 32 = version h2 mod 2 ^ 32
            /\ prev_hash h1 = prev_hash h2
            /\ merkle_root h1 = merkle_root h2
            /\ timestamp h1 mod 2 ^ 32 = timestamp h2 mod 2 ^ 32
            /\ bits h1 mod 2 ^ 32 = bits h2 mod 2 ^ 32
            /\ nonce h1 mod 2 ^ 32 = nonce h2 mod 2 ^ 32).
Proof.
  intros h1 h2 P1 M1 P2 M2. unfold getHeader. split.
  - rewrite !length_app, !word32le_length, P1, M1. reflexivity.
  - split.
    + intro E.
      apply app_inj_length in E; [| reflexivity]. destruct E as [Ev E].
      apply app_inj_length in E; [| congruence]. destruct E as [Ep E].
      apply app_inj_length in E; [| congruence]. destruct E as [Em E].
      apply app_inj_length in E; [| reflexivity]. destruct E as [Et E].
      apply app_inj_length in E; [| reflexivity]. destruct E as [Eb En].
      rewrite <- !word32le_inj. repeat apply conj; assumption.
    + intros (Ev & Ep & Em & Et & Eb & En).
      apply word32le_inj in Ev, Et, Eb, En.
      rewrite Ev, Ep, Em, Et, Eb, En. reflexivity.
Qed.

Lemma getHeader_injective_on_words_witness :
  length (getHeader genesis_header) = 80%nat
  /\ (getHeader genesis_header = getHeader unmined_header
      <-> version genesis_header mod 2 ^ 32 = version unmined_header mod 2 ^ 32
          /\ prev_hash genesis_header = prev_hash unmined_header
          /\ merkle_root genesis_header = merkle_root unmined_header
          /\ timestamp genesis_header mod 2 ^ 32
             = timestamp unmined_header mod 2 ^ 32
          /\ bits genesis_header mod 2 ^ 32 = bits unmined_header mod 2 ^ 32
          /\ nonce genesis_header mod 2 ^ 32 = nonce unmined_header mod 2 ^ 32).
Proof.
  exact (getHeader_injective_on_words genesis_header unmined_header
           eq_refl eq_refl eq_refl eq_refl).
Defined.

Lemma calcHash_latchHash (H2 : Buffer -> Buffer) (h : Header) :
  calcHash H2 (latchHash H2 h) = calcHash H2 h.
Proof. reflexivity. Qed.

(** X5. [getHash] fills in a missing hash and nothing else: after it, a
    block that had no hash carries the computed one and passes
    [checkHash]; a block that had a stored hash keeps it, so that a wrong
    stored hash is returned as it is and [checkHash] goes on failing. *)
Theorem getHash_fills_never_repairs :
  forall (H2 : Buffer -> Buffer) (h : Header),
    (hashMissing h = true ->
     hash (latchHash H2 h) = Some (calcHash H2 h)
     /\ (calcHash H2 h <> [] -> checkHash H2 (latchHash H2 h) = true))
    /\ (hashMissing h = false ->
        hash (latchHash H2 h) = hash h
        /\ Some (getHash H2 h) = hash h
        /\ checkHash H2 (latchHash H2 h) = checkHash H2 h).
Proof.
  intros H2 h. split; intro M.
  - split.
    + unfold latchHash. cbn [hash]. rewrite getHash_computed by exact M.
      reflexivity.
    + intro N. unfold checkHash, hashMissing, latchHash. cbn [hash].
      rewrite getHash_computed by exact M.
      destruct (calcHash H2 h) as [| x r] eqn:E; [congruence |].
      cbn [length Nat.eqb]. rewrite <- E.
      change (calcHash H2 _) with (calcHash H2 h).
      apply Z.eqb_eq. apply Buffer_compare_refl.
  - assert (Hs : Some (getHash H2 h) = hash h).
    { unfold getHash. rewrite M. unfold hashMissing in M.
      destruct (hash h); [reflexivity | discriminate]. }
    assert (Hl : hash (latchHash H2 h) = hash h)
      by (unfold latchHash; cbn [hash]; exact Hs).
    repeat apply conj; [exact Hl | exact Hs |].
    unfold checkHash, hashMissing. rewrite Hl. reflexivity.
Qed.

Lemma js_shr_sixteen (v : Z) : js_shr v 16 = ToInt32 v / 2 ^ 16.
Proof.
  unfold js_shr. change (ToUint32 16 mod 32) with 16.
  apply Z.shiftr_div_pow2. lia.
Qed.

(** X6. The chain id read from the version is a signed 16-bit number:
    [getAuxChainID] always lies in [-32768, 32767], and is
    [floor(version / 65536)] for a version in the signed 32-bit range.  A
    network configured with a chain id outside that range therefore
    refuses the proof of work of every AuxPoW block. *)
Theorem getAuxChainID_sixteen_bits :
  forall (H2 : Buffer -> Buffer) (dbuf : Z -> Buffer) (b : Block),
    - 2 ^ 15 <= getAuxChainID b < 2 ^ 15
    /\ (- 2 ^ 31 <= version b < 2 ^ 31 -> getAuxChainID b = version b / 2 ^ 16)
    /\ (isAuxPOW b = true ->
        auxPOWChain (cfg b) < - 2 ^ 15 \/ 2 ^ 15 <= auxPOWChain (cfg b) ->
        isVerificationError (checkProofOfWork H2 dbuf b) = true).
Proof.
  intros H2 dbuf b.
  assert (R : - 2 ^ 15 <= getAuxChainID b < 2 ^ 15).
  { unfold getAuxChainID. rewrite js_shr_sixteen.
    pose proof (ToInt32_range (version b)) as T.
    split.
    - apply Z.div_le_lower_bound; lia.
    - apply Z.div_lt_upper_bound; lia. }
  repeat apply conj.
  - apply R.
  - apply R.
  - intro V. unfold getAuxChainID. rewrite js_shr_sixteen, ToInt32_id by exact V.
    reflexivity.
  - intros A O. unfold checkProofOfWork. rewrite A.
    replace (getAuxChainID b =? auxPOWChain (cfg b)) with false
      by (symmetry; apply Z.eqb_neq; lia).
    reflexivity.
Qed.

(** X7. [getWork] falls as the target rises, and is at least 1 for every
    target below 2^256. *)
Theorem getWork_antitone :
  forall (decode : Z -> Z) (a b : Block),
    0 <= decode (bits a) <= decode (bits b) ->
    getWork decode b <= getWork decode a
    /\ (decode (bits b) < 2 ^ 256 -> 1 <= getWork decode b).
Proof.
  intros decode a b R. unfold getWork, largestHash.
  rewrite !Z.quot_div_nonneg by lia. split.
  - apply Z.div_le_compat_l; lia.
  - intro U. apply Z.div_le_lower_bound; lia.
Qed.

Lemma getWork_antitone_witness :
  0 <= decode_compact (bits testnet_genesis) <= decode_compact (bits genesis)
  /\ getWork decode_compact genesis <= getWork decode_compact testnet_genesis
  /\ 1 <= getWork decode_compact genesis.
Proof.
  assert (R : 0 <= decode_compact (bits testnet_genesis)
              <= decode_compact (bits genesis)) by (vm_compute; split; discriminate).
  split; [exact R |].
  split.
  - exact (proj1 (getWork_antitone decode_compact testnet_genesis genesis R)).
  - apply (proj2 (getWork_antitone decode_compact testnet_genesis genesis R)).
    vm_compute. reflexivity.
Defined.

Lemma checkNoCoinbase_accepts (rest : list TxItem) :
  forall i,
    checkNoCoinbase rest i = Done true
    <-> exists ts,
          rest = map TxObj ts
          /\ forallb (fun t => negb (tx_isCoinBase t)) ts = true.
Proof.
  induction rest as [| x rest IH]; intro i.
  - split; [| reflexivity]. intros _. exists []. split; reflexivity.
  - cbn [checkNoCoinbase]. destruct x as [t | h]; cbn [isCoinBase bind].
    + destruct (tx_isCoinBase t) eqn:C.
      * split; [discriminate |].
        intros (ts & E & F). destruct ts as [| t' ts]; [discriminate |].
        cbn [map] in E. injection E as -> _.
        cbn [forallb] in F. rewrite C in F. discriminate.
      * rewrite IH. split.
        -- intros (ts & -> & F). exists (t :: ts). split; [reflexivity |].
           cbn [forallb]. rewrite C, F. reflexivity.
        -- intros (ts & E & F). destruct ts as [| t' ts]; [discriminate |].
           cbn [map] in E. injection E as -> ->.
           cbn [forallb] in F. apply andb_true_iff in F.
           exists ts. split; [reflexivity | apply F].
    + split; [discriminate |].
      intros (ts & E & _). destruct ts; discriminate.
Qed.

Lemma checkNoCoinbase_true (rest : list TxItem) :
  forall i r, checkNoCoinbase rest i = Done r -> r = true.
Proof.
  induction rest as [| x rest IH]; intros i r E.
  - cbn in E. congruence.
  - cbn [checkNoCoinbase] in E. destruct x as [t | h]; cbn [isCoinBase bind] in E.
    + destruct (tx_isCoinBase t); [discriminate | eapply IH; exact E].
    + discriminate.
Qed.

(** X8. [checkTransactions] accepts a list exactly when it is not empty,
    all its elements are transaction objects, the first is a coinbase and
    none of the others is; it never returns [false], and a missing list
    is refused. *)
Theorem checkTransactions_accepts_iff :
  forall txs : list TxItem,
    (checkTransactions (Some txs) = Done true
     <-> exists t ts,
           txs = TxObj t :: map TxObj ts
           /\ tx_isCoinBase t = true
           /\ forallb (fun t' => negb (tx_isCoinBase t')) ts = true)
    /\ (forall r, checkTransactions (Some txs) = Done r -> r = true)
    /\ checkTransactions None = Throw (VerificationError "No transactions").
Proof.
  intro txs. repeat apply conj; [| | | reflexivity].
  - intro E. destruct txs as [| x rest]; [discriminate |].
    cbn [checkTransactions] in E. destruct x as [t | h]; [| discriminate].
    cbn [isCoinBase bind] in E.
    destruct (tx_isCoinBase t) eqn:C; [| discriminate].
    cbn [negb] in E. apply checkNoCoinbase_accepts in E.
    destruct E as (ts & -> & F). exists t, ts. repeat apply conj; auto.
  - intros (t & ts & -> & C & F).
    cbn [checkTransactions isCoinBase bind]. rewrite C. cbn [negb].
    apply checkNoCoinbase_accepts. exists ts. split; [reflexivity | exact F].
  - intros r E. destruct txs as [| x rest]; [discriminate |].
    cbn [checkTransactions] in E. destruct x as [t | h]; [| discriminate].
    cbn [isCoinBase bind] in E.
    destruct (tx_isCoinBase t); [| discriminate].
    eapply checkNoCoinbase_true. exact E.
Qed.

(** ** No step of [checkBlock] runs out of fuel *)

Lemma settled_bind {A B} (m : outcome A) (k : A -> outcome B) :
  settled m -> (forall a, settled (k a)) -> settled (bind m k).
Proof.
  intros Hm Hk. destruct m; cbn [bind];
    [apply Hk | discriminate | exfalso; apply Hm; reflexivity].
Qed.

Lemma checkProofOfWork_settled (H2 : Buffer -> Buffer) (dbuf : Z -> Buffer)
  (b : Block) : settled (checkProofOfWork H2 dbuf b).
Proof.
  unfold checkProofOfWork. apply settled_bind.
  - destruct (isAuxPOW b); [| discriminate].
    destruct (negb _); [discriminate |].
    destruct (aux b); discriminate.
  - intro h. destruct (0 <? _); discriminate.
Qed.

Lemma checkTimestamp_settled (b : Block) (nowMs : Z) : settled (checkTimestamp b nowMs).
Proof. unfold checkTimestamp. destruct (_ <? _); discriminate. Qed.

Lemma checkMerkleLink_settled (H2 : Buffer -> Buffer) (b : Block) :
  settled (checkMerkleLink H2 b).
Proof.
  unfold checkMerkleLink, noAux. destruct (aux b); [| discriminate].
  destruct (negb _); discriminate.
Qed.

Lemma readUInt32LE_settled (buf : Buffer) (offset : Z) :
  settled (readUInt32LE buf offset).
Proof.
  unfold readUInt32LE. destruct (_ || _); [discriminate |].
  destruct (skipn _ _) as [| ? [| ? [| ? [| ? ?]]]]; discriminate.
Qed.

Lemma checkAuxCoinbase_settled (H2 : Buffer -> Buffer) (b : Block) :
  settled (checkAuxCoinbase H2 b).
Proof.
  unfold checkAuxCoinbase, noAux. destruct (aux b) as [a |]; [| discriminate].
  destruct (tx_ins (coinbase a)) as [| script ?]; [discriminate |].
  apply settled_bind.
  - unfold auxHashIndex.
    destruct (0 <? length (blockchain_branch a))%nat;
      destruct (_ <? 0); discriminate.
  - intro hash_index. apply settled_bind.
    + unfold auxHeaderCheck.
      destruct (0 <=? _); [| destruct (20 <? _); discriminate].
      destruct (0 <=? _); [discriminate |].
      destruct (negb _); discriminate.
    + intros _. unfold auxScriptData.
      apply settled_bind; [apply readUInt32LE_settled |]. intro size.
      apply settled_bind; [apply readUInt32LE_settled |]. intro nonce.
      destruct (negb _); [discriminate |].
      destruct (js_rem _ _); [| discriminate].
      destruct (negb _); discriminate.
Qed.

(** X9. [checkBlock] given a list of transactions never succeeds: whatever
    the block, the time and the list, it ends in an exception, because
    its last step [checkMerkleRoot] does. *)
Theorem checkBlock_with_transactions_never_succeeds :
  forall (H2 : Buffer -> Buffer) (dbuf : Z -> Buffer) (b : Block) (nowMs : Z)
         (txs : list TxItem),
    exists e, checkBlock H2 dbuf b nowMs (Some txs) = Throw e.
Proof.
  intros H2 dbuf b nowMs txs. unfold checkBlock.
  destruct (negb (checkHash H2 b)); [eexists; reflexivity |].
  pose proof (checkProofOfWork_settled H2 dbuf b) as S1.
  destruct (checkProofOfWork H2 dbuf b) as [? | e |];
    [| eexists; reflexivity | contradiction].
  cbn [bind].
  pose proof (checkTimestamp_settled b nowMs) as S2.
  destruct (checkTimestamp b nowMs) as [? | e |];
    [| eexists; reflexivity | contradiction].
  cbn [bind].
  assert (S3 : settled (if isAuxPOW b
                        then checkMerkleLink H2 b ;;; checkAuxCoinbase H2 b
                        else Done tt)).
  { destruct (isAuxPOW b); [| discriminate].
    apply settled_bind; [apply checkMerkleLink_settled |].
    intros _. apply checkAuxCoinbase_settled. }
  destruct (if isAuxPOW b then _ else _) as [? | e |];
    [| eexists; reflexivity | contradiction].
  cbn [bind].
  destruct (checkTransactions (Some txs)) as [? | e |] eqn:T.
  - cbn [bind]. rewrite checkMerkleRoot_outcome.
    destruct (length (merkle_root b) =? 0)%nat; eexists; reflexivity.
  - eexists; reflexivity.
  - exfalso. destruct txs as [| x rest]; [discriminate |].
    cbn [checkTransactions] in T. destruct x as [t | h]; [| discriminate].
    cbn [isCoinBase bind] in T. destruct (negb _); [discriminate |].
    clear -T. revert T. generalize 1%nat.
    induction rest as [| y rest IH]; intros i T; [discriminate |].
    cbn [checkNoCoinbase] in T. destruct y as [t' | h']; [| discriminate].
    cbn [isCoinBase bind] in T. destruct (tx_isCoinBase t'); [discriminate |].
    eapply IH. exact T.
Qed.

(* ================================================================== *)
(** * The AuxPoW coinbase script *)
(* ================================================================== *)

Lemma prefix_at_app (needle : Buffer) :
  forall hay, prefix_at needle hay = true -> exists post, hay = needle ++ post.
Proof.
  induction needle as [| x needle IH]; intros hay P.
  - exists hay. reflexivity.
  - destruct hay as [| y hay]; [discriminate |].
    cbn [prefix_at] in P. apply andb_true_iff in P. destruct P as [E P].
    apply Z.eqb_eq in E. subst y.
    destruct (IH hay P) as [post ->]. exists post. reflexivity.
Qed.

Lemma indexOf_from_eq (hay needle : Buffer) (pos : Z) :
  indexOf_from hay needle pos
  = if prefix_at needle hay then pos
    else match hay with
         | [] => -1
         | _ :: hay' => indexOf_from hay' needle (pos + 1)
         end.
Proof. destruct hay; reflexivity. Qed.

Lemma indexOf_from_found (needle : Buffer) :
  forall hay pos,
    0 <= pos -> 0 <= indexOf_from hay needle pos ->
    exists pre post,
      hay = pre ++ needle ++ post
      /\ indexOf_from hay needle pos = pos + Z.of_nat (length pre).
Proof.
  induction hay as [| y hay IH]; intros pos Hpos Hr;
    rewrite indexOf_from_eq in Hr |- *.
  - destruct (prefix_at needle []) eqn:P; [| lia].
    apply prefix_at_app in P. destruct P as [post ->].
    exists [], post. split; [reflexivity | simpl; lia].
  - destruct (prefix_at needle (y :: hay)) eqn:P.
    + apply prefix_at_app in P. destruct P as [post ->].
      exists [], post. split; [reflexivity | simpl; lia].
    + destruct (IH (pos + 1) ltac:(lia) Hr) as (pre & post & -> & E).
      exists (y :: pre), post. split; [reflexivity |].
      rewrite E. cbn [length]. lia.
Qed.

Lemma indexOf_found (hay needle : Buffer) :
  0 <= indexOf hay needle 0 ->
  exists pre post,
    hay = pre ++ needle ++ post
    /\ indexOf hay needle 0 = Z.of_nat (length pre).
Proof.
  unfold indexOf. change (skipn (Z.to_nat 0) hay) with hay.
  change (Z.max 0 0) with 0. intro H.
  destruct (indexOf_from_found needle hay 0 ltac:(lia) H) as (pre & post & E & R).
  exists pre, post. split; [exact E | lia].
Qed.

Lemma auxHashIndex_expected (H2 : Buffer -> Buffer) (b : Block) (a : AuxPow)
  (script : Buffer) (hash_index : Z) :
  auxHashIndex H2 b a script = Done hash_index ->
  0 <= hash_index /\ hash_index = indexOf script (auxExpectedHash H2 b a) 0.
Proof.
  unfold auxHashIndex, auxExpectedHash.
  destruct (0 <? length (blockchain_branch a))%nat.
  - destruct (_ <? 0) eqn:E; [discriminate |].
    intro D. injection D as <-. apply Z.ltb_ge in E. split; [exact E | reflexivity].
  - destruct (_ <? 0) eqn:E; [discriminate |].
    intro D. injection D as <-. apply Z.ltb_ge in E. split; [exact E | reflexivity].
Qed.

Lemma readUInt32LE_inside (buf : Buffer) (offset v : Z) :
  readUInt32LE buf offset = Done v ->
  0 <= offset /\ offset + 4 <= Z.of_nat (length buf).
Proof.
  unfold readUInt32LE.
  destruct (_ || _) eqn:E; [discriminate |].
  apply orb_false_iff in E. destruct E as [E1 E2].
  apply Z.ltb_ge in E1, E2. intros _. lia.
Qed.

Lemma js_shl_one (n : Z) : 0 <= n <= 30 -> js_shl 1 n = 2 ^ n.
Proof.
  intro R. unfold js_shl. change (ToInt32 1) with 1.
  unfold ToUint32. rewrite (Z.mod_small n (2 ^ 32)) by lia.
  rewrite (Z.mod_small n 32) by lia.
  rewrite Z.shiftl_1_l. apply ToInt32_id.
  assert (0 < 2 ^ n) by (apply Z.pow_pos_nonneg; lia).
  assert (2 ^ n <= 2 ^ 30) by (apply Z.pow_le_mono_r; lia).
  lia.
Qed.

(** X10. The outcome of the double-precision generator for small chain
    Merkle branches: when the script carries a nonce of 1 or more, the
    configured chain id is not negative and the branch has at most eight
    siblings, [checkAuxCoinbase] passes its last check only for a
    [blockchain_branch_mask] of 0. *)
Theorem auxScriptData_accepts_only_mask_zero :
  forall (b : Block) (a : AuxPow) (script : Buffer) (hash_index nonce : Z),
    auxScriptData b a script hash_index = Done tt ->
    readUInt32LE script (hash_index + 32 + 4) = Done nonce ->
    1 <= nonce ->
    0 <= auxPOWChain (cfg b) ->
    (length (blockchain_branch a) <= 8)%nat ->
    blockchain_branch_mask a = 0.
Proof.
  intros b a script hash_index nonce D N N1 C L.
  unfold auxScriptData in D. rewrite N in D.
  destruct (readUInt32LE script (hash_index + 32)) as [size | |];
    [| discriminate | discriminate].
  cbn [bind] in D.
  rewrite js_shl_one in D by lia.
  destruct (negb (size =? _)) eqn:S; [discriminate |].
  apply negb_false_iff, Z.eqb_eq in S.
  set (n := Z.of_nat (length (blockchain_branch a))) in *.
  assert (Hpos : 0 < 2 ^ n) by (apply Z.pow_pos_nonneg; lia).
  unfold js_rem in D.
  replace (size =? 0) with false in D by (symmetry; apply Z.eqb_neq; lia).
  destruct (negb (blockchain_branch_mask a =? _)) eqn:M; [discriminate |].
  apply negb_false_iff, Z.eqb_eq in M. rewrite M.
  apply Z.rem_divide; [lia |].
  apply Z.divide_trans with (m := 256).
  - subst size. exists (2 ^ (8 - n)).
    rewrite <- Z.pow_add_r by lia. replace (8 - n + n) with 8 by lia. reflexivity.
  - apply rand_code_multiple_of_256; assumption.
Qed.

Lemma auxScriptData_accepts_only_mask_zero_witness :
  auxScriptData (aux_block 0)
    (aux_of genesis_header (aux_script 0) [aux_sibling] 0) (aux_script 0) 4
  = Done tt
  /\ readUInt32LE (aux_script 0) (4 + 32 + 4) = Done 2
  /\ blockchain_branch_mask
       (aux_of genesis_header (aux_script 0) [aux_sibling] 0) = 0.
Proof.
  assert (D : auxScriptData (aux_block 0)
                (aux_of genesis_header (aux_script 0) [aux_sibling] 0)
                (aux_script 0) 4 = Done tt) by (vm_compute; reflexivity).
  assert (N : readUInt32LE (aux_script 0) (4 + 32 + 4) = Done 2)
    by (vm_compute; reflexivity).
  split; [exact D |]. split; [exact N |].
  exact (auxScriptData_accepts_only_mask_zero (aux_block 0)
           (aux_of genesis_header (aux_script 0) [aux_sibling] 0)
           (aux_script 0) 4 2 D N ltac:(lia) ltac:(simpl; lia)
           ltac:(simpl; lia)).
Defined.

(** X11. What an accepted parent coinbase script looks like: when
    [checkAuxCoinbase] succeeds, the first input script of the parent
    coinbase contains the expected hash (the reversed chain Merkle root,
    or the reversed block hash for an empty branch), its first occurrence
    starting at least 40 bytes before the end of the script; and either
    the script has no merged-mining tag and that occurrence starts within
    the first 21 bytes, or it comes right after the first tag of the
    script and no other tag starts after the first byte of that tag. *)
Theorem checkAuxCoinbase_accepted_script :
  forall (H2 : Buffer -> Buffer) (b : Block),
    checkAuxCoinbase H2 b = Done tt ->
    exists a script others pre post,
      aux b = Some a
      /\ tx_ins (coinbase a) = script :: others
      /\ script = pre ++ auxExpectedHash H2 b a ++ post
      /\ indexOf script (auxExpectedHash H2 b a) 0 = Z.of_nat (length pre)
      /\ (length pre + 40 <= length script)%nat
      /\ ((indexOf script mergedMiningHeader 0 < 0 /\ (length pre <= 20)%nat)
          \/ (exists pre',
                pre = pre' ++ mergedMiningHeader
                /\ indexOf script mergedMiningHeader 0 = Z.of_nat (length pre')
                /\ indexOf script mergedMiningHeader (Z.of_nat (length pre') + 1)
                   < 0)).
Proof.
  intros H2 b D. unfold checkAuxCoinbase, noAux in D.
  destruct (aux b) as [a |] eqn:A; [| discriminate].
  destruct (tx_ins (coinbase a)) as [| script others] eqn:I; [discriminate |].
  destruct (auxHashIndex H2 b a script) as [hash_index | |] eqn:HI;
    [| discriminate | discriminate].
  cbn [bind] in D.
  apply auxHashIndex_expected in HI. destruct HI as [Hnn Hidx].
  rewrite Hidx in Hnn.
  destruct (indexOf_found script (auxExpectedHash H2 b a) Hnn)
    as (pre & post & Escript & Epre).
  rewrite Epre in Hidx.
  destruct (auxHeaderCheck script _ hash_index) as [[] | |] eqn:HC;
    [| discriminate | discriminate].
  cbn [bind] in D.
  exists a, script, others, pre, post.
  repeat apply conj; try reflexivity; try exact I; try exact Escript;
    try exact Epre.
  - unfold auxScriptData in D.
    destruct (readUInt32LE script (hash_index + 32)) as [size | |];
      [| discriminate | discriminate].
    cbn [bind] in D.
    destruct (readUInt32LE script (hash_index + 32 + 4)) as [nonce | |] eqn:R;
      [| discriminate | discriminate].
    apply readUInt32LE_inside in R. lia.
  - unfold auxHeaderCheck in HC.
    destruct (0 <=? indexOf script mergedMiningHeader 0) eqn:T.
    + right. apply Z.leb_le in T.
      destruct (indexOf_found script mergedMiningHeader T)
        as (pre' & post' & Etag & Ehead).
      rewrite Ehead in HC.
      destruct (0 <=? indexOf script mergedMiningHeader _) eqn:T2;
        [discriminate |].
      apply Z.leb_gt in T2.
      destruct (negb _) eqn:F; [discriminate |].
      apply negb_false_iff, Z.eqb_eq in F.
      exists pre'. repeat apply conj; [| exact Ehead | exact T2].
      assert (Hlen : length (pre' ++ mergedMiningHeader) = length pre).
      { rewrite length_app. lia. }
      rewrite Escript in Etag at 1.
      rewrite (app_assoc pre') in Etag.
      symmetry in Etag.
      destruct (app_inj_length _ _ _ _ Hlen Etag) as [E _].
      symmetry. exact E.
    + left. apply Z.leb_gt in T.
      destruct (20 <? hash_index) eqn:F; [discriminate |].
      apply Z.ltb_ge in F. split; [exact T | lia].
Qed.

Lemma checkAuxCoinbase_accepted_script_witness :
  checkAuxCoinbase sha256d (aux_block 0) = Done tt
  /\ exists a script others pre post,
       aux (aux_block 0) = Some a
       /\ tx_ins (coinbase a) = script :: others
       /\ script = pre ++ auxExpectedHash sha256d (aux_block 0) a ++ post
       /\ indexOf script (auxExpectedHash sha256d (aux_block 0) a) 0
          = Z.of_nat (length pre)
       /\ (length pre + 40 <= length script)%nat
       /\ ((indexOf script mergedMiningHeader 0 < 0 /\ (length pre <= 20)%nat)
           \/ (exists pre',
                 pre = pre' ++ mergedMiningHeader
                 /\ indexOf script mergedMiningHeader 0
                    = Z.of_nat (length pre')
                 /\ indexOf script mergedMiningHeader
                      (Z.of_nat (length pre') + 1) < 0)).
Proof.
  assert (D : checkAuxCoinbase sha256d (aux_block 0) = Done tt)
    by (vm_compute; reflexivity).
  split; [exact D |].
  exact (checkAuxCoinbase_accepted_script sha256d (aux_block 0) D).
Defined.

(* ================================================================== *)
(** * The next work: single answer, bounds of a retarget, the walk *)
(* ================================================================== *)

Lemma rem_nonzero_off_boundary (a b : Z) :
  0 <= a -> 0 < b -> a mod b <> 0 -> rem_nonzero a b = true.
Proof.
  intros Ha Hb Hm. unfold rem_nonzero, js_rem.
  replace (b =? 0) with false by (symmetry; apply Z.eqb_neq; lia).
  rewrite Z.rem_mod_nonneg by lia.
  apply negb_true_iff, Z.eqb_neq. exact Hm.
Qed.

(** X12. Off the test network, for a block other than the genesis block
    and a target spacing that divides the target timespan (so that the
    interval is a whole number), [getNextWork] invokes its callback
    exactly once, whatever the next block's timestamp; between retarget
    boundaries the answer is the block's own [bits]. *)
Theorem getNextWork_main_network_single_answer :
  forall (decode encode : Z -> Z) (blockChain : BlockChain) (self : Block)
         (nextTs : jsnum) (fuel : nat),
    isTestnet blockChain = false ->
    0 < height self ->
    getTargetSpacing blockChain <> 0 ->
    (getTargetSpacing blockChain | getTargetTimespan blockChain) ->
    let interval := getTargetTimespan blockChain / getTargetSpacing blockChain in
    (exists r,
        forall nextTs' fuel',
          getNextWork_calls decode encode blockChain self nextTs' fuel' = [r])
    /\ (0 < interval -> (height self + 1) mod interval <> 0 ->
        getNextWork_calls decode encode blockChain self nextTs fuel
        = [CbOk (bits self)]).
Proof.
  intros decode encode blockChain self nextTs fuel T H _ _ interval.
  assert (Hz : (height self =? 0) = false) by (apply Z.eqb_neq; lia).
  split.
  - assert (E : exists r, forall nextTs' fuel',
                 nextWork_result decode encode blockChain self fuel' nextTs'
                 = Some r).
    { unfold nextWork_result. cbv zeta. rewrite T.
      destruct (rem_nonzero _ _); [eexists; reflexivity |].
      destruct (getBlockByHeight blockChain _); eexists; reflexivity. }
    destruct E as [r E]. exists r. intros nextTs' fuel'.
    rewrite getNextWork_calls_result, Hz, E. reflexivity.
  - intros Hi Hm.
    rewrite getNextWork_calls_result, Hz.
    unfold nextWork_result. cbv zeta. rewrite T.
    fold interval. rewrite rem_nonzero_off_boundary by lia. reflexivity.
Qed.

Lemma getNextWork_main_network_single_answer_witness :
  isTestnet chain_30240 = false
  /\ 0 < height block_30240
  /\ getTargetSpacing chain_30240 <> 0
  /\ (getTargetSpacing chain_30240 | getTargetTimespan chain_30240)
  /\ getNextWork_calls decode_compact encode_compact chain_30240 block_30240
       (Num 0) 0
     = [CbOk (bits block_30240)].
Proof.
  assert (Hs : getTargetSpacing chain_30240 <> 0) by discriminate.
  assert (Hd : (getTargetSpacing chain_30240 | getTargetTimespan chain_30240))
    by (exists 2016; reflexivity).
  split; [reflexivity |]. split; [reflexivity |].
  split; [exact Hs |]. split; [exact Hd |].
  apply (proj2 (getNextWork_main_network_single_answer decode_compact
                  encode_compact chain_30240 block_30240 (Num 0) 0%nat
                  eq_refl eq_refl Hs Hd)).
  - reflexivity.
  - discriminate.
Defined.








(* ================================================================== *)
(** * The median time past *)
(* ================================================================== *)

Lemma block_timestamps_missing (blocks : list (option Block)) :
  In None blocks ->
  block_timestamps blocks
  = CbErr (PlainError "Prior block missing, cannot calculate median time").
Proof.
  induction blocks as [| [b |] rest IH]; intro H.
  - destruct H.
  - cbn [block_timestamps]. destruct H as [H | H]; [discriminate |].
    rewrite (IH H). reflexivity.
  - reflexivity.
Qed.




(** X16. A block missing from the answer of the store makes
    [getMedianTimePast] report the error "Prior block missing, cannot
    calculate median time", whatever the other blocks are. *)
Theorem getMedianTimePast_missing_block :
  forall (blockChain : BlockChain) (self : Block) (blocks : list (option Block)),
    getBlocksByHeights blockChain (getBlocks_heights medianTimeSpan 0 (height self))
    = CbOk blocks ->
    In None blocks ->
    getMedianTimePast blockChain self
    = CbErr (PlainError "Prior block missing, cannot calculate median time").
Proof.
  intros blockChain self blocks Hget Hin.
  unfold getMedianTimePast. rewrite Hget.
  rewrite (block_timestamps_missing blocks Hin). reflexivity.
Qed.

Lemma getMedianTimePast_missing_block_witness :
  getMedianTimePast s4_chain (plain_block mainnet 2 0 0)
  = CbErr (PlainError "Prior block missing, cannot calculate median time").
Proof.
  apply (getMedianTimePast_missing_block s4_chain (plain_block mainnet 2 0 0)
           [None; None; Some genesis]).
  - reflexivity.
  - left. reflexivity.
Defined.

(** X17. With every requested block found, and at least one requested,
    [getMedianTimePast] succeeds with a defined value, and the value is
    the timestamp of one of the blocks found. *)
Theorem getMedianTimePast_is_a_fetched_timestamp :
  forall (blockChain : BlockChain) (self : Block) (bs : list Block),
    getBlocksByHeights blockChain (getBlocks_heights medianTimeSpan 0 (height self))
    = CbOk (map Some bs) ->
    bs <> [] ->
    exists b,
      In b bs /\ getMedianTimePast blockChain self = CbOk (Some (timestamp b)).
Proof.
  intros blockChain self bs Hget Hne.
  rewrite (getMedianTimePast_found blockChain self bs Hget).
  set (ts := map (fun b : Block => timestamp b) bs).
  pose proof (js_sort_perm ts) as P.
  assert (Hlen : length (js_sort ts) = length bs).
  { rewrite <- (Permutation_length P). unfold ts. apply length_map. }
  assert (Hpos : (0 < length bs)%nat)
    by (destruct bs; [congruence | simpl; lia]).
  destruct (nth_error (js_sort ts) (length (js_sort ts) / 2)) as [m |] eqn:E.
  - apply nth_error_In in E.
    apply (Permutation_in _ (Permutation_sym P)) in E.
    unfold ts in E. apply in_map_iff in E. destruct E as (b & <- & Hb).
    exists b. split; [exact Hb | reflexivity].
  - apply nth_error_None in E.
    assert (length (js_sort ts) / 2 < length (js_sort ts))%nat
      by (apply Nat.Div0.div_lt_upper_bound; lia).
    lia.
Qed.

Lemma getMedianTimePast_is_a_fetched_timestamp_witness :
  exists b,
    In b [genesis]
    /\ getMedianTimePast s4_chain genesis = CbOk (Some (timestamp b)).
Proof.
  apply (getMedianTimePast_is_a_fetched_timestamp s4_chain genesis [genesis]).
  - reflexivity.
  - discriminate.
Defined.

(* ================================================================== *)
(** * Child verification and candidate blocks *)
(* ================================================================== *)

Section VerifyProofs.

Variable decode : Z -> Z.
Variable encode : Z -> Z.
Variable blockChain : BlockChain.
Variable self : Block.

Lemma afterExpectedDifficulty_queued (child : Block) (r : cbargs Z)
  (s : VerifyState) :
  vs_queued s = true ->
  afterExpectedDifficulty blockChain self child r s
  = {| vs_queued := false;
       vs_out := vs_out s ++ [verify_outcome blockChain self child r] |}.
Proof.
  intro Q. unfold afterExpectedDifficulty, verify_outcome. rewrite Q.
  cbn [negb].
  destruct r as [nextWork | err]; [| reflexivity].
  destruct (negb (bits child =? nextWork)); [reflexivity |].
  destruct (getMedianTimePast blockChain self) as [[m |] | err];
    [destruct (timestamp child <=? m) | |]; reflexivity.
Qed.

(** For a parent other than the genesis block, [verifyChild] turns the
    single answer of [getNextWork] into its own. *)
Lemma verifyChild_calls (child : Block) (fuel : nat) :
  height self <> 0 ->
  verifyChild decode encode blockChain self child fuel
  = map (verify_outcome blockChain self child)
      (getNextWork_calls decode encode blockChain self
         (Num (timestamp child)) fuel).
Proof.
  intro H. apply Z.eqb_neq in H.
  unfold verifyChild. rewrite getNextWork_result, getNextWork_calls_result.
  cbv zeta. rewrite H. cbn [app].
  destruct (nextWork_result decode encode blockChain self fuel
              (Num (timestamp child))) as [r |]; cbn [invoke opt_list map].
  - rewrite afterExpectedDifficulty_queued by reflexivity. reflexivity.
  - reflexivity.
Qed.

Lemma getNextWork_calls_short (nextTs : jsnum) (fuel : nat) :
  height self <> 0 ->
  (length (getNextWork_calls decode encode blockChain self nextTs fuel) <= 1)%nat.
Proof.
  intro H. apply Z.eqb_neq in H.
  rewrite getNextWork_calls_result, H. cbn [app].
  destruct (nextWork_result _ _ _ _ _ _); cbn; lia.
Qed.

End VerifyProofs.

(** X18. When [verifyChild] accepts: for a parent other than the genesis
    block it invokes its callback at most once, and it reports success
    exactly when [getNextWork], asked with the child as next block,
    answers the child's [bits] and the median time past is found and
    lies strictly before the child's timestamp (or is undefined). *)
Theorem verifyChild_accepts_iff :
  forall (decode encode : Z -> Z) (blockChain : BlockChain)
         (self child : Block) (fuel : nat),
    height self <> 0 ->
    (length (verifyChild decode encode blockChain self child fuel) <= 1)%nat
    /\ (verifyChild decode encode blockChain self child fuel = [CbOk tt]
        <-> getNextWork_calls decode encode blockChain self
              (Num (timestamp child)) fuel
            = [CbOk (bits child)]
            /\ exists m,
                 getMedianTimePast blockChain self = CbOk m
                 /\ forall t, m = Some t -> t < timestamp child).
Proof.
  intros decode encode blockChain self child fuel H.
  rewrite verifyChild_calls by exact H.
  pose proof (getNextWork_calls_short decode encode blockChain self
                (Num (timestamp child)) fuel H) as L.
  split; [rewrite length_map; exact L |].
  destruct (getNextWork_calls decode encode blockChain self
              (Num (timestamp child)) fuel) as [| r [| r' rest]];
    [| | simpl in L; lia].
  - split; [discriminate | intros [E _]; discriminate].
  - cbn [map]. unfold verify_outcome.
    destruct r as [w | e].
    + destruct (bits child =? w) eqn:B; cbn [negb].
      * apply Z.eqb_eq in B. subst w.
        destruct (getMedianTimePast blockChain self) as [[m |] | e].
        -- destruct (timestamp child <=? m) eqn:T.
           ++ apply Z.leb_le in T. split; [discriminate |].
              intros [_ (m' & E & F)]. injection E as <-.
              specialize (F m eq_refl). lia.
           ++ apply Z.leb_gt in T. split; [| reflexivity].
              intros _. split; [reflexivity |].
              exists (Some m). split; [reflexivity |].
              intros t E. injection E as <-. exact T.
        -- split; [| reflexivity].
           intros _. split; [reflexivity |].
           exists None. split; [reflexivity | discriminate].
        -- split; [discriminate |].
           intros [_ (m' & E & _)]. discriminate.
      * apply Z.eqb_neq in B. split; [discriminate |].
        intros [E _]. congruence.
    + split; [discriminate | intros [E _]; discriminate].
Qed.

Lemma verifyChild_accepts_iff_witness :
  (length (verifyChild decode_compact encode_compact s5_chain s5_block
             (plain_block mainnet 11 5 0x1d00ffff) 0) <= 1)%nat
  /\ (verifyChild decode_compact encode_compact s5_chain s5_block
        (plain_block mainnet 11 5 0x1d00ffff) 0 = [CbOk tt]
      <-> getNextWork_calls decode_compact encode_compact s5_chain s5_block
            (Num (timestamp (plain_block mainnet 11 5 0x1d00ffff))) 0
          = [CbOk (bits (plain_block mainnet 11 5 0x1d00ffff))]
          /\ exists m,
               getMedianTimePast s5_chain s5_block = CbOk m
               /\ forall t, m = Some t
                            -> t < timestamp (plain_block mainnet 11 5 0x1d00ffff)).
Proof.
  apply (verifyChild_accepts_iff decode_compact encode_compact s5_chain s5_block
           (plain_block mainnet 11 5 0x1d00ffff) 0%nat).
  discriminate.
Defined.

(** X19. Why [verifyChild] refuses: for a parent other than the genesis
    block, an error of [getNextWork] or of the median lookup is handed
    on as it is; an answer other than the child's [bits] gives "Incorrect
    proof of work" with both numbers; a child whose timestamp is not
    after the median time past gives "Block's timestamp is too early". *)
Theorem verifyChild_refusals :
  forall (decode encode : Z -> Z) (blockChain : BlockChain)
         (self child : Block) (fuel : nat),
    height self <> 0 ->
    let calls :=
      getNextWork_calls decode encode blockChain self (Num (timestamp child))
        fuel in
    let result := verifyChild decode encode blockChain self child fuel in
    (forall e, calls = [CbErr e] -> result = [CbErr e])
    /\ (forall w, calls = [CbOk w] -> w <> bits child ->
        result
        = [CbErr (VerificationError
                    (js_concat ["Incorrect proof of work '";
                                js_toString (bits child);
                                "', should be '"; js_toString w; "'."]%string))])
    /\ (forall e, calls = [CbOk (bits child)] ->
        getMedianTimePast blockChain self = CbErr e -> result = [CbErr e])
    /\ (forall t, calls = [CbOk (bits child)] ->
        getMedianTimePast blockChain self = CbOk (Some t) ->
        timestamp child <= t ->
        result = [CbErr (VerificationError "Block's timestamp is too early")]).
Proof.
  intros decode encode blockChain self child fuel H calls result.
  unfold result. rewrite verifyChild_calls by exact H. fold calls.
  repeat apply conj.
  - intros e ->. reflexivity.
  - intros w -> N. cbn [map verify_outcome].
    replace (bits child =? w) with false
      by (symmetry; apply Z.eqb_neq; congruence).
    reflexivity.
  - intros e -> M. cbn [map verify_outcome].
    rewrite Z.eqb_refl, M. reflexivity.
  - intros t -> M T. cbn [map verify_outcome].
    rewrite Z.eqb_refl, M. cbn [negb].
    replace (timestamp child <=? t) with true
      by (symmetry; apply Z.leb_le; exact T).
    reflexivity.
Qed.

Lemma verifyChild_refusals_witness :
  verifyChild decode_compact encode_compact s5_chain s5_block
    (plain_block mainnet 11 4 0x1d00ffff) 0
  = [CbErr (VerificationError "Block's timestamp is too early")].
Proof.
  apply (proj2 (proj2 (proj2
           (verifyChild_refusals decode_compact encode_compact s5_chain s5_block
              (plain_block mainnet 11 4 0x1d00ffff) 0%nat ltac:(discriminate))))
           4).
  - vm_compute. reflexivity.
  - vm_compute. reflexivity.
  - discriminate.
Defined.

Section PrepareMore.

Variable H2 : Buffer -> Buffer.
Variable decode : Z -> Z.
Variable encode : Z -> Z.
Variable Beneficiary : Type.
Variable createCoinbaseTx : Beneficiary -> Z -> outcome Transaction.
Variable blockChain : BlockChain.
Variable self : Block.
Variable beneficiary : Beneficiary.

Lemma afterNextWork_queued (time : jsnum) (r : cbargs Z) (s : PrepState) :
  ps_queued s = true ->
  ps_out (afterNextWork H2 Beneficiary createCoinbaseTx self beneficiary time r s)
  = ps_out s ++ prepare_outcome H2 createCoinbaseTx self beneficiary time r
  /\ ps_queued
       (afterNextWork H2 Beneficiary createCoinbaseTx self beneficiary time r s)
     = false.
Proof.
  intro Q. unfold afterNextWork, prepare_outcome. rewrite Q. cbn [negb].
  destruct r as [nextWork | err]; [| split; reflexivity].
  cbn [d_height].
  destruct (createCoinbaseTx beneficiary (height self + 1)) as [tx | e |];
    [| split; reflexivity | split; reflexivity].
  rewrite calcMerkleRoot_spec. cbn [map leafHash].
  rewrite merkle_root_of_single. split; reflexivity.
Qed.

Lemma afterNextWork_dropped (time : jsnum) (r : cbargs Z) (s : PrepState) :
  ps_queued s = false ->
  afterNextWork H2 Beneficiary createCoinbaseTx self beneficiary time r s = s.
Proof.
  intro Q. unfold afterNextWork. rewrite Q. reflexivity.
Qed.

(** [prepareNextBlock] in direct style: the answer of [getNextWork] that
    is acted on is its first one. *)
Lemma prepareNextBlock_outcome (time : option Z) (nowMs : Z) (fuel : nat) :
  prepareNextBlock H2 decode encode Beneficiary createCoinbaseTx blockChain
    self beneficiary time nowMs fuel
  = match getMedianTimePast blockChain self with
    | CbErr err => [CbErr err]
    | CbOk medianTimePast =>
        match
          (if height self =? 0 then Some (CbOk (bits self))
           else nextWork_result decode encode blockChain self fuel (Num 0))
        with
        | Some r =>
            prepare_outcome H2 createCoinbaseTx self beneficiary
              (chosenTime time medianTimePast nowMs) r
        | None => []
        end
    end.
Proof.
  unfold prepareNextBlock.
  destruct (getMedianTimePast blockChain self) as [medianTimePast | err];
    [| reflexivity].
  fold (chosenTime time medianTimePast nowMs). fold prepStart.
  rewrite getNextWork_result. cbv zeta.
  destruct (height self =? 0).
  - destruct (afterNextWork_queued (chosenTime time medianTimePast nowMs)
                (CbOk (bits self)) prepStart eq_refl) as [Eo Eq].
    destruct (nextWork_result _ _ _ _ _ _) as [r |]; cbn [invoke].
    + rewrite afterNextWork_dropped by exact Eq. exact Eo.
    + exact Eo.
  - cbn [prepStart ps_newBlock newDraft d_timestamp].
    destruct (nextWork_result decode encode blockChain self fuel (Num 0))
      as [r |]; cbn [invoke]; [| reflexivity].
    apply (afterNextWork_queued _ r
             {| ps_newBlock := newDraft; ps_queued := true; ps_out := [] |}
             eq_refl).
Qed.

Lemma prepare_outcome_draft (time : jsnum) (r : cbargs Z) (draft : Draft)
  (txs : list Transaction) :
  In (CbOk (draft, txs))
    (prepare_outcome H2 createCoinbaseTx self beneficiary time r) ->
  exists nextWork tx,
    r = CbOk nextWork
    /\ createCoinbaseTx beneficiary (height self + 1) = Done tx
    /\ txs = [tx]
    /\ draft = {| d_bits := nextWork; d_version := 1; d_timestamp := time;
                  d_prev_hash := getHash H2 self; d_height := height self + 1;
                  d_merkle_root := Some (tx_hash tx) |}.
Proof.
  unfold prepare_outcome. destruct r as [nextWork | err].
  - destruct (createCoinbaseTx beneficiary (height self + 1)) as [tx | e |].
    + intros [E | []]. injection E as <- <-.
      exists nextWork, tx. repeat apply conj; reflexivity.
    + intros [E | []]. discriminate.
    + intros [].
  - intros [E | []]. discriminate.
Qed.

Lemma prepare_outcome_short (time : jsnum) (r : cbargs Z) :
  (length (prepare_outcome H2 createCoinbaseTx self beneficiary time r) <= 1)%nat.
Proof.
  unfold prepare_outcome. destruct r; [| simpl; lia].
  destruct (createCoinbaseTx beneficiary _); simpl; lia.
Qed.

End PrepareMore.

(** X20. The candidate block [prepareNextBlock] hands over: the callback
    is invoked at most once, and a draft it receives has version 1, the
    parent's height plus one, the parent's [getHash] as previous hash, a
    single transaction, the coinbase built for that height, and that
    transaction's hash as Merkle root. *)
Theorem prepareNextBlock_draft_fields :
  forall (H2 : Buffer -> Buffer) (decode encode : Z -> Z) (Beneficiary : Type)
         (createCoinbaseTx : Beneficiary -> Z -> outcome Transaction)
         (blockChain : BlockChain) (self : Block) (beneficiary : Beneficiary)
         (time : option Z) (nowMs : Z) (fuel : nat),
    let result :=
      prepareNextBlock H2 decode encode Beneficiary createCoinbaseTx blockChain
        self beneficiary time nowMs fuel in
    (length result <= 1)%nat
    /\ forall draft txs,
         In (CbOk (draft, txs)) result ->
         d_version draft = 1
         /\ d_height draft = height self + 1
         /\ d_prev_hash draft = getHash H2 self
         /\ exists tx,
              createCoinbaseTx beneficiary (height self + 1) = Done tx
              /\ txs = [tx]
              /\ d_merkle_root draft = Some (tx_hash tx)
              /\ calcMerkleRoot H2 (Some (map TxObj txs))
                 = Done (d_merkle_root draft).
Proof.
  intros H2 decode encode Beneficiary createCoinbaseTx blockChain self
    beneficiary time nowMs fuel result.
  unfold result. rewrite prepareNextBlock_outcome.
  destruct (getMedianTimePast blockChain self) as [m | err].
  - destruct (if height self =? 0 then _ else _) as [r |].
    + split; [apply prepare_outcome_short |].
      intros draft txs Hin.
      apply prepare_outcome_draft in Hin.
      destruct Hin as (w & tx & _ & Hc & -> & ->).
      cbn [d_version d_height d_prev_hash d_merkle_root].
      repeat apply conj; try reflexivity.
      exists tx. repeat apply conj; try reflexivity; try exact Hc.
    + split; [simpl; lia | intros draft txs []].
  - split; [simpl; lia |]. intros draft txs [E | []]. discriminate.
Qed.

(** X21. Off the test network a prepared block is a valid child: for a
    parent other than the genesis block, a block with the [bits] and the
    timestamp of a draft that [prepareNextBlock] delivered with the
    default time passes [verifyChild] of the same parent. *)
Theorem prepared_block_passes_verifyChild :
  forall (H2 : Buffer -> Buffer) (decode encode : Z -> Z) (Beneficiary : Type)
         (createCoinbaseTx : Beneficiary -> Z -> outcome Transaction)
         (blockChain : BlockChain) (self child : Block)
         (beneficiary : Beneficiary) (nowMs : Z) (fuel : nat)
         (draft : Draft) (txs : list Transaction),
    isTestnet blockChain = false ->
    height self <> 0 ->
    In (CbOk (draft, txs))
      (prepareNextBlock H2 decode encode Beneficiary createCoinbaseTx blockChain
         self beneficiary None nowMs fuel) ->
    bits child = d_bits draft ->
    Num (timestamp child) = d_timestamp draft ->
    verifyChild decode encode blockChain self child fuel = [CbOk tt].
Proof.
  intros H2 decode encode Beneficiary createCoinbaseTx blockChain self child
    beneficiary nowMs fuel draft txs T H Hin Hb Ht.
  rewrite prepareNextBlock_outcome in Hin.
  pose proof H as Hz. apply Z.eqb_neq in Hz. rewrite Hz in Hin.
  destruct (getMedianTimePast blockChain self) as [m | err] eqn:M;
    [| destruct Hin as [E | []]; discriminate].
  destruct (nextWork_result decode encode blockChain self fuel (Num 0))
    as [r |] eqn:R; [| destruct Hin].
  apply prepare_outcome_draft in Hin.
  destruct Hin as (w & tx & -> & _ & _ & ->).
  cbn [d_bits d_timestamp chosenTime] in Hb, Ht.
  rewrite verifyChild_calls by exact H.
  rewrite getNextWork_calls_result, Hz. cbn [app].
  assert (R' : nextWork_result decode encode blockChain self fuel
                 (Num (timestamp child)) = Some (CbOk w)).
  { rewrite <- R. unfold nextWork_result. cbv zeta. rewrite T. reflexivity. }
  rewrite R'. cbn [opt_list map verify_outcome].
  rewrite Hb, Z.eqb_refl, M. cbn [negb].
  destruct m as [t |]; [| reflexivity].
  cbn [defaultTime] in Ht. injection Ht as Ht.
  replace (timestamp child <=? t) with false
    by (symmetry; apply Z.leb_gt; lia).
  reflexivity.
Qed.

Lemma prepared_block_passes_verifyChild_witness :
  verifyChild decode_compact encode_compact s5_chain s5_block
    (plain_block mainnet 11 12 0x1d00ffff) 0
  = [CbOk tt].
Proof.
  apply (prepared_block_passes_verifyChild sha256d decode_compact
           encode_compact Buffer coinbase_for s5_chain s5_block
           (plain_block mainnet 11 12 0x1d00ffff) genesis_hash 12000 0%nat
           {| d_bits := 0x1d00ffff; d_version := 1; d_timestamp := Num 12;
              d_prev_hash := getHash sha256d s5_block; d_height := 11;
              d_merkle_root := Some genesis_hash |}
           [{| tx_hash := genesis_hash; tx_isCoinBase := true;
               tx_ins := [[]] |}]).
  - reflexivity.
  - discriminate.
  - left. vm_compute. reflexivity.
  - reflexivity.
  - reflexivity.
Defined.

(** X22. On the test network [prepareNextBlock] and [verifyChild]
    disagree: with a target spacing that divides the target timespan,
    between retarget boundaries, for a parent above minimum difficulty
    and other than the genesis block, a draft prepared for a
    time more than two target spacings after the parent carries the
    parent's [bits], and a block with the draft's [bits] and timestamp is
    refused by [verifyChild] of the same parent, which expects the minimum
    difficulty. *)
Theorem testnet_prepared_block_fails_verifyChild :
  forall (H2 : Buffer -> Buffer) (decode encode : Z -> Z) (Beneficiary : Type)
         (createCoinbaseTx : Beneficiary -> Z -> outcome Transaction)
         (blockChain : BlockChain) (self child : Block)
         (beneficiary : Beneficiary) (time nowMs : Z) (fuel : nat)
         (draft : Draft) (txs : list Transaction),
    let interval := getTargetTimespan blockChain / getTargetSpacing blockChain in
    isTestnet blockChain = true ->
    height self <> 0 ->
    getTargetSpacing blockChain <> 0 ->
    (getTargetSpacing blockChain | getTargetTimespan blockChain) ->
    rem_nonzero (height self + 1) interval = true ->
    bits self <> getMinDiff blockChain ->
    0 <= timestamp self + getTargetSpacing blockChain * 2 < time ->
    In (CbOk (draft, txs))
      (prepareNextBlock H2 decode encode Beneficiary createCoinbaseTx blockChain
         self beneficiary (Some time) nowMs fuel) ->
    bits child = d_bits draft ->
    Num (timestamp child) = d_timestamp draft ->
    d_bits draft = bits self
    /\ verifyChild decode encode blockChain self child fuel
       = [CbErr (VerificationError
                   (js_concat ["Incorrect proof of work '";
                               js_toString (bits self);
                               "', should be '";
                               js_toString (getMinDiff blockChain);
                               "'."]%string))].
Proof.
  intros H2 decode encode Beneficiary createCoinbaseTx blockChain self child
    beneficiary time nowMs fuel draft txs interval T H _ _ R B L Hin Hb Ht.
  rewrite prepareNextBlock_outcome in Hin.
  pose proof H as Hz. apply Z.eqb_neq in Hz. rewrite Hz in Hin.
  destruct (getMedianTimePast blockChain self) as [m | err] eqn:M;
    [| destruct Hin as [E | []]; discriminate].
  assert (R0 : nextWork_result decode encode blockChain self fuel (Num 0)
               = Some (CbOk (bits self))).
  { unfold nextWork_result. cbv zeta. fold interval. rewrite R, T.
    cbn [js_gt].
    replace (timestamp self + getTargetSpacing blockChain * 2 <? 0) with false
      by (symmetry; apply Z.ltb_ge; lia).
    replace (bits self =? getMinDiff blockChain) with false
      by (symmetry; apply Z.eqb_neq; exact B).
    reflexivity. }
  rewrite R0 in Hin.
  apply prepare_outcome_draft in Hin.
  destruct Hin as (w & tx & Ew & _ & _ & ->).
  injection Ew as <-.
  cbn [d_bits d_timestamp chosenTime] in Hb, Ht |- *.
  split; [reflexivity |].
  replace (time =? 0) with false in Ht by (symmetry; apply Z.eqb_neq; lia).
  injection Ht as Ht.
  rewrite verifyChild_calls by exact H.
  rewrite getNextWork_calls_result, Hz. cbn [app].
  assert (R1 : nextWork_result decode encode blockChain self fuel
                 (Num (timestamp child)) = Some (CbOk (getMinDiff blockChain))).
  { unfold nextWork_result. cbv zeta. fold interval. rewrite R, T.
    cbn [js_gt].
    replace (timestamp self + getTargetSpacing blockChain * 2 <? timestamp child)
      with true by (symmetry; apply Z.ltb_lt; lia).
    reflexivity. }
  rewrite R1. cbn [opt_list map verify_outcome].
  rewrite Hb.
  replace (bits self =? getMinDiff blockChain) with false
    by (symmetry; apply Z.eqb_neq; exact B).
  reflexivity.
Qed.

Lemma testnet_prepared_block_fails_verifyChild_witness :
  d_bits {| d_bits := 0x1c00ffff; d_version := 1;
            d_timestamp := Num (1296690000 + 1201);
            d_prev_hash := getHash sha256d testnet_block_5; d_height := 6;
            d_merkle_root := Some genesis_hash |}
  = bits testnet_block_5
  /\ verifyChild decode_compact encode_compact testnet_chain_5 testnet_block_5
       (plain_block mainnet 6 (1296690000 + 1201) 0x1c00ffff) 0
     = [CbErr (VerificationError
                 (js_concat ["Incorrect proof of work '";
                             js_toString (bits testnet_block_5);
                             "', should be '";
                             js_toString (getMinDiff testnet_chain_5);
                             "'."]%string))].
Proof.
  apply (testnet_prepared_block_fails_verifyChild sha256d decode_compact
           encode_compact Buffer coinbase_for testnet_chain_5 testnet_block_5
           (plain_block mainnet 6 (1296690000 + 1201) 0x1c00ffff) genesis_hash
           (1296690000 + 1201) 1296690000000 0%nat
           {| d_bits := 0x1c00ffff; d_version := 1;
              d_timestamp := Num (1296690000 + 1201);
              d_prev_hash := getHash sha256d testnet_block_5; d_height := 6;
              d_merkle_root := Some genesis_hash |}
           [{| tx_hash := genesis_hash; tx_isCoinBase := true;
               tx_ins := [[]] |}]).
  - reflexivity.
  - discriminate.
  - discriminate.
  - exists 2016; reflexivity.
  - reflexivity.
  - discriminate.
  - vm_compute. split; [discriminate | reflexivity].
  - left. vm_compute. reflexivity.
  - reflexivity.
  - reflexivity.
Defined.

(* ================================================================== *)
(** * Chain work and subsidy *)
(* ================================================================== *)

Lemma be_bytes_length (n : nat) (x : Z) : length (SHA256.be_bytes n x) = n.
Proof.
  induction n as [| n IH]; [reflexivity |].
  cbn [SHA256.be_bytes length]. rewrite IH. reflexivity.
Qed.

Lemma be_value_cons (x : Z) (a : Buffer) :
  be_value (x :: a) = x * 256 ^ Z.of_nat (length a) + be_value a.
Proof. apply (base_value_cons 256). Qed.

Lemma be_value_be_bytes (n : nat) (x : Z) :
  be_value (SHA256.be_bytes n x) = x mod 256 ^ Z.of_nat n.
Proof.
  induction n as [| n IH].
  - cbn. symmetry. apply Z.mod_1_r.
  - cbn [SHA256.be_bytes]. rewrite be_value_cons, be_bytes_length, IH.
    rewrite Nat2Z.inj_succ, Z.pow_succ_r by lia.
    rewrite (Z.mul_comm 256).
    rewrite (Z.rem_mul_r x (256 ^ Z.of_nat n) 256) by lia.
    ring.
Qed.

Lemma bignum_size_covers (n : Z) :
  0 <= n -> n < 256 ^ Z.of_nat (bignum_size n).
Proof.
  intro H. unfold bignum_size.
  destruct (n <=? 0) eqn:E.
  - apply Z.leb_le in E. assert (n = 0) by lia. subst n. reflexivity.
  - apply Z.leb_gt in E.
    pose proof (Z.log2_nonneg n) as L.
    rewrite Z2Nat.id by (pose proof (Z.div_pos (Z.log2 n) 8 L ltac:(lia)); lia).
    change 256 with (2 ^ 8). rewrite <- Z.pow_mul_r by
      (try lia; pose proof (Z.div_pos (Z.log2 n) 8 L ltac:(lia)); lia).
    apply Z.lt_le_trans with (m := 2 ^ (Z.log2 n + 1)).
    + rewrite Z.add_1_r. apply Z.log2_spec. lia.
    + apply Z.pow_le_mono_r; [lia |].
      pose proof (Z.mul_succ_div_gt (Z.log2 n) 8 ltac:(lia)). lia.
Qed.

(** A big integer that is not negative survives the trip through a
    buffer. *)
Lemma bignum_round_trip (n : Z) :
  0 <= n ->
  exists buf,
    bignum_toBuffer n = Done buf /\ bignum_fromBuffer buf = n /\ buf <> [].
Proof.
  intro H. unfold bignum_toBuffer, bignum_fromBuffer.
  replace (n <? 0) with false by (symmetry; apply Z.ltb_ge; exact H).
  eexists. split; [reflexivity |]. split.
  - rewrite be_value_be_bytes. apply Z.mod_small.
    split; [exact H | apply bignum_size_covers; exact H].
  - intro E. apply (f_equal (@length Z)) in E.
    rewrite be_bytes_length in E. cbn [length] in E.
    unfold bignum_size in E. destruct (n <=? 0); [discriminate |].
    pose proof (Z.div_pos (Z.log2 n) 8 (Z.log2_nonneg n) ltac:(lia)). lia.
Qed.

Lemma be_value_nonneg (buf : Buffer) : Forall is_byte buf -> 0 <= be_value buf.
Proof.
  intro F. apply (base_value_bound 256 ltac:(lia) buf). exact F.
Qed.

(** X23. Attaching a block to its parent: when the parent's chain work is
    a non-empty buffer of bytes and the decoded target is not negative,
    [attachTo] succeeds, gives the block the parent's height plus one and
    the parent's chain work plus the block's own work, and leaves the
    header fields as they were; for a target below 2^256 the block then
    has more work than its parent, and not the other way round. *)
Theorem attachTo_accumulates_work :
  forall (decode : Z -> Z) (b parent : ChainBlock),
    chainWork parent <> [] ->
    Forall is_byte (chainWork parent) ->
    0 <= decode (bits b) ->
    exists b',
      attachTo decode b parent = Done b'
      /\ height b' = height parent + 1
      /\ getChainWork b' = getChainWork parent + getWork decode b
      /\ getHeader b' = getHeader b
      /\ hash b' = hash b
      /\ (decode (bits b) < 2 ^ 256 ->
          moreWorkThan b' parent = true /\ moreWorkThan parent b' = false).
Proof.
  intros decode b parent Hne Hbytes Hd.
  pose proof (be_value_nonneg _ Hbytes) as Hp.
  assert (Hw : 0 <= getWork decode b).
  { unfold getWork, largestHash. rewrite Z.quot_div_nonneg by lia.
    apply Z.div_pos; lia. }
  unfold attachTo, setChainWork.
  change (getWork decode (cb_block _)) with (getWork decode b).
  destruct (bignum_round_trip (getChainWork parent + getWork decode b))
    as (buf & Eb & Ev & _).
  { unfold getChainWork, bignum_fromBuffer. lia. }
  rewrite Eb. cbn [bind].
  eexists. split; [reflexivity |].
  repeat apply conj; try reflexivity.
  - unfold getChainWork at 1. cbn [chainWork]. exact Ev.
  - intro U.
    assert (1 <= getWork decode b).
    { unfold getWork, largestHash. rewrite Z.quot_div_nonneg by lia.
      apply Z.div_le_lower_bound; lia. }
    unfold moreWorkThan. unfold getChainWork at 2 3. cbn [chainWork].
    rewrite Ev. split; [apply Z.ltb_lt | apply Z.ltb_ge]; lia.
Qed.

Lemma attachTo_accumulates_work_witness :
  exists b',
    attachTo decode_compact {| cb_block := s4_block; chainWork := [0] |}
      {| cb_block := genesis; chainWork := [1; 0; 1; 0; 1] |}
    = Done b'
    /\ height b' = height genesis + 1
    /\ getChainWork b'
       = getChainWork {| cb_block := genesis; chainWork := [1; 0; 1; 0; 1] |}
         + getWork decode_compact s4_block
    /\ getHeader b' = getHeader s4_block
    /\ hash b' = hash s4_block
    /\ (decode_compact (bits s4_block) < 2 ^ 256 ->
        moreWorkThan b' {| cb_block := genesis; chainWork := [1; 0; 1; 0; 1] |}
        = true
        /\ moreWorkThan {| cb_block := genesis; chainWork := [1; 0; 1; 0; 1] |} b'
           = false).
Proof.
  apply (attachTo_accumulates_work decode_compact
           {| cb_block := s4_block; chainWork := [0] |}
           {| cb_block := genesis; chainWork := [1; 0; 1; 0; 1] |}).
  - discriminate.
  - repeat constructor; unfold is_byte; simpl; lia.
  - vm_compute. discriminate.
Defined.


(** X25. The subsidy halves every 210000 blocks: for heights that are not
    negative and a coin unit that is not negative, [getBlockValue] is
    [50 * COIN] below height 210000, is halved (rounding down) 210000
    blocks later, never rises with the height, and is 0 from height
    6930000 on when the coin unit is at most 10^8. *)
Theorem getBlockValue_halving :
  forall (COIN h : Z),
    0 <= COIN -> 0 <= h ->
    (h < 210000 -> getBlockValue COIN h = 50 * COIN)
    /\ getBlockValue COIN (h + 210000) = getBlockValue COIN h / 2
    /\ (forall h', h <= h' -> getBlockValue COIN h' <= getBlockValue COIN h)
    /\ (COIN <= 10 ^ 8 -> 6930000 <= h -> getBlockValue COIN h = 0).
Proof.
  intros COIN h HC Hh. unfold getBlockValue. cbv zeta.
  assert (Hk : 0 <= h / 210000) by (apply Z.div_pos; lia).
  assert (Hpow : forall k, 0 <= k -> 0 < 2 ^ k)
    by (intros k Hk'; apply Z.pow_pos_nonneg; lia).
  repeat apply conj.
  - intro L. rewrite Z.div_small by lia. cbn. apply Z.quot_1_r.
  - replace (h + 210000) with (h + 1 * 210000) by lia.
    rewrite Z.div_add by lia.
    rewrite !Z.quot_div_nonneg by (try apply Hpow; lia).
    rewrite Z.pow_add_r by lia. change (2 ^ 1) with 2.
    rewrite Z.div_div by (try apply Hpow; lia). reflexivity.
  - intros h' Hle.
    assert (Hk' : h / 210000 <= h' / 210000) by (apply Z.div_le_mono; lia).
    rewrite !Z.quot_div_nonneg by (try apply Hpow; lia).
    apply Z.div_le_compat_l; [lia |].
    split; [apply Hpow; lia | apply Z.pow_le_mono_r; lia].
  - intros HC8 L.
    assert (Hk' : 33 <= h / 210000)
      by (apply Z.div_le_lower_bound; lia).
    rewrite Z.quot_div_nonneg by (try apply Hpow; lia).
    apply Z.div_small. split; [lia |].
    apply Z.lt_le_trans with (m := 2 ^ 33); [lia |].
    apply Z.pow_le_mono_r; lia.
Qed.

Lemma getBlockValue_halving_witness :
  getBlockValue (10 ^ 8) (209999 + 210000) = getBlockValue (10 ^ 8) 209999 / 2
  /\ getBlockValue (10 ^ 8) 209999 = 50 * 10 ^ 8.
Proof.
  split.
  - exact (proj1 (proj2 (getBlockValue_halving (10 ^ 8) 209999
                           ltac:(lia) ltac:(lia)))).
  - apply (proj1 (getBlockValue_halving (10 ^ 8) 209999 ltac:(lia) ltac:(lia))).
    lia.
Defined.

(* ================================================================== *)
(** * Requested heights, direction of a retarget, total subsidy *)
(* ================================================================== *)

Lemma nth_map_seq (f : nat -> Z) (n k : nat) (d : Z) :
  (k < n)%nat -> nth k (map f (seq 0 n)) d = f k.
Proof.
  intro H.
  rewrite (nth_indep _ d (f 0%nat)) by (rewrite length_map, length_seq; exact H).
  rewrite map_nth, seq_nth by exact H. reflexivity.
Qed.

(** X26. The heights [getMedianTimePast] asks the store for: none for a
    negative height; otherwise the block's own height and the heights
    below it in descending order, eleven of them at most and never a
    negative one. *)
Theorem getMedianTimePast_requested_heights :
  forall h : Z,
    let heights := getBlocks_heights medianTimeSpan 0 h in
    (h < 0 -> heights = [])
    /\ (0 <= h ->
        length heights = Nat.min 11 (Z.to_nat (h + 1))
        /\ (forall k, (k < length heights)%nat ->
              nth k heights (-1) = h - Z.of_nat k)
        /\ Forall (fun x => 0 <= x <= h /\ h - 10 <= x) heights).
Proof.
  intros h heights. split.
  - intro N. unfold heights. cbn [medianTimeSpan getBlocks_heights].
    replace (0 <=? h - 0) with false by (symmetry; apply Z.leb_gt; lia).
    reflexivity.
  - intro P.
    assert (E : heights
                = map (fun k => h - 0 - Z.of_nat k)
                    (seq 0 (Nat.min medianTimeSpan (Z.to_nat (h + 1 - 0)))))
      by (apply getBlocks_heights_spec; lia).
    assert (L : length heights = Nat.min 11 (Z.to_nat (h + 1))).
    { rewrite E, length_map, length_seq. unfold medianTimeSpan.
      f_equal. f_equal. lia. }
    split; [exact L |]. split.
    + intros k Hk. rewrite L in Hk.
      assert (Hk' : (k < Nat.min medianTimeSpan (Z.to_nat (h + 1 - 0)))%nat)
        by (unfold medianTimeSpan; replace (h + 1 - 0) with (h + 1) by lia;
            exact Hk).
      rewrite E, (nth_map_seq (fun k => h - 0 - Z.of_nat k)) by exact Hk'.
      lia.
    + rewrite E. apply Forall_forall. intros x Hx.
      apply in_map_iff in Hx. destruct Hx as (k & <- & Hk).
      apply in_seq in Hk. unfold medianTimeSpan in Hk.
      lia.
Qed.

(** X27. The direction of a retarget: at a boundary, with the anchor
    block found and targets that are not negative, a period that took at
    least the target timespan never lowers the target (up to the limit),
    and a period that took at most the target timespan never raises it;
    a period of exactly the target timespan leaves it as it was, capped
    by the limit. *)
Theorem retarget_direction :
  forall (decode encode : Z -> Z) (blockChain : BlockChain)
         (self anchor : Block) (nextTs : jsnum) (fuel : nat),
    let targetTimespan := getTargetTimespan blockChain in
    let interval := targetTimespan / getTargetSpacing blockChain in
    let oldTarget := decode (bits self) in
    let limit := decode (getMinDiff blockChain) in
    let elapsed := timestamp self - timestamp anchor in
    0 < targetTimespan ->
    getTargetSpacing blockChain <> 0 ->
    (getTargetSpacing blockChain | targetTimespan) ->
    (4 | targetTimespan) ->
    height self <> 0 ->
    (height self + 1) mod interval = 0 ->
    getBlockByHeight blockChain (anchor_height blockChain self) = CbOk anchor ->
    0 <= oldTarget ->
    0 <= limit ->
    exists newTarget,
      getNextWork_calls decode encode blockChain self nextTs fuel
      = [CbOk (encode newTarget)]
      /\ (targetTimespan <= elapsed -> Z.min oldTarget limit <= newTarget)
      /\ (elapsed <= targetTimespan -> newTarget <= oldTarget)
      /\ (elapsed = targetTimespan -> newTarget = Z.min oldTarget limit).
Proof.
  intros decode encode blockChain self anchor nextTs fuel
    targetTimespan interval oldTarget limit elapsed
    Htts Hs Hdiv H4 Hne Hmod Hget Hold Hlim.
  rewrite getNextWork_calls_result.
  rewrite (nextWork_result_boundary decode encode blockChain self anchor)
    by assumption.
  apply Z.eqb_neq in Hne. rewrite Hne. cbn [app opt_list].
  unfold retarget_bits. cbv zeta.
  fold targetTimespan. fold oldTarget. fold limit. fold elapsed.
  set (actual := clamp (targetTimespan / 4) (targetTimespan * 4) elapsed).
  destruct H4 as [k Hk].
  assert (Hq : targetTimespan / 4 = k) by (rewrite Hk; apply Z.div_mul; lia).
  assert (Ha : 0 < actual) by (unfold actual, clamp; lia).
  rewrite Z.quot_div_nonneg by nia.
  set (scaled := oldTarget * actual / targetTimespan).
  assert (Hslow : targetTimespan <= elapsed -> oldTarget <= scaled).
  { intro S. unfold scaled.
    assert (targetTimespan <= actual) by (unfold actual, clamp; lia).
    apply Z.div_le_lower_bound; [lia | nia]. }
  assert (Hfast : elapsed <= targetTimespan -> scaled <= oldTarget).
  { intro S. unfold scaled.
    assert (actual <= targetTimespan) by (unfold actual, clamp; lia).
    apply Z.div_le_upper_bound; [lia | nia]. }
  exists (Z.min scaled limit). split; [reflexivity |].
  repeat apply conj.
  - intro S. specialize (Hslow S). lia.
  - intro S. specialize (Hfast S). lia.
  - intro S. specialize (Hslow ltac:(lia)). specialize (Hfast ltac:(lia)). lia.
Qed.

Lemma retarget_direction_witness :
  exists newTarget,
    getNextWork_calls decode_compact encode_compact chain_30240 block_32255
      (Num 0) 0
    = [CbOk (encode_compact newTarget)]
    /\ (getTargetTimespan chain_30240
        <= timestamp block_32255 - timestamp block_30240 ->
        Z.min (decode_compact (bits block_32255))
          (decode_compact (getMinDiff chain_30240)) <= newTarget)
    /\ (timestamp block_32255 - timestamp block_30240
        <= getTargetTimespan chain_30240 ->
        newTarget <= decode_compact (bits block_32255))
    /\ (timestamp block_32255 - timestamp block_30240
        = getTargetTimespan chain_30240 ->
        newTarget = Z.min (decode_compact (bits block_32255))
                      (decode_compact (getMinDiff chain_30240))).
Proof.
  apply (retarget_direction decode_compact encode_compact chain_30240
           block_32255 block_30240 (Num 0) 0%nat).
  - reflexivity.
  - discriminate.
  - exists 2016; reflexivity.
  - exists 302400; reflexivity.
  - discriminate.
  - reflexivity.
  - reflexivity.
  - vm_compute; discriminate.
  - vm_compute; discriminate.
Defined.

Lemma getBlockValue_nonneg (COIN h : Z) :
  0 <= COIN -> 0 <= h -> 0 <= getBlockValue COIN h.
Proof.
  intros HC Hh. unfold getBlockValue. cbv zeta.
  assert (0 <= h / 210000) by (apply Z.div_pos; lia).
  assert (0 < 2 ^ (h / 210000)) by (apply Z.pow_pos_nonneg; lia).
  rewrite Z.quot_div_nonneg by lia. apply Z.div_pos; lia.
Qed.

(** The value at the next height: the same within a period of 210000
    blocks, at most half of it at the start of the next period. *)
Lemma getBlockValue_next (COIN h : Z) :
  0 <= COIN -> 0 <= h ->
  (h mod 210000 < 209999 -> getBlockValue COIN (h + 1) = getBlockValue COIN h)
  /\ (h mod 210000 = 209999 ->
      2 * getBlockValue COIN (h + 1) <= getBlockValue COIN h).
Proof.
  intros HC Hh. unfold getBlockValue. cbv zeta.
  pose proof (Z.div_mod h 210000 ltac:(lia)) as D.
  pose proof (Z.mod_pos_bound h 210000 ltac:(lia)) as B.
  assert (Hq : 0 <= h / 210000) by (apply Z.div_pos; lia).
  split; intro M.
  - replace ((h + 1) / 210000) with (h / 210000); [reflexivity |].
    apply (Z.div_unique (h + 1) 210000 (h / 210000) (h mod 210000 + 1)); lia.
  - replace ((h + 1) / 210000) with (h / 210000 + 1)
      by (apply (Z.div_unique (h + 1) 210000 (h / 210000 + 1) 0); lia).
    assert (Hp : 0 < 2 ^ (h / 210000)) by (apply Z.pow_pos_nonneg; lia).
    rewrite Z.pow_add_r by lia. change (2 ^ 1) with 2.
    rewrite !Z.quot_div_nonneg by lia.
    rewrite <- Z.div_div by lia.
    apply Z.mul_div_le. lia.
Qed.

(** What is paid up to a height, and what can still be paid from it on. *)
Lemma total_subsidy_potential (COIN : Z) (n : nat) :
  0 <= COIN ->
  total_subsidy COIN n
  + (210000 - Z.of_nat n mod 210000 + 210000) * getBlockValue COIN (Z.of_nat n)
  <= 21000000 * COIN.
Proof.
  intro HC. induction n as [| n IH].
  - cbn [total_subsidy]. change (Z.of_nat 0) with 0.
    change (0 mod 210000) with 0. unfold getBlockValue. cbv zeta.
    change (0 / 210000) with 0. change (2 ^ 0) with 1. rewrite Z.quot_1_r. lia.
  - cbn [total_subsidy]. rewrite Nat2Z.inj_succ, <- Z.add_1_r.
    set (h := Z.of_nat n) in *.
    assert (Hh : 0 <= h) by (unfold h; lia).
    pose proof (Z.mod_pos_bound h 210000 ltac:(lia)) as B.
    pose proof (Z.div_mod h 210000 ltac:(lia)) as D.
    pose proof (getBlockValue_nonneg COIN h HC Hh) as V.
    pose proof (getBlockValue_nonneg COIN (h + 1) HC ltac:(lia)) as V1.
    destruct (getBlockValue_next COIN h HC Hh) as [Same Half].
    destruct (Z_lt_dec (h mod 210000) 209999) as [Lt | Ge].
    + rewrite (Same Lt).
      replace ((h + 1) mod 210000) with (h mod 210000 + 1)
        by (apply (Z.mod_unique (h + 1) 210000 (h / 210000) (h mod 210000 + 1));
            lia).
      nia.
    + assert (M : h mod 210000 = 209999) by lia.
      specialize (Half M).
      replace ((h + 1) mod 210000) with 0
        by (apply (Z.mod_unique (h + 1) 210000 (h / 210000 + 1) 0); lia).
      rewrite M in IH. nia.
Qed.

(** X28. The supply is bounded: for a coin unit that is not negative, the
    subsidies [getBlockValue] of all the blocks below any height add up to
    21 million coin units at most. *)
Theorem total_subsidy_bounded :
  forall (COIN : Z) (n : nat),
    0 <= COIN ->
    0 <= total_subsidy COIN n <= 21000000 * COIN.
Proof.
  intros COIN n HC. split.
  - induction n as [| n IH]; [reflexivity |].
    cbn [total_subsidy].
    pose proof (getBlockValue_nonneg COIN (Z.of_nat n) HC ltac:(lia)). lia.
  - pose proof (total_subsidy_potential COIN n HC) as P.
    pose proof (getBlockValue_nonneg COIN (Z.of_nat n) HC ltac:(lia)) as V.
    pose proof (Z.mod_pos_bound (Z.of_nat n) 210000 ltac:(lia)) as B.
    nia.
Qed.

Lemma total_subsidy_bounded_witness :
  0 <= 10 ^ 8
  /\ 0 <= total_subsidy (10 ^ 8) 3 <= 21000000 * 10 ^ 8.
Proof.
  split; [lia |].
  exact (total_subsidy_bounded (10 ^ 8) 3 ltac:(lia)).
Defined.

(** X29. A freshly prepared block and the clock: a block with the
    timestamp of a draft that [prepareNextBlock] delivered with the
    default time passes [checkTimestamp] at the same clock reading exactly
    when the median time past plus one is not more than two hours ahead
    of that clock. *)
Theorem prepared_block_checkTimestamp :
  forall (H2 : Buffer -> Buffer) (decode encode : Z -> Z) (Beneficiary : Type)
         (createCoinbaseTx : Beneficiary -> Z -> outcome Transaction)
         (blockChain : BlockChain) (self child : Block)
         (beneficiary : Beneficiary) (nowMs : Z) (fuel : nat)
         (draft : Draft) (txs : list Transaction) (m : Z),
    In (CbOk (draft, txs))
      (prepareNextBlock H2 decode encode Beneficiary createCoinbaseTx blockChain
         self beneficiary None nowMs fuel) ->
    Num (timestamp child) = d_timestamp draft ->
    getMedianTimePast blockChain self = CbOk (Some m) ->
    timestamp child = Z.max (m + 1) (nowMs / 1000)
    /\ (checkTimestamp child nowMs = Done true
        <-> (m + 1) * 1000 <= nowMs + maxTimeOffset * 1000).
Proof.
  intros H2 decode encode Beneficiary createCoinbaseTx blockChain self child
    beneficiary nowMs fuel draft txs m Hin Ht M.
  rewrite prepareNextBlock_outcome, M in Hin.
  destruct (if height self =? 0 then _ else _) as [r |]; [| destruct Hin].
  apply prepare_outcome_draft in Hin.
  destruct Hin as (w & tx & _ & _ & _ & ->).
  cbn [d_timestamp chosenTime defaultTime] in Ht. injection Ht as Ht.
  split; [exact Ht |].
  unfold checkTimestamp, maxTimeOffset.
  pose proof (Z.mul_div_le nowMs 1000 ltac:(lia)) as F.
  destruct (_ <? _) eqn:E;
    [apply Z.ltb_lt in E | apply Z.ltb_ge in E].
  - split; [discriminate | intro L; exfalso; lia].
  - split; [intros _; lia | reflexivity].
Qed.

Lemma prepared_block_checkTimestamp_witness :
  timestamp (plain_block mainnet 11 12 0x1d00ffff) = Z.max (4 + 1) (12000 / 1000)
  /\ (checkTimestamp (plain_block mainnet 11 12 0x1d00ffff) 12000 = Done true
      <-> (4 + 1) * 1000 <= 12000 + maxTimeOffset * 1000).
Proof.
  apply (prepared_block_checkTimestamp sha256d decode_compact
           encode_compact Buffer coinbase_for s5_chain s5_block
           (plain_block mainnet 11 12 0x1d00ffff) genesis_hash 12000 0%nat
           {| d_bits := 0x1d00ffff; d_version := 1; d_timestamp := Num 12;
              d_prev_hash := getHash sha256d s5_block; d_height := 11;
              d_merkle_root := Some genesis_hash |}
           [{| tx_hash := genesis_hash; tx_isCoinBase := true;
               tx_ins := [[]] |}] 4).
  - left. vm_compute. reflexivity.
  - reflexivity.
  - vm_compute. reflexivity.
Defined.
